(** * smallsh: a shallow embedding of [smallsh.c]

    The shell is one C file.  Its functions are embedded here as Rocq
    functions over an explicit model of what the shell process can observe
    of the operating system: its children that have not been waited for, the
    results of the coming calls of [fork], the characters waiting on standard
    input, and a trace of the system calls and of the text printed so far.

    Conventions.
    - A C string is a [string]: the bytes before the terminating NUL.
    - A linked list ([struct argument], [struct childProc]) is a [list];
      the [next] field is the list structure and [NULL] is [[]].  The
      descriptor fields of a command ([redirInput], [redirOutput],
      [background]) live in the first node, as in the source.
    - An [int] is a [Z]; array indices are [nat].
    - Code that may exit the process, block for ever in a system call or
      run into undefined behaviour returns an [outcome]. *)

From Stdlib Require Import ZArith String Ascii List Lia DecimalString.
From stdpp Require Import base gmap strings list.

Open Scope string_scope.
Open Scope list_scope.
Open Scope Z_scope.

(** ** Constants *)

Definition LINE_LENGTH : nat := 2048.
Definition SIGINT : Z := 2.
Definition SIGTERM : Z := 15.
Definition WNOHANG : Z := 1.
Definition EXIT_SUCCESS : Z := 0.

(** ** Wait statuses

    [waitpid] stores an [int]; the source reads it with the macros of
    [<sys/wait.h>], which are written out here with their usual (Linux)
    definitions. *)

Definition WIFEXITED (status : Z) : bool := Z.land status 127 =? 0.
Definition WEXITSTATUS (status : Z) : Z := Z.shiftr (Z.land status 65280) 8.
Definition WTERMSIG (status : Z) : Z := Z.land status 127.

(** How a process ended, and the [int] the kernel reports for it. *)
Inductive termination : Type :=
| Exited (code : Z)
| Signaled (sig : Z) (core : bool).

Definition wstatus (t : termination) : Z :=
  match t with
  | Exited code => Z.shiftl (Z.land code 255) 8
  | Signaled sig core => Z.lor sig (if core then 128 else 0)
  end.

(** A termination the kernel can report: an exit code is one byte and a
    terminating signal is one of the signals 1..64. *)
Definition valid_termination (t : termination) : Prop :=
  match t with
  | Exited code => 0 <= code <= 255
  | Signaled sig _ => 1 <= sig <= 64
  end.

(** ** The process's view of the operating system *)

(** A child of the shell that has not been waited for.  A running child
    carries what the environment has decided for it: [fate] is how it ends
    if it is left alone ([None]: it never ends) and [on_sigterm] how it ends
    once it has been sent SIGTERM ([None]: it survives it and never ends). *)
Inductive proc : Type :=
| Running (fate : option termination) (on_sigterm : option termination)
| Zombie (t : termination).

Inductive event : Type :=
| EFork (ret : Z)                      (* fork() returned [ret] in the shell *)
| EWaitpid (pid options ret : Z)       (* waitpid(pid, &status, options) *)
| EKill (pid sig : Z)                  (* kill(pid, sig) *)
| EChdir (path : option string)        (* chdir; [None] is getenv("HOME") *)
| EPerror (msg : string)               (* perror(msg) *)
| EPrint (s : string).                 (* text written to standard output *)

Record World : Type := mkWorld {
  procs : gmap Z proc;                 (* children not yet waited for *)
  forks : list (option (positive * proc));
                                       (* what the next calls of fork() give:
                                          [None] is failure, else the child *)
  stdin : string;                      (* characters not yet read *)
  backgroundOnly : bool;               (* the global of the same name *)
  trace : list event                   (* oldest first *)
}.

Definition set_procs (p : gmap Z proc) (w : World) : World :=
  mkWorld p (forks w) (stdin w) (backgroundOnly w) (trace w).
Definition set_forks (f : list (option (positive * proc))) (w : World) : World :=
  mkWorld (procs w) f (stdin w) (backgroundOnly w) (trace w).
Definition set_stdin (s : string) (w : World) : World :=
  mkWorld (procs w) (forks w) s (backgroundOnly w) (trace w).
Definition set_backgroundOnly (b : bool) (w : World) : World :=
  mkWorld (procs w) (forks w) (stdin w) b (trace w).
Definition log (e : event) (w : World) : World :=
  mkWorld (procs w) (forks w) (stdin w) (backgroundOnly w) (trace w ++ [e]).

(** ** Outcomes and the monad of shell code *)

Inductive fault : Type :=
| NullDeref          (* a field of a NULL pointer is read *)
| UseAfterFree       (* a freed node is read *)
| BufferOverflow     (* an index leaves the line buffer *)
| OutOfFuel.         (* a loop of the model has used up its fuel: never
                        the case, see [separateInput_words], [getInput_fuel] *)

Inductive outcome (A : Type) : Type :=
| Ret (a : A) (w : World)          (* the function returns *)
| Exit (code : Z) (w : World)      (* the process ends through exit(code) *)
| Block (w : World)                (* a system call never returns *)
| Fault (f : fault) (w : World).   (* undefined behaviour *)
Arguments Ret {A} a w.
Arguments Exit {A} code w.
Arguments Block {A} w.
Arguments Fault {A} f w.

Definition M (A : Type) : Type := World -> outcome A.

Definition ret {A} (a : A) : M A := fun w => Ret a w.
Definition bind {A B} (m : M A) (f : A -> M B) : M B :=
  fun w => match m w with
           | Ret a w' => f a w'
           | Exit c w' => Exit c w'
           | Block w' => Block w'
           | Fault e w' => Fault e w'
           end.

#[global] Instance M_ret : MRet M := @ret.
#[global] Instance M_bind : MBind M := fun A B f m => bind m f.

Definition emit (e : event) : M unit := fun w => Ret tt (log e w).
Definition printf (s : string) : M unit := emit (EPrint s).
Definition exit_ {A} (code : Z) : M A := fun w => Exit code w.
Definition crash {A} (f : fault) : M A := fun w => Fault f w.

(** The characters the source tests for, and "\n" as a string. *)
Definition LF : ascii := "010"%char.
Definition NUL : ascii := "000"%char.
Definition nl : string := String LF EmptyString.

(** printf("%d", n) *)
Definition dec (n : Z) : string := NilZero.string_of_int (Z.to_int n).

(** ** System calls *)

(** fork(), seen from the shell: -1 or the pid of the new child. *)
Definition fork : M Z := fun w =>
  match forks w with
  | Some (pid, p) :: rest =>
      Ret (Z.pos pid)
          (log (EFork (Z.pos pid))
               (set_procs (<[Z.pos pid := p]> (procs w)) (set_forks rest w)))
  | None :: rest => Ret (-1) (log (EFork (-1)) (set_forks rest w))
  | [] => Ret (-1) (log (EFork (-1)) w)
  end.

(** waitpid(pid, &childStatus, options) for a positive [pid] and [options]
    0 or WNOHANG: the shell passes pids that fork has given.  The result is
    the return value and the new content of [childStatus], which is left as
    it was when nothing is reported.  A pid that is not the pid of a child
    that can be waited for gives -1 (ECHILD). *)
Definition waitpid (pid : Z) (childStatus : Z) (options : Z) : M (Z * Z) :=
  fun w =>
    match procs w !! pid with
    | Some (Zombie t) =>
        Ret (pid, wstatus t)
            (log (EWaitpid pid options pid) (set_procs (delete pid (procs w)) w))
    | Some (Running fate _) =>
        if options =? WNOHANG
        then Ret (0, childStatus) (log (EWaitpid pid options 0) w)
        else match fate with
             | Some t =>
                 Ret (pid, wstatus t)
                     (log (EWaitpid pid options pid)
                          (set_procs (delete pid (procs w)) w))
             | None => Block w
             end
    | None => Ret (-1, childStatus) (log (EWaitpid pid options (-1)) w)
    end.

(** kill(pid, SIGTERM): the signal reaches a running child, whose ending is
    from then on the one it has under SIGTERM. *)
Definition kill (pid : Z) (sig : Z) : M unit := fun w =>
  match procs w !! pid with
  | Some (Running _ on_sigterm) =>
      Ret tt (log (EKill pid sig)
                  (set_procs (<[pid := Running on_sigterm on_sigterm]> (procs w)) w))
  | _ => Ret tt (log (EKill pid sig) w)
  end.

(** ** Words of a command: [struct argument] *)

Record argument : Type := mkArgument {
  text : string;
  position : Z;
  redirInput : option string;
  redirOutput : option string;
  background : bool
}.

Definition set_position (n : Z) (a : argument) : argument :=
  mkArgument (text a) n (redirInput a) (redirOutput a) (background a).
Definition set_redirInput (f : string) (a : argument) : argument :=
  mkArgument (text a) (position a) (Some f) (redirOutput a) (background a).
Definition set_redirOutput (f : string) (a : argument) : argument :=
  mkArgument (text a) (position a) (redirInput a) (Some f) (background a).
Definition set_background (b : bool) (a : argument) : argument :=
  mkArgument (text a) (position a) (redirInput a) (redirOutput a) b.

(** The words of a command, in order. *)
Definition words (head : list argument) : list string := map text head.

Definition makeArgument (token : string) : argument :=
  mkArgument token (-1) None None false.

(** A pointer to the first node of a list of arguments that the callee may
    have freed. *)
Inductive arglist : Type :=
| Live (head : list argument)
| Dangling.

(** ** strtok_r with the delimiter " " *)

(** s += strspn(s, " ") *)
Fixpoint skip_delim (s : string) : string :=
  match s with
  | String c s' => if Ascii.eqb c " " then skip_delim s' else s
  | EmptyString => EmptyString
  end.

(** The token that starts [s] and what is left after it: the delimiter that
    ends the token is overwritten with NUL and scanning resumes behind it. *)
Fixpoint take_token (s : string) : string * string :=
  match s with
  | String c s' =>
      if Ascii.eqb c " " then (EmptyString, s')
      else let (tok, saveptr) := take_token s' in (String c tok, saveptr)
  | EmptyString => (EmptyString, EmptyString)
  end.

(** One call of strtok_r on what is left of the line: [None] is NULL, else
    the token and the new [saveptr]. *)
Definition strtok_r (s : string) : option (string * string) :=
  match skip_delim s with
  | EmptyString => None
  | s' => Some (take_token s')
  end.

(** ** setBackground *)

Definition setBackground (head : list argument) : M (list argument) := fun w =>
  match head with
  | [] => Fault NullDeref w
  | h :: next =>
      let h' := if backgroundOnly w then h else set_background true h in
      match next with
      | [] => Ret [h'] w
      | _ :: _ => Ret (h' :: removelast next) w
      end
  end.

(** ** separateInput *)

(** The while loop of separateInput.  [token] is the result of the last call
    of strtok_r, [head] the list built so far (its last node is [tail]). *)
Fixpoint separateInput_loop (fuel : nat) (token : option (string * string))
    (head : list argument) (counter : Z) : option (list argument) :=
  match token with
  | None => Some head
  | Some (tok, saveptr) =>
      match fuel with
      | O => None
      | S fuel' =>
          let thisWord := set_position counter (makeArgument tok) in
          separateInput_loop fuel' (strtok_r saveptr) (head ++ [thisWord])
                             (counter + 1)
      end
  end.

(** Every token takes at least one character of the line, so this is more
    fuel than the loop can use. *)
Definition separateInput_fuel (input : string) : nat := S (String.length input).

Definition separateInput (input : string) : M (list argument) :=
  match separateInput_loop (separateInput_fuel input) (strtok_r input) [] 0 with
  | None => crash OutOfFuel
  | Some head =>
      match last head with
      | None => crash NullDeref                 (* tail->text with tail == NULL *)
      | Some tail =>
          if (text tail =? "&")%string then setBackground head else mret head
      end
  end.

(** ** redirectIO *)

(** The nodes the walk of redirectIO ends on: the list before [previous],
    then [previous] and [current], the last two nodes. *)
Fixpoint last_two (l : list argument)
    : option (list argument * argument * argument) :=
  match l with
  | [] | [_] => None
  | [previous; current] => Some ([], previous, current)
  | a :: l' =>
      match last_two l' with
      | Some (pre, previous, current) => Some (a :: pre, previous, current)
      | None => None
      end
  end.

(** The first node with one field changed: [head->field = ...]. *)
Definition on_head (f : argument -> argument) (l : list argument) : list argument :=
  match l with
  | [] => []
  | h :: t => f h :: t
  end.

(** The result is the returned flag and the caller's list afterwards. *)
Definition redirectIO (head : arglist) : M (bool * arglist) :=
  match head with
  | Dangling => crash UseAfterFree
  | Live [] => crash NullDeref
  | Live [_] => mret (false, head)
  | Live l =>
      match last_two l with
      | None => mret (false, head)
      | Some (pre, previous, current) =>
          if (text previous =? ">")%string then
            match pre with
            | [] => mret (true, Live (on_head (set_redirOutput (text current)) l))
            | _ :: _ =>
                mret (true, Live (on_head (set_redirOutput (text current)) pre))
            end
          else if (text previous =? "<")%string then
            match pre with
            | [] => mret (true, Dangling)       (* freeArguments(head) *)
            | _ :: _ =>
                mret (true, Live (on_head (set_redirInput (text current)) pre))
            end
          else mret (false, head)
      end
  end.

(** The two calls of redirectIO at the start of otherProcess:
    [if (redirectIO(head)) redirectIO(head);] *)
Definition otherProcess_redirect (head : list argument) : M arglist :=
  '(found, head1) ← redirectIO (Live head);
  if (found : bool) then '(_, head2) ← redirectIO head1; mret head2
  else mret head1.

(** ** The Job Table: [struct childProc] *)

Definition createChildProc (head : list Z) (id : Z) : list Z := head ++ [id].

Fixpoint removeChildProc (head : list Z) (id : Z) : list Z :=
  match head with
  | [] => []
  | current :: next =>
      if current =? id then next else current :: removeChildProc next id
  end.

(** ** The Last Status Record: [struct endStatus] *)

Record endStatus : Type := mkEndStatus { exit : bool; num : Z }.

Definition printStatus (exitStatus : endStatus) : M unit :=
  _ ← (if exit exitStatus then printf "exit value "
       else printf "terminated by signal ");
  printf (dec (num exitStatus) ++ nl).

(** ** handle_SIGTSTP

    The handler runs between two steps of the shell, whenever the signal is
    delivered. *)
Definition handle_SIGTSTP (w : World) : World :=
  if backgroundOnly w
  then log (EPrint (nl ++ "Exiting foreground-only mode" ++ nl ++ ": "))
           (set_backgroundOnly false w)
  else log (EPrint (nl ++ "Entering foreground-only mode (& is now ignored)"
                    ++ nl ++ ": "))
           (set_backgroundOnly true w).

(** ** checkTerminatedChildren

    [current] walks over the nodes of the list as it was on entry while
    [head] loses the nodes of the children found terminated.  A node that
    is removed was visited already: the pid removed is the one waitpid
    returned, which is either the pid of the node under [current] or -1,
    and no node holds -1 (the ids are results of fork in the branch of the
    shell).  [childStatus] is the local of that name, not initialised in the
    source, so its first value is a parameter. *)
Fixpoint checkTerminatedChildren_loop (current head : list Z) (sig : bool)
    (childStatus : Z) : M (list Z) :=
  match current with
  | [] => mret head
  | id :: next =>
      '(waitStatus, childStatus) ← waitpid id childStatus WNOHANG;
      if waitStatus =? 0 then
        checkTerminatedChildren_loop next head sig childStatus
      else
        _ ← (if WIFEXITED childStatus then
               printf ("background pid " ++ dec waitStatus
                       ++ " is done: exit value "
                       ++ dec (WEXITSTATUS childStatus) ++ nl)
             else if sig then
               printf ("terminated by signal " ++ dec (WTERMSIG childStatus) ++ nl)
             else
               printf ("background pid " ++ dec waitStatus
                       ++ " is done: terminated by signal "
                       ++ dec (WTERMSIG childStatus) ++ nl));
        checkTerminatedChildren_loop next (removeChildProc head waitStatus) sig
                                     childStatus
  end.

Definition checkTerminatedChildren (head : list Z) (sig : bool)
    (childStatus : Z) : M (list Z) :=
  checkTerminatedChildren_loop head head sig childStatus.

(** ** killChildren *)

Fixpoint killChildren (head : list Z) (childStatus : Z) : M unit :=
  match head with
  | [] => mret tt
  | id :: next =>
      _ ← kill id SIGTERM;
      '(_, childStatus) ← waitpid id childStatus 0;
      killChildren next childStatus
  end.

(** ** Built-in commands

    killChildren writes its [childStatus] and never reads it, so builtIn
    starts it with 0. *)

Definition changeDir (head : list argument) : M unit :=
  match head with
  | [] => crash NullDeref
  | [_] => emit (EChdir None)
  | _ :: arg :: _ => emit (EChdir (Some (text arg)))
  end.

Definition builtIn (head : list argument) (children : list Z)
    (exitStatus : endStatus) : M bool :=
  match head with
  | [] => crash NullDeref
  | cmd :: _ =>
      if (text cmd =? "exit")%string then
        _ ← killChildren children 0;
        exit_ EXIT_SUCCESS
      else if (text cmd =? "cd")%string then
        _ ← changeDir head; mret true
      else if (text cmd =? "status")%string then
        _ ← printStatus exitStatus; mret true
      else mret false
  end.

(** ** otherProcess

    Only the shell's side of fork is followed: what the child does (signal
    dispositions, redirections, execvp) shows here as the [proc] that fork
    adds to [procs].  The two [struct sigaction] arguments are used in the
    child alone and are left out.  [childStatus] is the local of that name,
    not initialised in the source.  The result is the new head of the Job
    Table and the content of [*exitStatus]. *)
Definition otherProcess (head : list argument) (children : list Z)
    (exitStatus : endStatus) (childStatus : Z) : M (list Z * endStatus) :=
  head ← otherProcess_redirect head;
  newID ← fork;
  if newID =? -1 then
    _ ← emit (EPerror ("fork()" ++ nl)); exit_ 1
  else if newID =? 0 then
    exit_ 1                       (* the child: never the shell process *)
  else
    let children := createChildProc children newID in
    match head with
    | Dangling => crash UseAfterFree
    | Live [] => crash NullDeref
    | Live (descriptor :: _) =>
        if negb (background descriptor) then
          '(newID, childStatus) ← waitpid newID childStatus 0;
          if WIFEXITED childStatus then
            mret (removeChildProc children newID,
                  mkEndStatus true (WEXITSTATUS childStatus))
          else
            _ ← (if WTERMSIG childStatus =? 2 then
                   printf ("terminated by signal "
                           ++ dec (WTERMSIG childStatus) ++ nl)
                 else mret tt);
            mret (removeChildProc children newID,
                  mkEndStatus false (WTERMSIG childStatus))
        else
          _ ← printf ("background pid is " ++ dec newID ++ nl);
          mret (children, exitStatus)
    end.

(** ** Reading a line: check$$ and getInput *)

(** [char input[LINE_LENGTH]]: the content of the array by index.  The array
    is not initialised in the source, so its first content is a parameter of
    getInput.  An access at an index of [LINE_LENGTH] or more is a fault. *)
Definition buffer : Type := nat -> ascii.

Definition store (input : buffer) (i : nat) (c : ascii) : M buffer :=
  if (i <? LINE_LENGTH)%nat
  then mret (fun j => if (j =? i)%nat then c else input j)
  else crash BufferOverflow.

Definition load (input : buffer) (i : nat) : M ascii :=
  if (i <? LINE_LENGTH)%nat then mret (input i) else crash BufferOverflow.

(** sprintf(input + i, "%s", s): the characters of [s], then NUL. *)
Fixpoint sprintf (input : buffer) (i : nat) (s : string) : M buffer :=
  match s with
  | EmptyString => store input i NUL
  | String c s' => input ← store input i c; sprintf input (S i) s'
  end.

(** The C string that starts at index [i], looking at [n] bytes at most. *)
Fixpoint cstring (input : buffer) (i n : nat) : string :=
  match n with
  | O => EmptyString
  | S n' =>
      if Ascii.eqb (input i) NUL then EmptyString
      else String (input i) (cstring input (S i) n')
  end.

(** getchar(), stored in a [char]: at the end of the input, EOF (-1) becomes
    the character 255. *)
Definition getchar : M ascii := fun w =>
  match stdin w with
  | String c rest => Ret c (set_stdin rest w)
  | EmptyString => Ret "255"%char w
  end.

(** check$$.  [floor(log10(processID) + 1)] is the number of decimal digits
    of [processID], the pid of the shell, which is positive. *)
Definition check_dollars (input : buffer) (i : nat) (processID : Z)
    : M (buffer * nat) :=
  c ← getchar;
  if Ascii.eqb c "$" then
    input ← sprintf input i (dec processID);
    mret (input, (i + String.length (dec processID))%nat)
  else
    input ← store input i "$"%char;
    let i := S i in
    if Ascii.eqb c LF then
      input ← store input i NUL; mret (input, i)
    else
      input ← store input i c; mret (input, S i).

(** The while loop of getInput, from [(c = getchar()) != '\n'] on.  Every
    turn moves [i] forward and an index of [LINE_LENGTH] is a fault, so the
    fuel getInput gives is never used up. *)
Fixpoint getInput_loop (fuel : nat) (processID : Z) (input : buffer) (i : nat)
    : M (buffer * nat) :=
  match fuel with
  | O => crash OutOfFuel
  | S fuel' =>
      c ← getchar;
      if Ascii.eqb c LF then mret (input, i)
      else if Ascii.eqb c "$" then
        '(input, i) ← check_dollars input i processID;
        c' ← load input i;
        if Ascii.eqb c' NUL then mret (input, i)          (* break *)
        else getInput_loop fuel' processID input i
      else
        input ← store input i c;
        getInput_loop fuel' processID input (S i)
  end.

(** getInput.  The result [[]] is the NULL that stands for an empty line or
    a comment. *)
Definition getInput (processID : Z) (input : buffer) : M (list argument) :=
  _ ← printf ": ";
  '(input, i) ← getInput_loop (S LINE_LENGTH) processID input 0;
  input ← store input i NUL;
  if ((i =? 0)%nat || Ascii.eqb (input 0%nat) "#")%bool then mret []
  else separateInput (cstring input 0 LINE_LENGTH).

(** ** The loop of main *)

(** The locals of main that the loop carries from one turn to the next. *)
Record shell : Type := mkShell {
  children : list Z;
  exitStatus : endStatus
}.

(** The first contents of the locals that the source does not initialise. *)
Record indeterminate : Type := mkIndeterminate {
  input_of_getInput : buffer;
  childStatus_of_checkTerminatedChildren : Z;
  childStatus_of_otherProcess : Z
}.

Definition main_init : shell := mkShell [] (mkEndStatus true 0).

(** One turn of [while(true)] in main. *)
Definition main_body (processID : Z) (u : indeterminate) (sh : shell) : M shell :=
  children ← checkTerminatedChildren (children sh) false
                (childStatus_of_checkTerminatedChildren u);
  head ← getInput processID (input_of_getInput u);
  match head with
  | [] => mret (mkShell children (exitStatus sh))
  | _ :: _ =>
      handled ← builtIn head children (exitStatus sh);
      if (handled : bool) then mret (mkShell children (exitStatus sh))
      else
        '(children, exitStatus) ← otherProcess head children (exitStatus sh)
                                     (childStatus_of_otherProcess u);
        mret (mkShell children exitStatus)
  end.

(** ** Derived observations *)

(** The text written to standard output, in order. *)
Fixpoint output (tr : list event) : string :=
  match tr with
  | [] => EmptyString
  | EPrint s :: tr' => s ++ output tr'
  | _ :: tr' => output tr'
  end.

Definition world0 : World := mkWorld ∅ [] "" false [].

(** Two first contents of the line buffer: no NUL anywhere, NUL everywhere. *)
Definition xs : buffer := fun _ => "x"%char.
Definition zeros : buffer := fun _ => NUL.

(** * Specification-level definitions

    What the description of the shell speaks of, written independently of
    the code above, to compare the code with. *)

(** The words of a line: its maximal runs of characters other than the
    space, in order.  [word] is the run being read. *)
Fixpoint line_words_from (word line : string) : list string :=
  match line with
  | EmptyString =>
      match word with
      | EmptyString => []
      | _ => [word]
      end
  | String c line' =>
      if Ascii.eqb c " " then
        match word with
        | EmptyString => line_words_from EmptyString line'
        | _ => word :: line_words_from EmptyString line'
        end
      else line_words_from (word ++ String c EmptyString) line'
  end.

Definition line_words (line : string) : list string :=
  line_words_from EmptyString line.

(** The nodes separateInput makes of a sequence of words. *)
Fixpoint numbered (counter : Z) (ws : list string) : list argument :=
  match ws with
  | [] => []
  | token :: ws' =>
      set_position counter (makeArgument token) :: numbered (counter + 1) ws'
  end.

(** [forallb] over the integers 0 .. n-1. *)
Definition below (n : nat) (f : Z -> bool) : bool :=
  forallb f (map Z.of_nat (seq 0 n)).

(** The Command Descriptor that a list of arguments stands for: its words,
    and the attributes kept in its first node. *)
Record descriptor : Type := mkDescriptor {
  d_words : list string;
  input_redirect : option string;
  output_redirect : option string;
  d_background : bool
}.



(** How a child ends if nobody signals it: a zombie has ended already. *)
Definition ending (p : proc) : option termination :=
  match p with
  | Zombie t => Some t
  | Running fate _ => fate
  end.

(** The Last Status Record for a termination: Exited with the exit code, or
    Signaled with the number of the signal. *)
Definition last_status (t : termination) : endStatus :=
  match t with
  | Exited code => mkEndStatus true code
  | Signaled sig _ => mkEndStatus false sig
  end.

(** What the built-in [status] prints for it. *)
Definition status_line (t : termination) : string :=
  match t with
  | Exited code => "exit value " ++ dec code ++ nl
  | Signaled sig _ => "terminated by signal " ++ dec sig ++ nl
  end.

(** The notice printed at once when a foreground child is ended by the
    interrupt signal, and by no other termination. *)
Definition interrupt_notice (t : termination) : list event :=
  match t with
  | Signaled sig _ =>
      if sig =? SIGINT then [EPrint ("terminated by signal 2" ++ nl)] else []
  | Exited _ => []
  end.

(** The announcement of the reap pass of main for a tracked child. *)
Definition announcement (id : Z) (t : termination) : string :=
  match t with
  | Exited code =>
      "background pid " ++ dec id ++ " is done: exit value " ++ dec code ++ nl
  | Signaled sig _ =>
      "background pid " ++ dec id ++ " is done: terminated by signal "
      ++ dec sig ++ nl
  end.

(** The child [id] has ended and has not been waited for. *)
Definition ended (m : gmap Z proc) (id : Z) : bool :=
  match m !! id with
  | Some (Zombie _) => true
  | _ => false
  end.

(** The system calls and announcements of one reap pass over [table] when
    the children are as in [m]: one status check per record, and one
    announcement per record whose child has ended. *)
Fixpoint reap_events (m : gmap Z proc) (table : list Z) : list event :=
  match table with
  | [] => []
  | id :: table' =>
      match m !! id with
      | Some (Zombie t) =>
          EWaitpid id WNOHANG id :: EPrint (announcement id t)
                   :: reap_events m table'
      | _ => EWaitpid id WNOHANG 0 :: reap_events m table'
      end
  end.

(** A record of the Job Table in order: its pid is positive and is the pid
    of a child of the shell that has not been waited for, and a child that
    has ended has ended in a way the kernel can report. *)
Definition tracked_child (m : gmap Z proc) (id : Z) : Prop :=
  0 < id /\
  match m !! id with
  | Some (Zombie t) => valid_termination t
  | Some (Running _ _) => True
  | None => False
  end.

(** The Job Table tracks distinct children of the shell. *)
Definition tracked (m : gmap Z proc) (table : list Z) : Prop :=
  NoDup table /\ Forall (tracked_child m) table.

(** The world an outcome leaves. *)
Definition world_of {A} (o : outcome A) : World :=
  match o with
  | Ret _ w | Exit _ w | Block w | Fault _ w => w
  end.

(** The status check of the reap pass: waitpid with WNOHANG. *)
Definition is_nohang_wait (e : event) : bool :=
  match e with
  | EWaitpid _ options _ => options =? WNOHANG
  | _ => false
  end.

(** What a reap pass may do: status checks and announcements. *)
Definition reap_event (e : event) : Prop :=
  match e with
  | EWaitpid _ options _ => options = WNOHANG
  | EPrint _ => True
  | _ => False
  end.

(** Whatever [m] does, it only adds events that satisfy [P] to the trace. *)
Definition adds (P : event -> Prop) {A} (m : M A) : Prop :=
  forall w, exists l, trace (world_of (m w)) = trace w ++ l /\ Forall P l.

(** How a child ends once it has been sent SIGTERM. *)
Definition ends_on_sigterm (p : proc) : option termination :=
  match p with
  | Zombie t => Some t
  | Running _ on_sigterm => on_sigterm
  end.

(** Draining the Job Table: each tracked pid is sent SIGTERM and then waited
    for with a blocking waitpid, in the order of the table. *)
Fixpoint drain_events (table : list Z) : list event :=
  match table with
  | [] => []
  | id :: table' =>
      EKill id SIGTERM :: EWaitpid id 0 id :: drain_events table'
  end.

(** Code that makes no system call and prints nothing. *)
Definition silent {A} (m : M A) : Prop := adds (fun _ => False) m.

(** A line of [n] spaces. *)
Fixpoint spaces (n : nat) : string :=
  match n with
  | O => EmptyString
  | S n' => String " " (spaces n')
  end.

(** Code that takes characters from standard input and leaves the rest of
    the world as it was. *)
Definition reads_only {A} (m : M A) : Prop :=
  forall w, exists s, world_of (m w) = set_stdin s w.

(** The pid that the next call of fork gives is not the pid of a child that
    has not been waited for, and a child that is reported as ended has ended
    in a way the kernel can report. *)
Definition next_fork_fresh (w : World) : Prop :=
  match forks w with
  | Some (pid, p) :: _ =>
      procs w !! Z.pos pid = None /\
      match p with
      | Zombie t => valid_termination t
      | Running _ _ => True
      end
  | _ => True
  end.

(** A line without a newline, a [$] or a NUL in it. *)
Fixpoint plain (s : string) : bool :=
  match s with
  | EmptyString => true
  | String c s' =>
      negb (Ascii.eqb c LF) && negb (Ascii.eqb c "$") && negb (Ascii.eqb c NUL)
      && plain s'
  end.

(** An empty line or a comment: the lines for which getInput returns NULL. *)
Definition nothing_to_run (s : string) : bool :=
  match s with
  | EmptyString => true
  | String c _ => Ascii.eqb c "#"
  end.

(** ** Sample inputs *)

Definition sleep_cmd : list argument := numbered 0 ["sleep"; "100"].

(** A child that runs until it is signalled: the interrupt signal ends it
    if it is left alone, SIGTERM if it is sent first. *)
Definition interrupted : proc :=
  Running (Some (Signaled 2 false)) (Some (Signaled 15 false)).

(** A child that ends by itself with exit code 0, or by SIGTERM. *)
Definition sleeper : proc :=
  Running (Some (Exited 0)) (Some (Signaled 15 false)).

(** A child that never ends by itself, and ends by SIGTERM. *)
Definition daemon : proc := Running None (Some (Signaled 15 false)).

(** A background command as separateInput builds it when Foreground-Only
    Mode is off. *)
Definition sleep_bg : list argument :=
  on_head (set_background true) sleep_cmd.

(** The shell has two children, 5 and 7: 5 has ended with exit code 0 and
    has not been waited for, 7 runs. *)
Definition two_children : World :=
  set_procs (<[5 := Zombie (Exited 0)]> (<[7 := daemon]> ∅)) world0.

(** The shell tracks child 5, which has ended with exit code 0 and has not
    been waited for; the next child forked is 7, which the interrupt signal
    will end. *)
Definition interrupt_world : World :=
  set_forks [Some (7%positive, interrupted)]
            (set_procs (<[5 := Zombie (Exited 0)]> ∅) world0).

(** A turn of main: children 5 and 7 are tracked, 5 has ended, the last
    foreground command was ended by signal 2, and the user types
    [status]. *)
Definition stale : indeterminate := mkIndeterminate xs 0 0.

Definition status_turn : World := set_stdin ("status" ++ nl) two_children.

Definition status_shell : shell := mkShell [5; 7] (mkEndStatus false 2).

(** * The rest of the shell *)

(** ** checkForegroundOnly *)

Definition checkForegroundOnly (lastTime : bool) : M bool := fun w =>
  if negb (Bool.eqb lastTime (backgroundOnly w)) then
    if negb lastTime then
      Ret true (log (EPrint ("Entering foreground-only mode (& is now ignored)"
                             ++ nl)) w)
    else Ret false (log (EPrint ("Exiting foreground-only mode" ++ nl)) w)
  else Ret lastTime w.

(** ** The child's side of fork

    What the branch [case 0] of otherProcess does runs in the new process.
    Its world is what that process can observe: what open, dup2 and execvp
    answer, and a trace of its own system calls. *)

Definition MAX_ARGUMENTS : nat := 512.
Definition SIGTSTP : Z := 20.
Definition O_RDONLY : Z := 0.
(** O_WRONLY | O_CREAT | O_TRUNC *)
Definition O_WRONLY_CREAT_TRUNC : Z := Z.lor 1 (Z.lor 64 512).

Inductive handler : Type := SIG_IGN | SIG_DFL.

Inductive child_event : Type :=
| CSigaction (sig : Z) (h : handler)          (* sigaction(sig, &action, NULL) *)
| COpen (path : string) (flags : Z) (mode : option Z) (ret : Z)
| CDup2 (oldfd newfd ret : Z)
| CPerror (msg : string)
| CExecvp (file : string) (argv : list string).

Record Child : Type := mkChild {
  open_result : string -> Z -> Z;      (* open(path, flags): a descriptor or -1 *)
  dup2_result : Z -> Z -> Z;           (* dup2(oldfd, newfd): newfd or -1 *)
  exec_fails : string -> bool;         (* whether execvp(file, ...) returns *)
  ctrace : list child_event            (* oldest first *)
}.

Definition clog (e : child_event) (c : Child) : Child :=
  mkChild (open_result c) (dup2_result c) (exec_fails c) (ctrace c ++ [e]).

Inductive child_outcome (A : Type) : Type :=
| CRet (a : A) (c : Child)             (* the function returns *)
| CExit (code : Z) (c : Child)         (* the child ends through exit(code) *)
| CExec (c : Child)                    (* execvp has replaced the program *)
| CFault (f : fault) (c : Child).      (* undefined behaviour *)
Arguments CRet {A} a c.
Arguments CExit {A} code c.
Arguments CExec {A} c.
Arguments CFault {A} f c.

Definition C (A : Type) : Type := Child -> child_outcome A.

Definition cret {A} (a : A) : C A := fun c => CRet a c.
Definition cbind {A B} (m : C A) (f : A -> C B) : C B :=
  fun c => match m c with
           | CRet a c' => f a c'
           | CExit code c' => CExit code c'
           | CExec c' => CExec c'
           | CFault e c' => CFault e c'
           end.

#[global] Instance C_ret : MRet C := @cret.
#[global] Instance C_bind : MBind C := fun A B f m => cbind m f.

Definition cexit {A} (code : Z) : C A := fun c => CExit code c.
Definition ccrash {A} (f : fault) : C A := fun c => CFault f c.
Definition perror (msg : string) : C unit := fun c => CRet tt (clog (CPerror msg) c).
Definition sigaction (sig : Z) (h : handler) : C unit :=
  fun c => CRet tt (clog (CSigaction sig h) c).
Definition open (path : string) (flags : Z) (mode : option Z) : C Z := fun c =>
  CRet (open_result c path flags)
       (clog (COpen path flags mode (open_result c path flags)) c).
Definition dup2 (oldfd newfd : Z) : C Z := fun c =>
  CRet (dup2_result c oldfd newfd)
       (clog (CDup2 oldfd newfd (dup2_result c oldfd newfd)) c).

(** ** setInput and setOutput *)

(** A pointer tested as a condition: [if (p)]. *)
Definition non_null {A} (p : option A) : bool :=
  match p with
  | Some _ => true
  | None => false
  end.

Definition setInput (head : list argument) : C unit :=
  match head with
  | [] => ccrash NullDeref
  | h :: _ =>
      if (non_null (redirInput h) || background h)%bool then
        sourceFD ← match redirInput h with
                   | Some file => open file O_RDONLY None
                   | None => open "/dev/null" O_RDONLY None
                   end;
        if sourceFD =? -1 then
          _ ← perror "Cannot open file to read"; cexit 1
        else
          result ← dup2 sourceFD 0;
          if result =? -1 then
            _ ← perror "Cannot redirect input to file"; cexit 1
          else mret tt
      else mret tt
  end.

Definition setOutput (head : list argument) : C unit :=
  match head with
  | [] => ccrash NullDeref
  | h :: _ =>
      if (non_null (redirOutput h) || background h)%bool then
        targetFD ← match redirOutput h with
                   | Some file => open file O_WRONLY_CREAT_TRUNC (Some 438)
                   | None => open "/dev/null" O_WRONLY_CREAT_TRUNC (Some 438)
                   end;
        if targetFD =? -1 then
          _ ← perror "Cannot open file to write"; cexit 1
        else
          result ← dup2 targetFD 1;
          if result =? -1 then
            _ ← perror "Cannot redirect input to file"; cexit 1
          else mret tt
      else mret tt
  end.

(** ** createProcessArguments

    [arguments] is the array [char *arguments[MAX_ARGUMENTS]]: an entry is a
    string or NULL.  A write at an index that is not in the array is a
    fault. *)
Fixpoint createProcessArguments_loop (arguments : list (option string))
    (i : nat) (current : list argument) : C (list (option string)) :=
  match current with
  | [] => mret arguments
  | a :: next =>
      if (i <? length arguments)%nat then
        createProcessArguments_loop (<[i := Some (text a)]> arguments) (S i) next
      else ccrash BufferOverflow
  end.

Definition createProcessArguments (arguments : list (option string))
    (head : list argument) : C (list (option string)) :=
  createProcessArguments_loop arguments 0 head.

(** The argument vector that execvp reads from the array: the entries before
    the first NULL.  [None]: the array holds no NULL, and execvp reads on
    behind it. *)
Fixpoint argv_of (arguments : list (option string)) : option (list string) :=
  match arguments with
  | [] => None
  | None :: _ => Some []
  | Some s :: rest =>
      match argv_of rest with
      | Some argv => Some (s :: argv)
      | None => None
      end
  end.

(** execvp(arguments[0], arguments): when it returns, it returns -1. *)
Definition execvp (arguments : list (option string)) : C Z :=
  match arguments with
  | Some file :: _ =>
      match argv_of arguments with
      | Some argv => fun c =>
          if exec_fails c file
          then CRet (-1) (clog (CExecvp file argv) c)
          else CExec (clog (CExecvp file argv) c)
      | None => ccrash BufferOverflow
      end
  | _ => ccrash NullDeref
  end.

(** ** The branch [case 0] of otherProcess

    [head] is the list as the two calls of redirectIO have left it. *)
Definition otherProcess_child (head : arglist) : C unit :=
  match head with
  | Dangling => ccrash UseAfterFree
  | Live [] => ccrash NullDeref
  | Live (h :: t) =>
      _ ← (if negb (background h) then
             _ ← sigaction SIGTSTP SIG_IGN; sigaction SIGINT SIG_DFL
           else mret tt);
      _ ← setInput (h :: t);
      _ ← setOutput (h :: t);
      arguments ← createProcessArguments (replicate MAX_ARGUMENTS None) (h :: t);
      _ ← execvp arguments;
      _ ← match arguments with
          | Some file :: _ => perror file
          | _ => ccrash NullDeref
          end;
      cexit 1
  end.

(** ** Specification-level definitions for the rest *)

(** Words joined by single spaces. *)
Fixpoint join (ws : list string) : string :=
  match ws with
  | [] => EmptyString
  | [word] => word
  | word :: ws' => word ++ String " " (join ws')
  end.

(** No space in [s]. *)
Fixpoint no_space (s : string) : bool :=
  match s with
  | EmptyString => true
  | String c s' => negb (Ascii.eqb c " ") && no_space s'
  end.

(** A word: one character or more, none of them a space. *)
Definition is_word (s : string) : bool :=
  match s with
  | EmptyString => false
  | _ => no_space s
  end.

(** A child for which every call succeeds: a file opened for reading gets
    descriptor 3, one opened for writing descriptor 4 (descriptor 3 is never
    closed). *)
Definition child0 : Child :=
  mkChild (fun _ flags => if flags =? O_RDONLY then 3 else 4)
          (fun _ newfd => newfd) (fun _ => false) [].

(** Code that does not end the process of the shell. *)
Definition no_exit {A} (m : M A) : Prop :=
  forall w code w', m w <> Exit code w'.

(** No signal is sent. *)
Definition not_kill (e : event) : Prop :=
  match e with
  | EKill _ _ => False
  | _ => True
  end.

(** How the child may end: if through exit, then with status 1 and right
    after a message of perror. *)
Definition exits_after_perror {A} (o : child_outcome A) : Prop :=
  match o with
  | CExit code c => code = 1 /\ exists msg, last (ctrace c) = Some (CPerror msg)
  | _ => True
  end.

(** The same, and the code does not return to its caller. *)
Definition leaves_the_shell {A} (o : child_outcome A) : Prop :=
  match o with
  | CRet _ _ => False
  | _ => exits_after_perror o
  end.

(** Code that leaves Foreground-Only Mode as it is, however it ends. *)
Definition keeps_mode {A} (m : M A) : Prop :=
  forall w, backgroundOnly (world_of (m w)) = backgroundOnly w.

(** What the handler of SIGTSTP writes when the mode before is [mode], and
    what [n] deliveries of the signal write, in order. *)
Definition mode_message (mode : bool) : string :=
  if mode then nl ++ "Exiting foreground-only mode" ++ nl ++ ": "
  else nl ++ "Entering foreground-only mode (& is now ignored)" ++ nl ++ ": ".

Fixpoint mode_messages (n : nat) (mode : bool) : list string :=
  match n with
  | O => []
  | S n' => mode_message mode :: mode_messages n' (negb mode)
  end.

(** * Properties *)

(** ** The monad *)

Lemma bind_Ret {A B} (m : M A) (f : A -> M B) w a w' :
  m w = Ret a w' -> (m ≫= f) w = f a w'.
Proof. intros H. unfold mbind, M_bind, bind. now rewrite H. Qed.

Lemma bind_Exit {A B} (m : M A) (f : A -> M B) w c w' :
  m w = Exit c w' -> (m ≫= f) w = Exit c w'.
Proof. intros H. unfold mbind, M_bind, bind. now rewrite H. Qed.

Lemma bind_Block {A B} (m : M A) (f : A -> M B) w w' :
  m w = Block w' -> (m ≫= f) w = Block w'.
Proof. intros H. unfold mbind, M_bind, bind. now rewrite H. Qed.

Lemma bind_Fault {A B} (m : M A) (f : A -> M B) w e w' :
  m w = Fault e w' -> (m ≫= f) w = Fault e w'.
Proof. intros H. unfold mbind, M_bind, bind. now rewrite H. Qed.

Lemma bind_emit {B} e (f : unit -> M B) w : (emit e ≫= f) w = f tt (log e w).
Proof. reflexivity. Qed.

Lemma bind_Ret_inv {A B} (m : M A) (f : A -> M B) w b w' :
  (m ≫= f) w = Ret b w' -> exists a w1, m w = Ret a w1 /\ f a w1 = Ret b w'.
Proof.
  unfold mbind, M_bind, bind.
  destruct (m w) as [a w1| | |]; try discriminate. intros H. now exists a, w1.
Qed.

(** ** Wait statuses *)

Lemma below_spec n f : below n f = true -> forall z, 0 <= z < Z.of_nat n -> f z = true.
Proof.
  unfold below. rewrite forallb_forall. intros H z Hz. apply H.
  apply in_map_iff. exists (Z.to_nat z). split; [lia|].
  apply in_seq. lia.
Qed.

Lemma WIFEXITED_Exited code : WIFEXITED (wstatus (Exited code)) = true.
Proof.
  unfold WIFEXITED, wstatus. apply Z.eqb_eq. apply Z.bits_inj'. intros n Hn.
  rewrite Z.land_spec, Z.bits_0.
  destruct (Z.ltb_spec n 8).
  - rewrite Z.shiftl_spec_low by lia. reflexivity.
  - replace 127 with (Z.ones 7) by reflexivity.
    rewrite Z.ones_spec_high by lia. apply andb_false_r.
Qed.

Lemma WEXITSTATUS_Exited code :
  0 <= code <= 255 -> WEXITSTATUS (wstatus (Exited code)) = code.
Proof.
  intros H. apply Z.eqb_eq.
  apply (below_spec 256 (fun c => WEXITSTATUS (wstatus (Exited c)) =? c)).
  - vm_compute. reflexivity.
  - lia.
Qed.

Lemma WTERMSIG_Signaled sig core :
  1 <= sig <= 64 -> WTERMSIG (wstatus (Signaled sig core)) = sig.
Proof.
  intros H. apply Z.eqb_eq.
  apply (below_spec 65 (fun s => WTERMSIG (wstatus (Signaled s core)) =? s)).
  - destruct core; vm_compute; reflexivity.
  - lia.
Qed.

Lemma WIFEXITED_Signaled sig core :
  1 <= sig <= 64 -> WIFEXITED (wstatus (Signaled sig core)) = false.
Proof.
  intros H. unfold WIFEXITED.
  change (Z.land (wstatus (Signaled sig core)) 127)
    with (WTERMSIG (wstatus (Signaled sig core))).
  rewrite WTERMSIG_Signaled by assumption. apply Z.eqb_neq. lia.
Qed.

(** ** The tokenizer *)

Lemma string_app_cons c (a b : string) :
  (String c a ++ b)%string = String c (a ++ b)%string.
Proof. reflexivity. Qed.

Lemma string_app_empty_r (s : string) : (s ++ EmptyString)%string = s.
Proof.
  induction s as [|c s IH]; [reflexivity|].
  rewrite string_app_cons. f_equal. exact IH.
Qed.

Lemma string_app_assoc (a b c : string) :
  ((a ++ b) ++ c)%string = (a ++ (b ++ c))%string.
Proof.
  induction a as [|x a IH]; [reflexivity|].
  rewrite !string_app_cons. f_equal. exact IH.
Qed.

Lemma string_app_nonempty (a : string) c :
  (a ++ String c EmptyString)%string <> EmptyString.
Proof. destruct a; discriminate. Qed.

(** A word in progress is closed by the token that strtok_r would cut. *)
Lemma line_words_from_token s : forall word tok rest,
  take_token s = (tok, rest) -> word <> EmptyString ->
  line_words_from word s = (word ++ tok)%string :: line_words rest.
Proof.
  induction s as [|c s IH]; intros word tok rest Htok Hword; simpl in *.
  - injection Htok as <- <-. rewrite string_app_empty_r.
    destruct word; [contradiction | reflexivity].
  - destruct (Ascii.eqb c " ").
    + injection Htok as <- <-. rewrite string_app_empty_r.
      destruct word; [contradiction | reflexivity].
    + destruct (take_token s) as [tok' rest'] eqn:E.
      injection Htok as <- <-.
      rewrite (IH _ tok' rest' eq_refl (string_app_nonempty word c)).
      now rewrite string_app_assoc.
Qed.

Lemma take_token_length s : forall tok rest,
  take_token s = (tok, rest) -> (String.length rest <= String.length s)%nat.
Proof.
  induction s as [|c s IH]; intros tok rest H; simpl in *.
  - injection H as <- <-. simpl. lia.
  - destruct (Ascii.eqb c " ").
    + injection H as <- <-. lia.
    + destruct (take_token s) as [tok' rest'].
      injection H as <- <-. specialize (IH _ _ eq_refl). lia.
Qed.

Lemma skip_delim_length s : (String.length (skip_delim s) <= String.length s)%nat.
Proof.
  induction s as [|c s IH]; simpl; [lia|].
  destruct (Ascii.eqb c " "); simpl; lia.
Qed.

Lemma line_words_skip_delim s : line_words (skip_delim s) = line_words s.
Proof.
  unfold line_words. induction s as [|c s IH]; simpl; [reflexivity|].
  destruct (Ascii.eqb c " ") eqn:E; [exact IH|].
  simpl. now rewrite E.
Qed.

Lemma skip_delim_head s c s' : skip_delim s = String c s' -> Ascii.eqb c " " = false.
Proof.
  induction s as [|x s IH]; simpl; [discriminate|].
  destruct (Ascii.eqb x " ") eqn:E; [exact IH|].
  intros H. injection H as <- <-. exact E.
Qed.

(** One call of strtok_r against the words of the line. *)
Lemma strtok_r_None s : strtok_r s = None -> line_words s = [].
Proof.
  unfold strtok_r. intros H. rewrite <- line_words_skip_delim.
  destruct (skip_delim s); [reflexivity | discriminate].
Qed.

Lemma strtok_r_Some s tok saveptr :
  strtok_r s = Some (tok, saveptr) ->
  line_words s = tok :: line_words saveptr /\
  (String.length saveptr < String.length s)%nat.
Proof.
  unfold strtok_r. intros H. rewrite <- line_words_skip_delim.
  pose proof (skip_delim_length s) as Hlen.
  destruct (skip_delim s) as [|c s'] eqn:E; [discriminate|].
  assert (H' : take_token (String c s') = (tok, saveptr)) by congruence.
  clear H. rename H' into H.
  pose proof (skip_delim_head _ _ _ E) as Hc.
  simpl in H. rewrite Hc in H.
  destruct (take_token s') as [tok' rest'] eqn:E'. injection H as <- <-.
  split.
  - unfold line_words at 1. simpl. rewrite Hc.
    now rewrite (line_words_from_token s' _ tok' rest' E').
  - pose proof (take_token_length _ _ _ E'). simpl in *. lia.
Qed.

(** The loop of separateInput appends one node per word of what is left of
    the line, and its fuel is enough. *)
Lemma separateInput_loop_words fuel : forall s head counter,
  (String.length s < fuel)%nat ->
  separateInput_loop fuel (strtok_r s) head counter
  = Some (head ++ numbered counter (line_words s))%list.
Proof.
  induction fuel as [|fuel IH]; intros s head counter Hfuel; [lia|].
  destruct (strtok_r s) as [[tok saveptr]|] eqn:E.
  - destruct (strtok_r_Some _ _ _ E) as [-> Hlen]. simpl.
    rewrite IH by lia. now rewrite <- app_assoc.
  - rewrite (strtok_r_None _ E). simpl. now rewrite app_nil_r.
Qed.

Lemma words_numbered ws : forall counter, words (numbered counter ws) = ws.
Proof.
  induction ws as [|t ws IH]; intros counter; simpl; [reflexivity|].
  f_equal. apply IH.
Qed.

Lemma numbered_app ws1 : forall counter ws2,
  numbered counter (ws1 ++ ws2)
  = (numbered counter ws1
       ++ numbered (counter + Z.of_nat (length ws1)) ws2)%list.
Proof.
  induction ws1 as [|t ws1 IH]; intros counter ws2; simpl.
  - now rewrite Z.add_0_r.
  - rewrite IH. do 3 f_equal. lia.
Qed.

(** separateInput in terms of the words of the line. *)
Lemma separateInput_words input w :
  separateInput input w
  = let head := numbered 0 (line_words input) in
    match last head with
    | None => Fault NullDeref w
    | Some tail =>
        if (text tail =? "&")%string then setBackground head w else Ret head w
    end.
Proof.
  unfold separateInput, separateInput_fuel.
  rewrite separateInput_loop_words by lia. simpl.
  destruct (last (numbered 0 (line_words input))) as [tail|]; [|reflexivity].
  destruct (text tail =? "&")%string; reflexivity.
Qed.

(** A line without a word has no tail to look at. *)
Lemma separateInput_no_word input w :
  line_words input = [] -> separateInput input w = Fault NullDeref w.
Proof. intros H. rewrite separateInput_words, H. reflexivity. Qed.

Lemma line_words_spaces n : line_words (spaces n) = [].
Proof. unfold line_words. induction n as [|n IH]; [reflexivity | exact IH]. Qed.

(** Every line made of spaces only runs into the NULL tail. *)
Lemma separateInput_spaces n w : separateInput (spaces n) w = Fault NullDeref w.
Proof. apply separateInput_no_word, line_words_spaces. Qed.

(** When separateInput returns, the list has a first node. *)
Lemma separateInput_nonempty input w head w' :
  separateInput input w = Ret head w' -> head <> [].
Proof.
  rewrite separateInput_words. cbn zeta.
  destruct (numbered 0 (line_words input)) as [|a l] eqn:E; [discriminate|].
  destruct (last (a :: l)) as [tail|]; [|discriminate].
  destruct (text tail =? "&")%string.
  - unfold setBackground. destruct l; intros H; injection H as <- _; discriminate.
  - intros H. injection H as <- _. discriminate.
Qed.

(** C5, as amended.  For every input line whose last word is exactly [&],
    the descriptor's [background] is true when Foreground-Only Mode is off
    and false when it is on; separateInput returns the words of the line
    without that last [&] when a word stands before it, and keeps [&] as the
    only word of the command when the line has no other word. *)
Theorem C5_trailing_ampersand_removed (input : string) (ws : list string) (w : World) :
  line_words input = (ws ++ ["&"])%list ->
  exists h t,
    separateInput input w = Ret (h :: t) w /\
    words (h :: t) = match ws with
                     | [] => ["&"]
                     | _ :: _ => ws
                     end /\
    background h = negb (backgroundOnly w).
Proof.
  intros Hline. rewrite separateInput_words, Hline.
  destruct ws as [|w1 ws].
  { exists (if backgroundOnly w
            then set_position 0 (makeArgument "&")
            else set_background true (set_position 0 (makeArgument "&"))), [].
    simpl. destruct (backgroundOnly w); repeat split; reflexivity. }
  cbn zeta. simpl numbered.
  rewrite numbered_app. simpl numbered at 2.
  rewrite app_comm_cons, last_snoc. simpl text.
  destruct (numbered (0 + 1) ws) as [|a l] eqn:E.
  - exists (if backgroundOnly w
            then set_position 0 (makeArgument w1)
            else set_background true (set_position 0 (makeArgument w1))), [].
    destruct ws; [|discriminate]. simpl.
    destruct (backgroundOnly w); repeat split; reflexivity.
  - exists (if backgroundOnly w
            then set_position 0 (makeArgument w1)
            else set_background true (set_position 0 (makeArgument w1))),
           (a :: l).
    assert (Hrm : removelast ((a :: l) ++
                    [set_position (0 + 1 + Z.of_nat (length ws)) (makeArgument "&")])
                  = a :: l) by apply removelast_last.
    simpl app in *. unfold setBackground. rewrite Hrm.
    split; [reflexivity|]. split.
    + unfold words. rewrite map_cons. f_equal.
      * destruct (backgroundOnly w); reflexivity.
      * rewrite <- E. apply words_numbered.
    + destruct (backgroundOnly w); reflexivity.
Qed.

Lemma C5_trailing_ampersand_removed_witness :
  (exists h t,
     separateInput "sleep 5 &" (set_backgroundOnly true world0)
     = Ret (h :: t) (set_backgroundOnly true world0) /\
     words (h :: t) = ["sleep"; "5"] /\
     background h = negb (backgroundOnly (set_backgroundOnly true world0))) /\
  (exists h t,
     separateInput "&" world0 = Ret (h :: t) world0 /\
     words (h :: t) = ["&"] /\
     background h = negb (backgroundOnly world0)).
Proof.
  split.
  - apply (C5_trailing_ampersand_removed "sleep 5 &" ["sleep"; "5"]
             (set_backgroundOnly true world0)). reflexivity.
  - apply (C5_trailing_ampersand_removed "&" [] world0). reflexivity.
Defined.

(** C5, as stated, fails on the line [&]: its last word is [&], and the word
    is still there in the descriptor. *)
Lemma C5_lone_ampersand_kept :
  line_words "&" = ["&"] /\
  exists head,
    separateInput "&" world0 = Ret head world0 /\ words head = ["&"].
Proof.
  split; [reflexivity|].
  eexists. split; reflexivity.
Qed.

(** ** Reading a line *)

(** The fuel of the loops is never used up: the loop of getInput moves
    its index forward at every turn and stops at the end of the array. *)
Lemma store_cases input i c w :
  (store input i c w = Fault BufferOverflow w) \/
  (exists input', store input i c w = Ret input' w /\ (i < LINE_LENGTH)%nat).
Proof.
  unfold store. destruct (Nat.ltb_spec i LINE_LENGTH); [right | now left].
  eexists. split; [reflexivity | assumption].
Qed.

Lemma load_cases input i w :
  (load input i w = Fault BufferOverflow w) \/
  (load input i w = Ret (input i) w /\ (i < LINE_LENGTH)%nat).
Proof.
  unfold load. destruct (Nat.ltb_spec i LINE_LENGTH); [right | now left].
  now split.
Qed.

Lemma sprintf_cases s : forall input i w,
  (sprintf input i s w = Fault BufferOverflow w) \/
  (exists input', sprintf input i s w = Ret input' w).
Proof.
  induction s as [|c s IH]; intros input i w; simpl.
  - destruct (store_cases input i NUL w) as [H|(b & H & _)]; [now left|].
    right. now exists b.
  - destruct (store_cases input i c w) as [H|(b & H & _)].
    + left. now rewrite (bind_Fault _ _ _ _ _ H).
    + rewrite (bind_Ret _ _ _ _ _ H). apply IH.
Qed.

Lemma dec_length n : (1 <= String.length (dec n))%nat.
Proof.
  unfold dec. destruct (Z.to_int n) as [d|d]; [destruct d|]; simpl; lia.
Qed.

Lemma getchar_Ret w : exists c w1, getchar w = Ret c w1.
Proof. unfold getchar. destruct (stdin w); eexists _, _; reflexivity. Qed.

Lemma check_dollars_cases input i processID w :
  (exists w', check_dollars input i processID w = Fault BufferOverflow w') \/
  (exists input' i' w',
     check_dollars input i processID w = Ret (input', i') w' /\ (i < i')%nat).
Proof.
  unfold check_dollars. destruct (getchar_Ret w) as (c & w1 & Hc).
  rewrite (bind_Ret _ _ _ _ _ Hc). destruct (Ascii.eqb c "$").
  - destruct (sprintf_cases (dec processID) input i w1) as [H|(b & H)].
    + left. exists w1. now rewrite (bind_Fault _ _ _ _ _ H).
    + right. rewrite (bind_Ret _ _ _ _ _ H). eexists _, _, _.
      split; [reflexivity|]. pose proof (dec_length processID). lia.
  - destruct (store_cases input i "$"%char w1) as [H|(b & H & _)].
    + left. exists w1. now rewrite (bind_Fault _ _ _ _ _ H).
    + rewrite (bind_Ret _ _ _ _ _ H). destruct (Ascii.eqb c LF).
      * destruct (store_cases b (S i) NUL w1) as [H'|(b' & H' & _)].
        -- left. exists w1. now rewrite (bind_Fault _ _ _ _ _ H').
        -- right. rewrite (bind_Ret _ _ _ _ _ H'). eexists _, _, _.
           split; [reflexivity | lia].
      * destruct (store_cases b (S i) c w1) as [H'|(b' & H' & _)].
        -- left. exists w1. now rewrite (bind_Fault _ _ _ _ _ H').
        -- right. rewrite (bind_Ret _ _ _ _ _ H'). eexists _, _, _.
           split; [reflexivity | lia].
Qed.

Lemma getInput_loop_fuel fuel processID : forall input i w w',
  (LINE_LENGTH < fuel + i)%nat -> (i <= LINE_LENGTH)%nat ->
  getInput_loop fuel processID input i w <> Fault OutOfFuel w'.
Proof.
  induction fuel as [|fuel IH]; intros input i w w' Hfuel Hi; [lia|].
  simpl. destruct (getchar_Ret w) as (c & w1 & Hc).
  rewrite (bind_Ret _ _ _ _ _ Hc).
  destruct (Ascii.eqb c LF); [discriminate|].
  destruct (Ascii.eqb c "$").
  - destruct (check_dollars_cases input i processID w1)
      as [(w2 & H)|(b & i' & w2 & H & Hlt)].
    + rewrite (bind_Fault _ _ _ _ _ H). discriminate.
    + rewrite (bind_Ret _ _ _ _ _ H). cbn beta iota.
      destruct (load_cases b i' w2) as [H'|[H' Hi']].
      * rewrite (bind_Fault _ _ _ _ _ H'). discriminate.
      * rewrite (bind_Ret _ _ _ _ _ H').
        destruct (Ascii.eqb (b i') NUL); [discriminate|].
        apply IH; lia.
  - destruct (store_cases input i c w1) as [H|(b & H & Hlt)].
    + rewrite (bind_Fault _ _ _ _ _ H). discriminate.
    + rewrite (bind_Ret _ _ _ _ _ H). apply IH; lia.
Qed.

Lemma getInput_fuel processID input w w' :
  getInput processID input w <> Fault OutOfFuel w'.
Proof.
  unfold getInput, printf. rewrite bind_emit.
  pose proof (getInput_loop_fuel (S LINE_LENGTH) processID input 0
                (log (EPrint ": ") w) w') as Hloop.
  unfold mbind at 1, M_bind, bind at 1.
  destruct (getInput_loop (S LINE_LENGTH) processID input 0 (log (EPrint ": ") w))
    as [[b i] w1|c w1|w1|e w1]; try discriminate.
  - cbn beta iota. destruct (store_cases b i NUL w1) as [H|(b' & H & _)].
    + rewrite (bind_Fault _ _ _ _ _ H). discriminate.
    + rewrite (bind_Ret _ _ _ _ _ H).
      destruct ((i =? 0)%nat || Ascii.eqb (b' 0%nat) "#")%bool; [discriminate|].
      rewrite separateInput_words. cbn zeta.
      destruct (last (numbered 0 (line_words (cstring b' 0 LINE_LENGTH))))
        as [tail|]; [|discriminate].
      destruct (text tail =? "&")%string; [|discriminate].
      unfold setBackground.
      destruct (numbered 0 (line_words (cstring b' 0 LINE_LENGTH))) as [|a [|x l]];
        discriminate.
  - intros H. injection H as -> ->. apply (Hloop ltac:(unfold LINE_LENGTH; lia)
                                              ltac:(lia) eq_refl).
Qed.

(** A line without [$], shorter than the array, is read whole and handed to
    separateInput as it is, unless it is empty or a comment. *)
Lemma getInput_loop_plain s : forall fuel processID input i w rest,
  plain s = true ->
  (i + String.length s < LINE_LENGTH)%nat ->
  (String.length s < fuel)%nat ->
  stdin w = (s ++ nl ++ rest)%string ->
  exists input',
    getInput_loop fuel processID input i w
    = Ret (input', (i + String.length s)%nat) (set_stdin rest w) /\
    (forall j, (j < i)%nat -> input' j = input j) /\
    (forall j c, String.get j s = Some c -> input' (i + j)%nat = c).
Proof.
  induction s as [|c s IH]; intros fuel processID input i w rest Hplain Hlen Hfuel Hin;
    (destruct fuel as [|fuel]; [simpl in Hfuel; lia|]).
  - exists input. simpl getInput_loop.
    unfold getchar, mbind, M_bind, bind. rewrite Hin. simpl.
    rewrite Nat.add_0_r. repeat split. intros j c H. discriminate.
  - simpl in Hplain.
    apply andb_prop in Hplain as [Hplain Hs].
    apply andb_prop in Hplain as [Hplain Hnul].
    apply andb_prop in Hplain as [Hlf Hdollar].
    apply negb_true_iff in Hlf, Hdollar.
    simpl in Hlen, Hfuel.
    destruct (IH fuel processID (fun j => if (j =? i)%nat then c else input j)
                (S i) (set_stdin (s ++ nl ++ rest) w) rest Hs
                ltac:(lia) ltac:(lia) eq_refl)
      as (input' & Hrun & Hbelow & Hget).
    exists input'. split; [|split].
    + simpl getInput_loop. unfold getchar, mbind at 1, M_bind, bind at 1.
      rewrite Hin. rewrite string_app_cons. rewrite Hlf, Hdollar.
      unfold store. assert (Hi : (i <? LINE_LENGTH)%nat = true)
        by (apply Nat.ltb_lt; lia).
      rewrite Hi. unfold mbind, M_bind, bind, mret, M_ret, ret.
      rewrite Hrun. simpl String.length. now rewrite Nat.add_succ_r.
    + intros j Hj. rewrite Hbelow by lia.
      destruct (Nat.eqb_spec j i); [lia | reflexivity].
    + intros [|j] x Hx; simpl in Hx.
      * injection Hx as <-. rewrite Nat.add_0_r, Hbelow by lia.
        now rewrite Nat.eqb_refl.
      * rewrite Nat.add_succ_r. apply (Hget j x Hx).
Qed.

Lemma cstring_read s : forall input i n,
  plain s = true ->
  (forall j c, String.get j s = Some c -> input (i + j)%nat = c) ->
  input (i + String.length s)%nat = NUL ->
  (String.length s < n)%nat ->
  cstring input i n = s.
Proof.
  induction s as [|c s IH]; intros input i n Hplain Hget Hnul Hn;
    (destruct n as [|n]; [simpl in Hn; lia|]); simpl.
  - simpl in Hnul. rewrite Nat.add_0_r in Hnul. now rewrite Hnul.
  - simpl in Hplain.
    apply andb_prop in Hplain as [Hplain Hs].
    apply andb_prop in Hplain as [_ Hc]. apply negb_true_iff in Hc.
    pose proof (Hget 0%nat c eq_refl) as H0. rewrite Nat.add_0_r in H0.
    rewrite H0, Hc. f_equal. apply IH.
    + exact Hs.
    + intros j x Hx. rewrite Nat.add_succ_l, <- Nat.add_succ_r.
      now apply (Hget (S j) x).
    + simpl in Hnul. now rewrite Nat.add_succ_l, <- Nat.add_succ_r.
    + simpl in Hn. lia.
Qed.

Lemma getInput_plain processID input s rest w :
  plain s = true -> (String.length s < LINE_LENGTH)%nat ->
  getInput processID input (set_stdin (s ++ nl ++ rest) w)
  = (if nothing_to_run s then mret [] else separateInput s)
      (log (EPrint ": ") (set_stdin rest w)).
Proof.
  intros Hplain Hlen. unfold getInput, printf. rewrite bind_emit.
  destruct (getInput_loop_plain s (S LINE_LENGTH) processID input 0
              (log (EPrint ": ") (set_stdin (s ++ nl ++ rest) w)) rest
              Hplain ltac:(simpl; lia) ltac:(lia) eq_refl)
    as (input' & Hrun & _ & Hget).
  rewrite (bind_Ret _ _ _ _ _ Hrun). cbn beta iota. simpl Nat.add.
  unfold store at 1. assert (Hi : (String.length s <? LINE_LENGTH)%nat = true)
    by now apply Nat.ltb_lt.
  rewrite Hi. unfold mbind at 1, M_bind, bind at 1, mret at 1, M_ret, ret at 1.
  cbn beta iota.
  change (set_stdin rest (log (EPrint ": ") (set_stdin (s ++ nl ++ rest) w)))
    with (log (EPrint ": ") (set_stdin rest w)).
  destruct s as [|c s]; [reflexivity|].
  pose proof (Hget 0%nat c eq_refl) as H0. simpl in H0.
  change (String.length (String c s)) with (S (String.length s)) in *.
  change (S (String.length s) =? 0)%nat with false.
  change (0 =? S (String.length s))%nat with false. cbn iota.
  rewrite H0. unfold nothing_to_run.
  destruct (Ascii.eqb c "#"); cbn [orb]; [reflexivity|].
  f_equal. apply cstring_read.
  - exact Hplain.
  - intros j x Hx. simpl Nat.add.
    destruct (Nat.eqb_spec j (S (String.length s))) as [->|Hne].
    + exfalso. clear -Hx. simpl in Hx.
      assert (H : forall (t : string) n, String.get (String.length t + n) t = None).
      { induction t as [|a t IHt]; intros n; [reflexivity | exact (IHt n)]. }
      rewrite <- (Nat.add_0_r (String.length s)) in Hx. now rewrite H in Hx.
    + now apply (Hget j x).
  - simpl. now rewrite Nat.eqb_refl.
  - unfold LINE_LENGTH in *. simpl String.length. lia.
Qed.

(** Every line of one space or more, shorter than the array, ends in the
    read of [tail->text] with [tail] NULL. *)
Lemma plain_spaces n : plain (spaces n) = true.
Proof. induction n as [|n IH]; [reflexivity | exact IH]. Qed.

Lemma length_spaces n : String.length (spaces n) = n.
Proof. induction n as [|n IH]; [reflexivity | simpl; now rewrite IH]. Qed.

Lemma getInput_spaces processID input n rest w :
  (0 < n < LINE_LENGTH)%nat ->
  getInput processID input (set_stdin (spaces n ++ nl ++ rest) w)
  = Fault NullDeref (log (EPrint ": ") (set_stdin rest w)).
Proof.
  intros Hn. rewrite getInput_plain.
  - destruct n as [|n]; [lia|]. simpl nothing_to_run.
    change (Ascii.eqb " " "#") with false. cbn iota.
    apply (separateInput_spaces (S n)).
  - apply plain_spaces.
  - rewrite length_spaces. lia.
Qed.

(** C6, at the failing input.  With the shell's pid 4821 and the line
    [echo $$ end] on standard input, getInput stops reading right after the
    first [$$]: sprintf ends the pid with a NUL at the new index, which the
    loop takes for the end of the line.  The descriptor has the words
    [echo] and [4821] only, and [ end] is left on standard input, whatever
    the array held before and whatever follows the line. *)
Theorem C6_line_cut_after_pid (input : buffer) (rest : string) (w : World) :
  getInput 4821 input (set_stdin ("echo $$ end" ++ nl ++ rest) w)
  = Ret [set_position 0 (makeArgument "echo");
         set_position 1 (makeArgument "4821")]
        (log (EPrint ": ") (set_stdin (" end" ++ nl ++ rest) w)).
Proof. vm_compute. reflexivity. Qed.

(** What the cut leaves on standard input is read as the next command. *)
Example rest_of_line_is_next_command (input : buffer) (w : World) :
  getInput 4821 input (set_stdin (" end" ++ nl) w)
  = Ret [set_position 0 (makeArgument "end")]
        (log (EPrint ": ") (set_stdin "" w)).
Proof. vm_compute. reflexivity. Qed.

(** A [$] that no [$] follows is kept as it is.  After it and the character
    behind it, the loop reads [input[i]], which nothing has written yet: the
    line goes on if that byte is not NUL and is cut there if it is. *)
Example lone_dollar_kept (w : World) :
  getInput 4821 xs (set_stdin ("echo a$b c" ++ nl) w)
  = Ret [set_position 0 (makeArgument "echo");
         set_position 1 (makeArgument "a$b");
         set_position 2 (makeArgument "c")]
        (log (EPrint ": ") (set_stdin "" w)).
Proof. vm_compute. reflexivity. Qed.

Example lone_dollar_stale_NUL (w : World) :
  getInput 4821 zeros (set_stdin ("echo a$b c" ++ nl) w)
  = Ret [set_position 0 (makeArgument "echo");
         set_position 1 (makeArgument "a$b")]
        (log (EPrint ": ") (set_stdin (" c" ++ nl) w)).
Proof. vm_compute. reflexivity. Qed.

(** C9, at the failing input.  A line of spaces is neither empty nor a
    comment, so getInput passes it to separateInput, where strtok_r finds no
    token, [tail] is still NULL and [tail->text] is read. *)
Theorem C9_line_of_spaces_null_tail (processID : Z) (input : buffer)
    (rest : string) (w : World) :
  getInput processID input (set_stdin ("   " ++ nl ++ rest) w)
  = Fault NullDeref (log (EPrint ": ") (set_stdin rest w)).
Proof. vm_compute. reflexivity. Qed.

(** ** Redirections *)

Lemma last_two_app pre previous current :
  last_two (pre ++ [previous; current]) = Some (pre, previous, current).
Proof.
  induction pre as [|a pre IH]; [reflexivity|].
  destruct pre as [|b pre]; [reflexivity|].
  remember (b :: pre) as l eqn:El. simpl app.
  assert (Hstep : last_two (a :: l ++ [previous; current])
                  = match last_two (l ++ [previous; current]) with
                    | Some (p, x, y) => Some (a :: p, x, y)
                    | None => None
                    end).
  { subst l. simpl app. destruct (pre ++ [previous; current]) eqn:E.
    - destruct pre; discriminate.
    - reflexivity. }
  rewrite Hstep, IH. reflexivity.
Qed.

(** redirectIO on a list of two nodes or more. *)
Lemma redirectIO_last_two l pre previous current w :
  last_two l = Some (pre, previous, current) ->
  redirectIO (Live l) w
  = ((if (text previous =? ">")%string then
       match pre with
       | [] => mret (true, Live (on_head (set_redirOutput (text current)) l))
       | _ :: _ => mret (true, Live (on_head (set_redirOutput (text current)) pre))
       end
     else if (text previous =? "<")%string then
       match pre with
       | [] => mret (true, Dangling)
       | _ :: _ => mret (true, Live (on_head (set_redirInput (text current)) pre))
       end
     else mret (false, Live l)) : M (bool * arglist)) w.
Proof.
  intros H. destruct l as [|a [|b l]]; try discriminate.
  unfold redirectIO. now rewrite H.
Qed.

(** redirectIO when the word before the last is [>], [<], or neither. *)
Lemma redirectIO_output h t previous current w :
  text previous = ">" ->
  redirectIO (Live (h :: t ++ [previous; current])) w
  = Ret (true, Live (set_redirOutput (text current) h :: t)) w.
Proof.
  intros Hp.
  pose proof (last_two_app (h :: t) previous current) as H. simpl app in H.
  rewrite (redirectIO_last_two _ _ _ _ w H). now rewrite Hp.
Qed.

Lemma redirectIO_input h t previous current w :
  text previous = "<" ->
  redirectIO (Live (h :: t ++ [previous; current])) w
  = Ret (true, Live (set_redirInput (text current) h :: t)) w.
Proof.
  intros Hp.
  pose proof (last_two_app (h :: t) previous current) as H. simpl app in H.
  rewrite (redirectIO_last_two _ _ _ _ w H). now rewrite Hp.
Qed.

Lemma redirectIO_none pre previous current w :
  text previous <> ">" -> text previous <> "<" ->
  redirectIO (Live (pre ++ [previous; current])) w
  = Ret (false, Live (pre ++ [previous; current])) w.
Proof.
  intros Hgt Hlt.
  rewrite (redirectIO_last_two _ _ _ _ w (last_two_app pre previous current)).
  apply String.eqb_neq in Hgt, Hlt. now rewrite Hgt, Hlt.
Qed.



(** The redirection step never frees the first node of a command whose
    first word is not [<], and leaves its text and [background] alone. *)
Lemma last_two_Some a b l :
  exists pre previous current,
    last_two (a :: b :: l) = Some (pre, previous, current) /\
    a :: b :: l = pre ++ [previous; current].
Proof.
  revert a b. induction l as [|c l IH]; intros a b.
  - exists [], a, b. split; reflexivity.
  - destruct (IH b c) as (pre & p & x & H & E).
    exists (a :: pre), p, x. split.
    + change (last_two (a :: b :: c :: l))
        with (match last_two (b :: c :: l) with
              | Some (p, x, y) => Some (a :: p, x, y)
              | None => None
              end).
      now rewrite H.
    + simpl. now rewrite E.
Qed.

Lemma redirectIO_keeps_head h t w :
  text h <> "<" ->
  exists found h' t',
    redirectIO (Live (h :: t)) w = Ret (found, Live (h' :: t')) w /\
    text h' = text h /\ background h' = background h.
Proof.
  intros Hh. destruct t as [|b l].
  - exists false, h, []. repeat split.
  - destruct (last_two_Some h b l) as (pre & p & c & H & E).
    rewrite (redirectIO_last_two _ _ _ _ w H).
    destruct (text p =? ">")%string eqn:Egt.
    + destruct pre as [|x pre].
      * exists true, (set_redirOutput (text c) h), (b :: l). repeat split.
      * injection E as <- E. exists true, (set_redirOutput (text c) h), pre.
        repeat split.
    + destruct (text p =? "<")%string eqn:Elt.
      * destruct pre as [|x pre].
        -- injection E as <- _ _. apply String.eqb_eq in Elt. contradiction.
        -- injection E as <- E. exists true, (set_redirInput (text c) h), pre.
           repeat split.
      * exists false, h, (b :: l). repeat split.
Qed.

Lemma otherProcess_redirect_keeps_head h t w :
  text h <> "<" ->
  exists h' t',
    otherProcess_redirect (h :: t) w = Ret (Live (h' :: t')) w /\
    text h' = text h /\ background h' = background h.
Proof.
  intros Hh. unfold otherProcess_redirect.
  destruct (redirectIO_keeps_head h t w Hh) as (found & h1 & t1 & H1 & Ht1 & Hb1).
  rewrite (bind_Ret _ _ _ _ _ H1). destruct found.
  - assert (Hh1 : text h1 <> "<") by now rewrite Ht1.
    destruct (redirectIO_keeps_head h1 t1 w Hh1) as (f2 & h2 & t2 & H2 & Ht2 & Hb2).
    rewrite (bind_Ret _ _ _ _ _ H2). exists h2, t2.
    repeat split; congruence.
  - exists h1, t1. repeat split; assumption.
Qed.

(** ** System calls *)

Lemma fork_child w pid p rest :
  forks w = Some (pid, p) :: rest ->
  fork w = Ret (Z.pos pid)
             (log (EFork (Z.pos pid))
                  (set_procs (<[Z.pos pid := p]> (procs w)) (set_forks rest w))).
Proof. intros H. unfold fork. now rewrite H. Qed.

(** A blocking wait for a child returns once the child has ended, and
    never if it does not end. *)
Lemma waitpid_blocking_ended w id p t childStatus :
  procs w !! id = Some p -> ending p = Some t ->
  waitpid id childStatus 0 w
  = Ret (id, wstatus t)
        (log (EWaitpid id 0 id) (set_procs (delete id (procs w)) w)).
Proof.
  intros Hp He. unfold waitpid. rewrite Hp.
  destruct p as [fate ?|t']; simpl in He.
  - subst fate. reflexivity.
  - injection He as ->. reflexivity.
Qed.

Lemma waitpid_blocking_never w id p childStatus :
  procs w !! id = Some p -> ending p = None ->
  waitpid id childStatus 0 w = Block w.
Proof.
  intros Hp He. unfold waitpid. rewrite Hp.
  destruct p as [fate ?|t']; simpl in He; [|discriminate].
  subst fate. reflexivity.
Qed.

Lemma output_app tr1 tr2 : output (tr1 ++ tr2) = (output tr1 ++ output tr2)%string.
Proof.
  induction tr1 as [|e tr1 IH]; [reflexivity|].
  destruct e; simpl; try exact IH.
  rewrite IH. now rewrite string_app_assoc.
Qed.

(** What [status] prints for the record of a termination. *)
Lemma builtIn_status cmd args children t w :
  text cmd = "status" ->
  exists w',
    builtIn (cmd :: args) children (last_status t) w = Ret true w' /\
    output (trace w') = (output (trace w) ++ status_line t)%string.
Proof.
  intros Hcmd. unfold builtIn. rewrite Hcmd. simpl.
  destruct t as [code|sig core]; (eexists; split; [reflexivity|]); simpl;
    rewrite <- app_assoc, output_app; simpl; now rewrite string_app_empty_r.
Qed.

(** ** Foreground dispatch *)

Lemma removeChildProc_last head id :
  ~ In id head -> removeChildProc (createChildProc head id) id = head.
Proof.
  unfold createChildProc. induction head as [|c head IH]; intros Hin; simpl.
  - now rewrite Z.eqb_refl.
  - destruct (Z.eqb_spec c id) as [->|Hne].
    + exfalso. apply Hin. now left.
    + f_equal. apply IH. intros H. apply Hin. now right.
Qed.

(** The shell's side of a foreground dispatch, up to the return of
    waitpid. *)
Lemma otherProcess_foreground h t children es cs w pid p rest :
  text h <> "<" -> background h = false ->
  forks w = Some (pid, p) :: rest ->
  let w1 := log (EFork (Z.pos pid))
                (set_procs (<[Z.pos pid := p]> (procs w)) (set_forks rest w)) in
  otherProcess (h :: t) children es cs w
  = match ending p with
    | None => Block w1
    | Some term =>
        let w2 := log (EWaitpid (Z.pos pid) 0 (Z.pos pid))
                      (set_procs (delete (Z.pos pid) (procs w1)) w1) in
        let table := removeChildProc (createChildProc children (Z.pos pid))
                                     (Z.pos pid) in
        if WIFEXITED (wstatus term) then
          Ret (table, mkEndStatus true (WEXITSTATUS (wstatus term))) w2
        else if WTERMSIG (wstatus term) =? 2 then
          Ret (table, mkEndStatus false (WTERMSIG (wstatus term)))
              (log (EPrint ("terminated by signal "
                            ++ dec (WTERMSIG (wstatus term)) ++ nl)) w2)
        else Ret (table, mkEndStatus false (WTERMSIG (wstatus term))) w2
    end.
Proof.
  intros Hh Hbg Hfork w1. unfold otherProcess.
  destruct (otherProcess_redirect_keeps_head h t w Hh) as (h' & t' & Hr & _ & Hb).
  rewrite (bind_Ret _ _ _ _ _ Hr).
  rewrite (bind_Ret _ _ _ _ _ (fork_child _ _ _ _ Hfork)).
  fold w1. cbn beta iota. change (Z.pos pid =? -1) with false.
  change (Z.pos pid =? 0) with false. cbn iota. rewrite Hb, Hbg. cbn [negb].
  assert (Hp : procs w1 !! Z.pos pid = Some p) by apply lookup_insert_eq.
  destruct (ending p) as [term|] eqn:E.
  - rewrite (bind_Ret _ _ _ _ _ (waitpid_blocking_ended _ _ _ _ cs Hp E)).
    cbn beta iota zeta.
    destruct (WIFEXITED (wstatus term)); [reflexivity|].
    destruct (WTERMSIG (wstatus term) =? 2); reflexivity.
  - now rewrite (bind_Block _ _ _ _ (waitpid_blocking_never _ _ _ cs Hp E)).
Qed.

(** Foreground dispatch of a command whose first word is not [<], so that
    redirectIO leaves the first node in place.  The shell forks, then waits for that child with a blocking waitpid: if the
    child never ends, otherProcess never returns; once it has ended,
    otherProcess returns with the Last Status Record set to Exited with the
    exit code or to Signaled with the signal number, it has printed the
    notice [terminated by signal 2] exactly when the signal is the interrupt
    signal, and a following [status] prints the line of that termination
    ([terminated by signal 2] for the interrupt signal). *)
Lemma foreground_wait_sets_status (h : argument) (t : list argument)
    (children : list Z) (es : endStatus) (cs : Z) (w : World)
    (pid : positive) (p : proc) (rest : list (option (positive * proc)))
    (status_cmd : argument) :
  text h <> "<" -> background h = false ->
  forks w = Some (pid, p) :: rest ->
  text status_cmd = "status" ->
  match ending p with
  | None =>
      exists w',
        otherProcess (h :: t) children es cs w = Block w' /\
        trace w' = trace w ++ [EFork (Z.pos pid)]
  | Some term =>
      valid_termination term ->
      exists children' w',
        otherProcess (h :: t) children es cs w
        = Ret (children', last_status term) w' /\
        trace w' = trace w ++ [EFork (Z.pos pid);
                               EWaitpid (Z.pos pid) 0 (Z.pos pid)]
                           ++ interrupt_notice term /\
        procs w' !! Z.pos pid = None /\
        forall w2, exists w3,
          builtIn [status_cmd] children' (last_status term) w2 = Ret true w3 /\
          output (trace w3) = (output (trace w2) ++ status_line term)%string
  end.
Proof.
  intros Hh Hbg Hfork Hcmd.
  rewrite (otherProcess_foreground h t children es cs w pid p rest Hh Hbg Hfork).
  destruct (ending p) as [term|]; [|eexists; split; reflexivity].
  intros Hvalid. destruct term as [code|sig core]; simpl in Hvalid.
  - rewrite WIFEXITED_Exited, (WEXITSTATUS_Exited _ Hvalid). cbn zeta.
    eexists _, _. split; [reflexivity|]. split; [|split].
    + simpl. now rewrite <- !app_assoc.
    + simpl. apply lookup_delete_eq.
    + intros w2. now apply builtIn_status.
  - rewrite (WIFEXITED_Signaled _ _ Hvalid), (WTERMSIG_Signaled _ _ Hvalid).
    cbn zeta. unfold interrupt_notice, SIGINT.
    destruct (Z.eqb_spec sig 2) as [->|Hne].
    + eexists _, _. split; [reflexivity|]. split; [|split].
      * simpl. now rewrite <- !app_assoc.
      * simpl. apply lookup_delete_eq.
      * intros w2. now apply builtIn_status.
    + eexists _, _. split; [reflexivity|]. split; [|split].
      * simpl. now rewrite <- !app_assoc.
      * simpl. apply lookup_delete_eq.
      * intros w2. now apply builtIn_status.
Qed.

Lemma foreground_wait_sets_status_witness :
  exists children' w',
    otherProcess sleep_cmd [] (mkEndStatus true 0) 0
      (set_forks [Some (7%positive, interrupted)] world0)
    = Ret (children', mkEndStatus false 2) w' /\
    trace w' = [EFork 7; EWaitpid 7 0 7; EPrint ("terminated by signal 2" ++ nl)] /\
    procs w' !! 7 = None /\
    forall w2, exists w3,
      builtIn [makeArgument "status"] children' (mkEndStatus false 2) w2
      = Ret true w3 /\
      output (trace w3) = (output (trace w2) ++ "terminated by signal 2" ++ nl)%string.
Proof.
  refine (foreground_wait_sets_status
            (set_position 0 (makeArgument "sleep"))
            [set_position 1 (makeArgument "100")] [] (mkEndStatus true 0) 0
            (set_forks [Some (7%positive, interrupted)] world0)
            7%positive _ [] (makeArgument "status") _ eq_refl eq_refl eq_refl _).
  - discriminate.
  - simpl. lia.
Defined.

(** C1, at the failing input.  The line [< in.txt] gives a foreground
    descriptor of a command that is not built in.  The first call of
    redirectIO finds [<] in the first node, with no node before it, and
    frees the whole list (the branch for [>] frees only when a node stands
    before); the second call reads the freed first node.  otherProcess
    stops there: nothing is forked, nothing is waited for, and the Last
    Status Record is never set. *)
Theorem C1_input_redirection_alone_never_waits (processID : Z)
    (u : indeterminate) (children : list Z) (es : endStatus) (cs : Z)
    (rest : string) (w : World) :
  separateInput "< in.txt" w = Ret (numbered 0 ["<"; "in.txt"]) w /\
  map background (numbered 0 ["<"; "in.txt"]) = [false; false] /\
  builtIn (numbered 0 ["<"; "in.txt"]) children es w = Ret false w /\
  otherProcess (numbered 0 ["<"; "in.txt"]) children es cs w
  = Fault UseAfterFree w /\
  main_body processID u (mkShell [] es)
    (set_stdin ("< in.txt" ++ nl ++ rest) w)
  = Fault UseAfterFree (log (EPrint ": ") (set_stdin rest w)).
Proof. repeat split; vm_compute; reflexivity. Qed.







(** ** Foreground-Only Mode *)

(** Each delivery of the stop-request signal flips the mode and writes the
    line of the mode entered. *)
Lemma handle_SIGTSTP_toggles w :
  backgroundOnly (handle_SIGTSTP w) = negb (backgroundOnly w) /\
  trace (handle_SIGTSTP w)
  = trace w ++ [EPrint (if backgroundOnly w
                        then nl ++ "Exiting foreground-only mode" ++ nl ++ ": "
                        else nl ++ "Entering foreground-only mode (& is now ignored)"
                             ++ nl ++ ": ")].
Proof. unfold handle_SIGTSTP. destruct (backgroundOnly w) eqn:E; now split. Qed.

(** ** The reap pass *)

Lemma removeChildProc_middle pre id next :
  ~ In id pre -> removeChildProc (pre ++ id :: next) id = pre ++ next.
Proof.
  induction pre as [|c pre IH]; intros Hin; simpl.
  - now rewrite Z.eqb_refl.
  - destruct (Z.eqb_spec c id) as [->|Hne].
    + exfalso. apply Hin. now left.
    + f_equal. apply IH. intros H. apply Hin. now right.
Qed.

Lemma reap_events_ext m m' table :
  (forall id, In id table -> m !! id = m' !! id) ->
  reap_events m table = reap_events m' table.
Proof.
  induction table as [|id table IH]; intros H; [reflexivity|].
  simpl. rewrite <- (H id) by now left.
  rewrite IH by (intros; apply H; now right). reflexivity.
Qed.

Lemma alive_ext (m m' : gmap Z proc) table :
  (forall id, In id table -> m !! id = m' !! id) ->
  List.filter (fun id => negb (ended m id)) table
  = List.filter (fun id => negb (ended m' id)) table.
Proof.
  intros H. apply filter_ext_in. intros id Hin. unfold ended.
  now rewrite (H id Hin).
Qed.

Lemma waitpid_nohang_zombie w id t childStatus :
  procs w !! id = Some (Zombie t) ->
  waitpid id childStatus WNOHANG w
  = Ret (id, wstatus t)
        (log (EWaitpid id WNOHANG id) (set_procs (delete id (procs w)) w)).
Proof. intros H. unfold waitpid. now rewrite H. Qed.

Lemma waitpid_nohang_running w id fate on_sigterm childStatus :
  procs w !! id = Some (Running fate on_sigterm) ->
  waitpid id childStatus WNOHANG w
  = Ret (0, childStatus) (log (EWaitpid id WNOHANG 0) w).
Proof. intros H. unfold waitpid. now rewrite H. Qed.

(** The announcement printed for a child that has ended, when the pass is
    the one of main ([sig] false). *)
Lemma announcement_printed id t (k : M (list Z)) w :
  valid_termination t ->
  ((if WIFEXITED (wstatus t) then
      printf ("background pid " ++ dec id ++ " is done: exit value "
              ++ dec (WEXITSTATUS (wstatus t)) ++ nl)
    else if false then
      printf ("terminated by signal " ++ dec (WTERMSIG (wstatus t)) ++ nl)
    else
      printf ("background pid " ++ dec id ++ " is done: terminated by signal "
              ++ dec (WTERMSIG (wstatus t)) ++ nl)) ≫= (fun _ => k)) w
  = k (log (EPrint (announcement id t)) w).
Proof.
  intros Hv. destruct t as [code|sig core]; simpl in Hv.
  - now rewrite WIFEXITED_Exited, (WEXITSTATUS_Exited _ Hv).
  - now rewrite (WIFEXITED_Signaled _ _ Hv), (WTERMSIG_Signaled _ _ Hv).
Qed.

Lemma reap_loop_tracked cur : forall pre cs w,
  NoDup (pre ++ cur) ->
  Forall (tracked_child (procs w)) cur ->
  exists w',
    checkTerminatedChildren_loop cur (pre ++ cur) false cs w
    = Ret (pre ++ List.filter (fun id => negb (ended (procs w) id)) cur) w' /\
    trace w' = trace w ++ reap_events (procs w) cur /\
    (forall id, In id cur -> ended (procs w) id = true -> procs w' !! id = None) /\
    (forall id, ended (procs w) id = false -> procs w' !! id = procs w !! id) /\
    forks w' = forks w /\ stdin w' = stdin w /\
    backgroundOnly w' = backgroundOnly w.
Proof.
  induction cur as [|id next IH]; intros pre cs w Hnd Hok.
  - exists w. simpl. rewrite !app_nil_r. repeat split; try reflexivity.
    intros id [].
  - assert (Hpre : ~ In id pre).
    { intros Hin. apply NoDup_app in Hnd as (_ & Hdisj & _).
      apply (Hdisj id); [now apply list_elem_of_In | apply list_elem_of_In; now left]. }
    assert (Hnext : ~ In id next).
    { apply NoDup_app in Hnd as (_ & _ & Hnd). apply NoDup_cons in Hnd as [Hn _].
      intros Hin. apply Hn. now apply list_elem_of_In. }
    apply Forall_cons_iff in Hok as [[Hpos Hid] Hok].
    simpl checkTerminatedChildren_loop.
    destruct (procs w !! id) as [[fate ont|t]|] eqn:E; [| |contradiction].
    + (* still running: the record stays *)
      rewrite (bind_Ret _ _ _ _ _ (waitpid_nohang_running _ _ _ _ cs E)).
      cbn beta iota. change (0 =? 0) with true. cbn iota.
      destruct (IH (pre ++ [id]) cs (log (EWaitpid id WNOHANG 0) w))
        as (w' & Hrun & Htr & Hgone & Hkept & Hf & Hs & Hb).
      { now rewrite <- app_assoc. }
      { exact Hok. }
      rewrite <- !app_assoc in Hrun. simpl app in Hrun.
      change (procs (log (EWaitpid id WNOHANG 0) w)) with (procs w) in *.
      change (trace (log (EWaitpid id WNOHANG 0) w))
        with (trace w ++ [EWaitpid id WNOHANG 0]) in Htr.
      exists w'. split; [|split; [|split; [|split]]].
      * rewrite Hrun. simpl List.filter. unfold ended at 2. now rewrite E.
      * rewrite Htr, <- app_assoc. simpl. now rewrite E.
      * intros x [<-|Hx] Hend; [|now apply Hgone].
        unfold ended in Hend. now rewrite E in Hend.
      * exact Hkept.
      * auto.
    + (* ended: announced and removed *)
      rewrite (bind_Ret _ _ _ _ _ (waitpid_nohang_zombie _ _ _ cs E)).
      cbn beta iota.
      assert (Hz : (id =? 0) = false) by (apply Z.eqb_neq; lia).
      rewrite Hz, (announcement_printed id t _ _ Hid).
      rewrite (removeChildProc_middle _ _ _ Hpre).
      remember (log (EPrint (announcement id t))
                   (log (EWaitpid id WNOHANG id)
                        (set_procs (delete id (procs w)) w))) as w1 eqn:Ew1.
      assert (Hprocs : procs w1 = delete id (procs w)) by now subst w1.
      assert (Htrace : trace w1 = trace w ++ [EWaitpid id WNOHANG id;
                                              EPrint (announcement id t)]).
      { subst w1. simpl. now rewrite <- app_assoc. }
      assert (Hrest : forks w1 = forks w /\ stdin w1 = stdin w /\
                      backgroundOnly w1 = backgroundOnly w) by now subst w1.
      clear Ew1.
      assert (Hsame : forall x, x <> id -> procs w1 !! x = procs w !! x).
      { intros x Hx. rewrite Hprocs. apply lookup_delete_ne. congruence. }
      destruct (IH pre (wstatus t) w1) as (w' & Hrun & Htr & Hgone & Hkept & Hf & Hs & Hb).
      { apply NoDup_app in Hnd as (H1 & H2 & H3). apply NoDup_app.
        split; [exact H1|]. split.
        - intros x Hx Hx'. apply (H2 x Hx). now right.
        - now apply NoDup_cons in H3 as [_ H3]. }
      { rewrite List.Forall_forall in Hok |- *. intros x Hx.
        destruct (Hok x Hx) as [Hxpos Hxok]. split; [exact Hxpos|].
        rewrite Hsame; [exact Hxok | congruence]. }
      assert (Hext : forall x, In x next -> procs w1 !! x = procs w !! x).
      { intros x Hx. apply Hsame. congruence. }
      exists w'. split; [|split; [|split; [|split]]].
      * rewrite Hrun. simpl List.filter. unfold ended at 2. rewrite E. simpl.
        now rewrite (alive_ext _ _ _ Hext).
      * rewrite Htr, Htrace. simpl. rewrite E, (reap_events_ext _ _ _ Hext).
        now rewrite <- !app_assoc.
      * intros x [<-|Hx] Hend.
        -- rewrite Hkept; [rewrite Hprocs; apply lookup_delete_eq|].
           unfold ended. now rewrite Hprocs, lookup_delete_eq.
        -- apply Hgone; [exact Hx|]. unfold ended in *. now rewrite Hext.
      * intros x Hend. assert (Hx : x <> id).
        { intros ->. unfold ended in Hend. now rewrite E in Hend. }
        rewrite Hkept; [now apply Hsame|].
        unfold ended in *. now rewrite Hsame.
      * destruct Hrest as (? & ? & ?). repeat split; congruence.
Qed.

(** ** Background dispatch *)

(** Background dispatch of a command whose first word is not [<], so that
    redirectIO leaves the first node in place, and the reap pass.  The
    dispatch does not wait: whatever becomes of the child, otherProcess returns with the child's pid appended to the Job
    Table, having printed [background pid is <pid>] and made no call of
    waitpid.  A later reap pass over a Job Table prints one announcement for
    each tracked child that has ended (exit value or signal) and removes
    exactly those records: the records of the children that still run stay,
    in order, and the table is shorter by the number of children that have
    ended. *)
Lemma background_registered_then_reaped
    (h : argument) (t : list argument) (children : list Z) (es : endStatus)
    (cs : Z) (w : World) (pid : positive) (p : proc)
    (rest : list (option (positive * proc)))
    (table : list Z) (cs2 : Z) (w2 : World) :
  text h <> "<" -> background h = true ->
  forks w = Some (pid, p) :: rest ->
  tracked (procs w2) table ->
  (exists w',
     otherProcess (h :: t) children es cs w
     = Ret (children ++ [Z.pos pid], es) w' /\
     trace w' = trace w ++ [EFork (Z.pos pid);
                            EPrint ("background pid is " ++ dec (Z.pos pid) ++ nl)] /\
     procs w' !! Z.pos pid = Some p) /\
  (exists w3,
     let table' := List.filter (fun id => negb (ended (procs w2) id)) table in
     checkTerminatedChildren table false cs2 w2 = Ret table' w3 /\
     trace w3 = trace w2 ++ reap_events (procs w2) table /\
     (length table' + length (List.filter (ended (procs w2)) table))%nat
     = length table /\
     (forall id, In id table -> ended (procs w2) id = true ->
        ~ In id table' /\ procs w3 !! id = None) /\
     (forall id, In id table -> ended (procs w2) id = false ->
        In id table' /\ procs w3 !! id = procs w2 !! id)).
Proof.
  intros Hh Hbg Hfork [Hnd Hok]. split.
  - unfold otherProcess.
    destruct (otherProcess_redirect_keeps_head h t w Hh) as (h' & t' & Hr & _ & Hb).
    rewrite (bind_Ret _ _ _ _ _ Hr).
    rewrite (bind_Ret _ _ _ _ _ (fork_child _ _ _ _ Hfork)).
    cbn beta iota. change (Z.pos pid =? -1) with false.
    change (Z.pos pid =? 0) with false. cbn iota. rewrite Hb, Hbg. cbn [negb].
    eexists. split; [reflexivity|]. split.
    + simpl. now rewrite <- app_assoc.
    + simpl. apply lookup_insert_eq.
  - destruct (reap_loop_tracked table [] cs2 w2 Hnd Hok)
      as (w3 & Hrun & Htr & Hgone & Hkept & _).
    exists w3. cbn zeta. split; [exact Hrun|]. split; [exact Htr|]. split.
    + rewrite Nat.add_comm. apply List.filter_length.
    + split.
      * intros id Hin Hend. split; [|now apply Hgone].
        rewrite List.filter_In, Hend. intros [_ H]. discriminate.
      * intros id Hin Hend. split; [|now apply Hkept].
        rewrite List.filter_In, Hend. now split.
Qed.

Lemma background_registered_then_reaped_witness :
  (exists w',
     otherProcess sleep_bg [5] (mkEndStatus true 0) 0
       (set_forks [Some (7%positive, daemon)] world0)
     = Ret ([5] ++ [7], mkEndStatus true 0) w' /\
     trace w' = trace (set_forks [Some (7%positive, daemon)] world0)
                ++ [EFork 7; EPrint ("background pid is " ++ dec 7 ++ nl)] /\
     procs w' !! 7 = Some daemon) /\
  (exists w3,
     let table' := List.filter (fun id => negb (ended (procs two_children) id)) [5; 7] in
     checkTerminatedChildren [5; 7] false 0 two_children = Ret table' w3 /\
     trace w3 = trace two_children ++ reap_events (procs two_children) [5; 7] /\
     (length table' + length (List.filter (ended (procs two_children)) [5; 7]%Z))%nat
     = length [5; 7]%Z /\
     (forall id, In id [5; 7] -> ended (procs two_children) id = true ->
        ~ In id table' /\ procs w3 !! id = None) /\
     (forall id, In id [5; 7] -> ended (procs two_children) id = false ->
        In id table' /\ procs w3 !! id = procs two_children !! id)).
Proof.
  refine (background_registered_then_reaped
            (set_background true (set_position 0 (makeArgument "sleep")))
            [set_position 1 (makeArgument "100")] [5] (mkEndStatus true 0) 0
            (set_forks [Some (7%positive, daemon)] world0) 7%positive daemon []
            [5; 7] 0 two_children _ eq_refl eq_refl _).
  - discriminate.
  - split.
    + refine (bool_decide_unpack _ _). vm_compute. exact I.
    + repeat constructor; simpl; lia.
Defined.

(** C3, at the failing input.  With Foreground-Only Mode off, the line
    [< in.txt &] gives a descriptor with [background] set whose words are
    [<] and [in.txt].  As for the foreground line [< in.txt], the first call
    of redirectIO frees the whole list and the second call reads the freed
    first node: otherProcess stops before fork, so no child is registered in
    the Job Table and no pid is printed. *)
Theorem C3_background_input_redirection_alone_not_registered (processID : Z)
    (u : indeterminate) (children : list Z) (es : endStatus) (cs : Z)
    (rest : string) (w : World) :
  separateInput "< in.txt &" (set_backgroundOnly false w)
  = Ret (on_head (set_background true) (numbered 0 ["<"; "in.txt"]))
        (set_backgroundOnly false w) /\
  map background (on_head (set_background true) (numbered 0 ["<"; "in.txt"]))
  = [true; false] /\
  builtIn (on_head (set_background true) (numbered 0 ["<"; "in.txt"]))
    children es w = Ret false w /\
  otherProcess (on_head (set_background true) (numbered 0 ["<"; "in.txt"]))
    children es cs w
  = Fault UseAfterFree w /\
  main_body processID u (mkShell [] es)
    (set_stdin ("< in.txt &" ++ nl ++ rest) (set_backgroundOnly false w))
  = Fault UseAfterFree
      (log (EPrint ": ") (set_stdin rest (set_backgroundOnly false w))).
Proof. repeat split; vm_compute; reflexivity. Qed.

(** ** The built-in exit *)

Lemma kill_then_wait w id p t childStatus :
  procs w !! id = Some p -> ends_on_sigterm p = Some t ->
  exists w',
    (kill id SIGTERM ≫= (fun _ => waitpid id childStatus 0)) w
    = Ret (id, wstatus t) w' /\
    trace w' = trace w ++ [EKill id SIGTERM; EWaitpid id 0 id] /\
    procs w' !! id = None /\
    (forall x, x <> id -> procs w' !! x = procs w !! x).
Proof.
  intros Hp He. unfold mbind, M_bind, bind, kill. rewrite Hp.
  destruct p as [fate ont|t']; simpl in He.
  - subst ont. unfold waitpid. simpl. rewrite lookup_insert_eq. simpl.
    eexists. split; [reflexivity|]. simpl. split; [now rewrite <- app_assoc|].
    split; [apply lookup_delete_eq|].
    intros x Hx. rewrite lookup_delete_ne, lookup_insert_ne by congruence.
    reflexivity.
  - injection He as ->. unfold waitpid. simpl. rewrite Hp.
    eexists. split; [reflexivity|]. simpl. split; [now rewrite <- app_assoc|].
    split; [apply lookup_delete_eq|].
    intros x Hx. now rewrite lookup_delete_ne by congruence.
Qed.

Lemma killChildren_drains table : forall cs w,
  NoDup table ->
  (forall id, In id table ->
     exists p t, procs w !! id = Some p /\ ends_on_sigterm p = Some t) ->
  exists w',
    killChildren table cs w = Ret tt w' /\
    trace w' = trace w ++ drain_events table /\
    (forall id, In id table -> procs w' !! id = None) /\
    (forall id, ~ In id table -> procs w' !! id = procs w !! id).
Proof.
  induction table as [|id next IH]; intros cs w Hnd Hok.
  - exists w. simpl. rewrite app_nil_r. repeat split; try reflexivity.
    intros id [].
  - apply NoDup_cons in Hnd as [Hfresh Hnd].
    rewrite list_elem_of_In in Hfresh.
    destruct (Hok id (or_introl eq_refl)) as (p & t & Hp & He).
    destruct (kill_then_wait w id p t cs Hp He) as (w1 & Hrun & Htr & Hgone & Hsame).
    destruct (IH (wstatus t) w1 Hnd) as (w' & Hrun' & Htr' & Hgone' & Hsame').
    { intros x Hx. rewrite Hsame by congruence. apply Hok. now right. }
    exists w'. split; [|split; [|split]].
    + simpl killChildren. unfold mbind, M_bind, bind in Hrun |- *.
      destruct (kill id SIGTERM w) as [[] w0| | |]; try discriminate.
      rewrite Hrun. exact Hrun'.
    + rewrite Htr', Htr, <- app_assoc. reflexivity.
    + intros x [<-|Hx]; [|now apply Hgone'].
      rewrite Hsame' by exact Hfresh. exact Hgone.
    + intros x Hx. rewrite Hsame'; [apply Hsame|]; intros H; apply Hx;
        [now left | now right].
Qed.

(** C4.  The built-in [exit] sends SIGTERM to every pid of the Job Table and
    waits for it with a blocking waitpid, one record after the other, and
    only then ends the shell, with exit code 0: at that point no tracked pid
    is a child that has not been waited for.  The table tracks distinct
    children, each of which ends once it has received SIGTERM. *)
Theorem C4_exit_drains_job_table (cmd : argument) (args : list argument)
    (children : list Z) (es : endStatus) (w : World) :
  text cmd = "exit" ->
  NoDup children ->
  (forall id, In id children ->
     exists p t, procs w !! id = Some p /\ ends_on_sigterm p = Some t) ->
  exists w',
    builtIn (cmd :: args) children es w = Exit 0 w' /\
    trace w' = trace w ++ drain_events children /\
    (forall id, In id children -> procs w' !! id = None).
Proof.
  intros Hcmd Hnd Hok. unfold builtIn. rewrite Hcmd. simpl.
  destruct (killChildren_drains children 0 w Hnd Hok) as (w' & Hrun & Htr & Hgone & _).
  exists w'. split; [|split; assumption].
  now rewrite (bind_Ret _ _ _ _ _ Hrun).
Qed.

(** A tracked child that survives SIGTERM keeps the shell in waitpid: exit
    does not end the shell before the child has ended. *)
Lemma exit_waits_for_survivor cmd args id next es w fate :
  text cmd = "exit" ->
  procs w !! id = Some (Running fate None) ->
  exists w', builtIn (cmd :: args) (id :: next) es w = Block w'.
Proof.
  intros Hcmd Hp. unfold builtIn. rewrite Hcmd. simpl.
  unfold mbind, M_bind, bind, kill. rewrite Hp. unfold waitpid. simpl.
  rewrite lookup_insert_eq. simpl. eexists. reflexivity.
Qed.

Lemma C4_exit_drains_job_table_witness :
  exists w',
    builtIn [makeArgument "exit"] [5; 7] (mkEndStatus true 0) two_children
    = Exit 0 w' /\
    trace w' = trace two_children ++ drain_events [5; 7] /\
    (forall id, In id [5; 7] -> procs w' !! id = None).
Proof.
  apply (C4_exit_drains_job_table (makeArgument "exit") [] [5; 7]
           (mkEndStatus true 0) two_children).
  - reflexivity.
  - refine (bool_decide_unpack _ _). vm_compute. exact I.
  - intros id [<-|[<-|[]]]; eexists _, _; split; reflexivity.
Defined.

(** ** What each part of a turn adds to the trace *)

Lemma adds_ret P {A} (a : A) : adds P (mret a : M A).
Proof. intros w. exists []. simpl. now rewrite app_nil_r. Qed.

Lemma adds_crash P {A} e : adds P (crash e : M A).
Proof. intros w. exists []. simpl. now rewrite app_nil_r. Qed.

Lemma adds_exit P {A} c : adds P (exit_ c : M A).
Proof. intros w. exists []. simpl. now rewrite app_nil_r. Qed.

Lemma adds_emit (P : event -> Prop) e : P e -> adds P (emit e).
Proof. intros H w. exists [e]. simpl. split; [reflexivity | now constructor]. Qed.

Lemma adds_bind P {A B} (m : M A) (f : A -> M B) :
  adds P m -> (forall a, adds P (f a)) -> adds P (m ≫= f).
Proof.
  intros Hm Hf w. destruct (Hm w) as (l1 & H1 & HP1).
  unfold mbind, M_bind, bind.
  destruct (m w) as [a w1|c w1|w1|e w1]; simpl in *;
    try (exists l1; now split).
  destruct (Hf a w1) as (l2 & H2 & HP2).
  exists (l1 ++ l2). split.
  - now rewrite H2, H1, app_assoc.
  - now apply Forall_app.
Qed.

Lemma adds_weaken (P Q : event -> Prop) {A} (m : M A) :
  (forall e, P e -> Q e) -> adds P m -> adds Q m.
Proof.
  intros HPQ Hm w. destruct (Hm w) as (l & H & HP).
  exists l. split; [exact H|]. eapply Forall_impl; eassumption.
Qed.

Lemma adds_fork (P : event -> Prop) : (forall r, P (EFork r)) -> adds P fork.
Proof.
  intros H w. unfold fork.
  destruct (forks w) as [|[[pid p]|] rest]; simpl; eexists [_];
    (split; [reflexivity | constructor; [apply H | constructor]]).
Qed.

Lemma adds_waitpid (P : event -> Prop) pid cs options :
  (forall r, P (EWaitpid pid options r)) -> adds P (waitpid pid cs options).
Proof.
  intros H w. unfold waitpid.
  destruct (procs w !! pid) as [[fate ont|t]|]; simpl;
    [destruct (options =? WNOHANG); [|destruct fate]|..]; simpl;
    try (eexists [_]; split; [reflexivity | constructor; [apply H | constructor]]).
  exists []. split; [now rewrite app_nil_r | constructor].
Qed.

Lemma adds_kill (P : event -> Prop) pid sig : P (EKill pid sig) -> adds P (kill pid sig).
Proof.
  intros H w. unfold kill.
  destruct (procs w !! pid) as [[fate ont|t]|]; simpl; eexists [_];
    (split; [reflexivity | constructor; [exact H | constructor]]).
Qed.

Lemma silent_trace {A} (m : M A) w : silent m -> trace (world_of (m w)) = trace w.
Proof.
  intros H. destruct (H w) as (l & Hl & HF).
  destruct l as [|e l]; [now rewrite Hl, app_nil_r|].
  apply Forall_cons_iff in HF as [[] _].
Qed.

Lemma silent_adds P {A} (m : M A) : silent m -> adds P m.
Proof. apply adds_weaken. intros e []. Qed.

(** Code that reads standard input and does nothing else to the world. *)
Lemma reads_only_ret {A} (a : A) : reads_only (mret a : M A).
Proof. intros [p f s b t]. now exists s. Qed.

Lemma reads_only_crash {A} e : reads_only (crash e : M A).
Proof. intros [p f s b t]. now exists s. Qed.

Lemma reads_only_bind {A B} (m : M A) (f : A -> M B) :
  reads_only m -> (forall a, reads_only (f a)) -> reads_only (m ≫= f).
Proof.
  intros Hm Hf w. destruct (Hm w) as (s1 & H1).
  unfold mbind, M_bind, bind.
  destruct (m w) as [a w1|c w1|w1|e w1]; simpl in *; try (now exists s1).
  destruct (Hf a w1) as (s2 & H2). exists s2. now rewrite H2, H1.
Qed.

Lemma reads_only_getchar : reads_only getchar.
Proof.
  intros w. unfold getchar. destruct (stdin w) as [|c rest] eqn:E.
  - exists EmptyString. destruct w; simpl in *. now subst.
  - now exists rest.
Qed.

Lemma reads_only_store input i c : reads_only (store input i c).
Proof.
  unfold store.
  destruct (i <? LINE_LENGTH)%nat; [apply reads_only_ret | apply reads_only_crash].
Qed.

Lemma reads_only_load input i : reads_only (load input i).
Proof.
  unfold load.
  destruct (i <? LINE_LENGTH)%nat; [apply reads_only_ret | apply reads_only_crash].
Qed.

Lemma reads_only_sprintf s : forall input i, reads_only (sprintf input i s).
Proof.
  induction s as [|c s IH]; intros input i; simpl.
  - apply reads_only_store.
  - apply reads_only_bind; [apply reads_only_store | intros; apply IH].
Qed.

Lemma reads_only_check_dollars input i processID :
  reads_only (check_dollars input i processID).
Proof.
  unfold check_dollars. apply reads_only_bind; [apply reads_only_getchar|].
  intros c. destruct (Ascii.eqb c "$").
  - apply reads_only_bind; [apply reads_only_sprintf | intros; apply reads_only_ret].
  - apply reads_only_bind; [apply reads_only_store|]. intros b.
    destruct (Ascii.eqb c LF);
      (apply reads_only_bind; [apply reads_only_store | intros; apply reads_only_ret]).
Qed.

Lemma reads_only_getInput_loop fuel processID : forall input i,
  reads_only (getInput_loop fuel processID input i).
Proof.
  induction fuel as [|fuel IH]; intros input i; simpl; [apply reads_only_crash|].
  apply reads_only_bind; [apply reads_only_getchar|]. intros c.
  destruct (Ascii.eqb c LF); [apply reads_only_ret|].
  destruct (Ascii.eqb c "$").
  - apply reads_only_bind; [apply reads_only_check_dollars|]. intros [input' i'].
    apply reads_only_bind; [apply reads_only_load|]. intros c'.
    destruct (Ascii.eqb c' NUL); [apply reads_only_ret | apply IH].
  - apply reads_only_bind; [apply reads_only_store | intros; apply IH].
Qed.

Lemma reads_only_setBackground head : reads_only (setBackground head).
Proof.
  intros [p f s b t]. exists s. unfold setBackground.
  destruct head as [|h [|a l]]; reflexivity.
Qed.

Lemma reads_only_separateInput input : reads_only (separateInput input).
Proof.
  unfold separateInput.
  destruct (separateInput_loop _ _ _ _) as [head|]; [|apply reads_only_crash].
  destruct (last head) as [tail|]; [|apply reads_only_crash].
  destruct (text tail =? "&")%string;
    [apply reads_only_setBackground | apply reads_only_ret].
Qed.

Lemma reads_only_redirectIO head : reads_only (redirectIO head).
Proof.
  unfold redirectIO. destruct head as [[|a [|b l]]|];
    try apply reads_only_crash; try apply reads_only_ret.
  destruct (last_two (a :: b :: l)) as [[[pre previous] current]|];
    [|apply reads_only_ret].
  destruct (text previous =? ">")%string; [destruct pre; apply reads_only_ret|].
  destruct (text previous =? "<")%string; [destruct pre; apply reads_only_ret|].
  apply reads_only_ret.
Qed.

Lemma reads_only_otherProcess_redirect head :
  reads_only (otherProcess_redirect head).
Proof.
  unfold otherProcess_redirect.
  apply reads_only_bind; [apply reads_only_redirectIO|].
  intros [found head1]. destruct found; [|apply reads_only_ret].
  apply reads_only_bind; [apply reads_only_redirectIO|].
  intros [? ?]. apply reads_only_ret.
Qed.

Lemma reads_only_silent {A} (m : M A) : reads_only m -> silent m.
Proof.
  intros H w. destruct (H w) as (s & Hs). exists [].
  rewrite Hs, app_nil_r. split; [reflexivity | constructor].
Qed.

Lemma silent_otherProcess_redirect head : silent (otherProcess_redirect head).
Proof. apply reads_only_silent, reads_only_otherProcess_redirect. Qed.

(** getInput prints the prompt, reads, and does nothing else to the world. *)
Lemma getInput_world processID input w :
  exists s,
    world_of (getInput processID input w) = set_stdin s (log (EPrint ": ") w).
Proof.
  unfold getInput, printf. rewrite bind_emit.
  revert w. generalize (EPrint ": "). intros e w.
  assert (H : reads_only
                ('(input, i) ← getInput_loop (S LINE_LENGTH) processID input 0;
                 input ← store input i NUL;
                 if ((i =? 0)%nat || Ascii.eqb (input 0%nat) "#")%bool
                 then mret []
                 else separateInput (cstring input 0 LINE_LENGTH))).
  { apply reads_only_bind; [apply reads_only_getInput_loop|]. intros [input' i].
    apply reads_only_bind; [apply reads_only_store|]. intros input''.
    destruct ((i =? 0)%nat || Ascii.eqb (input'' 0%nat) "#")%bool;
      [apply reads_only_ret | apply reads_only_separateInput]. }
  apply H.
Qed.

Lemma getInput_trace processID input w :
  trace (world_of (getInput processID input w)) = trace w ++ [EPrint ": "].
Proof.
  destruct (getInput_world processID input w) as (s & ->). reflexivity.
Qed.

(** The reap pass always returns, and all it does is check and announce. *)
Lemma reap_returns cur : forall head sig cs w,
  exists head' w' l,
    checkTerminatedChildren_loop cur head sig cs w = Ret head' w' /\
    trace w' = trace w ++ l /\ Forall reap_event l /\
    stdin w' = stdin w /\ forks w' = forks w /\
    backgroundOnly w' = backgroundOnly w.
Proof.
  induction cur as [|id next IH]; intros head sig cs w.
  - exists head, w, []. simpl. rewrite app_nil_r. repeat split. constructor.
  - simpl. unfold mbind, M_bind, bind, waitpid.
    destruct (procs w !! id) as [[fate ont|t]|]; simpl.
    + destruct (IH head sig cs (log (EWaitpid id WNOHANG 0) w))
        as (head' & w' & l & Hrun & Htr & HP & Hs & Hf & Hb).
      exists head', w', (EWaitpid id WNOHANG 0 :: l).
      split; [exact Hrun|]. split; [rewrite Htr; simpl; now rewrite <- app_assoc|].
      split; [constructor; [reflexivity | exact HP]|]. auto.
    + destruct (id =? 0).
      * destruct (IH head sig (wstatus t)
                    (log (EWaitpid id WNOHANG id)
                         (set_procs (delete id (procs w)) w)))
          as (head' & w' & l & Hrun & Htr & HP & Hs & Hf & Hb).
        exists head', w', (EWaitpid id WNOHANG id :: l).
        split; [exact Hrun|]. split; [rewrite Htr; simpl; now rewrite <- app_assoc|].
        split; [constructor; [reflexivity | exact HP]|]. auto.
      * destruct (WIFEXITED (wstatus t)); [|destruct sig]; simpl;
          match goal with
          | |- context [checkTerminatedChildren_loop next ?h ?s ?c ?w0] =>
              destruct (IH h s c w0)
                as (head' & w' & l & Hrun & Htr & HP & Hs & Hf & Hb)
          end;
          (eexists head', w', (EWaitpid id WNOHANG id :: EPrint _ :: l);
           split; [exact Hrun|];
           split; [rewrite Htr; simpl; now rewrite <- !app_assoc|];
           split; [repeat constructor; exact HP|]; auto).
    + change (-1 =? 0) with false. cbn iota.
      destruct (WIFEXITED cs); [|destruct sig]; simpl;
        match goal with
        | |- context [checkTerminatedChildren_loop next ?h ?s ?c ?w0] =>
            destruct (IH h s c w0)
              as (head' & w' & l & Hrun & Htr & HP & Hs & Hf & Hb)
        end;
        (eexists head', w', (EWaitpid id WNOHANG (-1) :: EPrint _ :: l);
         split; [exact Hrun|];
         split; [rewrite Htr; simpl; now rewrite <- !app_assoc|];
         split; [repeat constructor; exact HP|]; auto).
Qed.

(** After the reap pass, nothing in a turn of main checks a child with
    WNOHANG. *)
Lemma killChildren_no_status_check head : forall cs,
  adds (fun e => is_nohang_wait e = false) (killChildren head cs).
Proof.
  induction head as [|id next IH]; intros cs; simpl; [apply adds_ret|].
  apply adds_bind; [now apply adds_kill|]. intros _.
  apply adds_bind; [now apply adds_waitpid|]. intros [? ?]. apply IH.
Qed.

Lemma builtIn_no_status_check head children es :
  adds (fun e => is_nohang_wait e = false) (builtIn head children es).
Proof.
  unfold builtIn. destruct head as [|cmd args]; [apply adds_crash|].
  destruct (text cmd =? "exit")%string.
  { apply adds_bind; [apply killChildren_no_status_check|].
    intros _. apply adds_exit. }
  destruct (text cmd =? "cd")%string.
  { apply adds_bind; [|intros; apply adds_ret].
    unfold changeDir. destruct args; now apply adds_emit. }
  destruct (text cmd =? "status")%string; [|apply adds_ret].
  apply adds_bind; [|intros; apply adds_ret].
  unfold printStatus, printf.
  apply adds_bind; [destruct (exit es)|intros]; now apply adds_emit.
Qed.

Lemma otherProcess_no_status_check head children es cs :
  adds (fun e => is_nohang_wait e = false) (otherProcess head children es cs).
Proof.
  unfold otherProcess.
  apply adds_bind; [apply silent_adds, silent_otherProcess_redirect|].
  intros head'. apply adds_bind; [now apply adds_fork|]. intros newID.
  destruct (newID =? -1).
  { apply adds_bind; [now apply adds_emit | intros; apply adds_exit]. }
  destruct (newID =? 0); [apply adds_exit|].
  destruct head' as [[|d l]|]; try apply adds_crash.
  destruct (negb (background d)).
  - apply adds_bind; [now apply adds_waitpid|]. intros [r st].
    destruct (WIFEXITED st); [apply adds_ret|].
    apply adds_bind; [|intros; apply adds_ret].
    destruct (WTERMSIG st =? 2); [now apply adds_emit | apply adds_ret].
  - apply adds_bind; [now apply adds_emit | intros; apply adds_ret].
Qed.

(** C8, as amended.  In every turn of the loop of main, the reap pass runs
    once, first, with its format flag false; it returns without reading
    input; the prompt is printed after it; and nothing that follows in the
    turn, the foreground dispatch of a command ended by the interrupt signal
    included, checks a tracked child again. *)
Theorem C8_one_reap_pass_per_turn (processID : Z) (u : indeterminate)
    (sh : shell) (w : World) :
  exists children1 w1 checks l,
    checkTerminatedChildren (children sh) false
      (childStatus_of_checkTerminatedChildren u) w = Ret children1 w1 /\
    trace w1 = trace w ++ checks /\ Forall reap_event checks /\
    stdin w1 = stdin w /\
    trace (world_of (main_body processID u sh w))
    = trace w1 ++ EPrint ": " :: l /\
    Forall (fun e => is_nohang_wait e = false) l.
Proof.
  destruct (reap_returns (children sh) (children sh) false
              (childStatus_of_checkTerminatedChildren u) w)
    as (children1 & w1 & checks & Hrun & Htr & HP & Hs & _).
  fold (checkTerminatedChildren (children sh) false
          (childStatus_of_checkTerminatedChildren u)) in Hrun.
  exists children1, w1, checks.
  unfold main_body. rewrite (bind_Ret _ _ _ _ _ Hrun).
  pose proof (getInput_trace processID (input_of_getInput u) w1) as Hin.
  unfold mbind at 1, M_bind, bind at 1.
  destruct (getInput processID (input_of_getInput u) w1)
    as [head w2|c w2|w2|e w2]; simpl in Hin;
    try (exists []; simpl; repeat split; (assumption || constructor)).
  assert (Hk : adds (fun e => is_nohang_wait e = false)
                 (match head with
                  | [] => mret (mkShell children1 (exitStatus sh))
                  | _ :: _ =>
                      handled ← builtIn head children1 (exitStatus sh);
                      if (handled : bool)
                      then mret (mkShell children1 (exitStatus sh))
                      else
                        '(children, exitStatus) ←
                          otherProcess head children1 (exitStatus sh)
                            (childStatus_of_otherProcess u);
                        mret (mkShell children exitStatus)
                  end : M shell)).
  { destruct head as [|a args]; [apply adds_ret|].
    apply adds_bind; [apply builtIn_no_status_check|]. intros handled.
    destruct handled; [apply adds_ret|].
    apply adds_bind; [apply otherProcess_no_status_check|].
    intros [? ?]. apply adds_ret. }
  destruct (Hk w2) as (l & Hl & HPl).
  exists l. repeat split; try assumption.
  transitivity (trace w2 ++ l); [exact Hl|].
  rewrite Hin, <- app_assoc. reflexivity.
Qed.

(** C8, as stated, fails on the interrupt path.  Child 5 is tracked and has
    ended when [sleep 100] is dispatched in the foreground and ended by the
    interrupt signal: otherProcess prints its notice and returns with 5
    still in the Job Table, not waited for and not announced, though a reap
    pass at that point would have removed it. *)
Lemma C8_no_reap_pass_on_interrupt :
  ended (procs interrupt_world) 5 = true /\
  exists w',
    otherProcess sleep_cmd [5] (mkEndStatus true 0) 0 interrupt_world
    = Ret ([5], mkEndStatus false 2) w' /\
    trace w' = [EFork 7; EWaitpid 7 0 7;
                EPrint ("terminated by signal 2" ++ nl)] /\
    forallb (fun e => negb (is_nohang_wait e)) (trace w') = true /\
    procs w' !! 5 = Some (Zombie (Exited 0)) /\
    exists w'', checkTerminatedChildren [5] true 0 w' = Ret [] w''.
Proof.
  split; [reflexivity|].
  eexists. split; [vm_compute; reflexivity|].
  split; [reflexivity|]. split; [reflexivity|]. split; [reflexivity|].
  eexists. vm_compute. reflexivity.
Qed.

(** ** The Last Status Record *)

Lemma fork_Ret w r w' : fork w = Ret r w' -> trace w' = trace w ++ [EFork r].
Proof.
  unfold fork. destruct (forks w) as [|[[pid p]|] rest]; intros H;
    injection H as <- <-; reflexivity.
Qed.

Lemma waitpid_Ret pid cs options w r st w' :
  waitpid pid cs options w = Ret (r, st) w' ->
  trace w' = trace w ++ [EWaitpid pid options r].
Proof.
  unfold waitpid.
  destruct (procs w !! pid) as [[fate ont|t]|];
    [destruct (options =? WNOHANG); [|destruct fate]|..]; intros H;
    try discriminate; injection H as <- <- <-; reflexivity.
Qed.

(** otherProcess leaves the Last Status Record alone unless it has forked a
    child and a blocking waitpid for that child has returned. *)
Lemma otherProcess_Ret_cases head children es cs w children' es' w' :
  otherProcess head children es cs w = Ret (children', es') w' ->
  es' = es \/
  exists pid ret l, trace w' = trace w ++ EFork pid :: EWaitpid pid 0 ret :: l.
Proof.
  unfold otherProcess. intros H.
  apply bind_Ret_inv in H as (head' & w0 & Hred & H).
  pose proof (silent_trace _ w (silent_otherProcess_redirect head)) as Hw0.
  rewrite Hred in Hw0. simpl in Hw0.
  apply bind_Ret_inv in H as (newID & w1 & Hfork & H).
  apply fork_Ret in Hfork.
  destruct (newID =? -1).
  { apply bind_Ret_inv in H as (? & ? & _ & H). discriminate. }
  destruct (newID =? 0); [discriminate|].
  destruct head' as [[|d l]|]; try discriminate.
  destruct (negb (background d)).
  - right. apply bind_Ret_inv in H as ([r st] & w2 & Hwait & H).
    apply waitpid_Ret in Hwait. exists newID, r.
    destruct (WIFEXITED st).
    + injection H as _ _ <-. exists [].
      now rewrite Hwait, Hfork, Hw0, <- app_assoc.
    + apply bind_Ret_inv in H as (? & w3 & Hprint & H). injection H as _ _ <-.
      destruct (WTERMSIG st =? 2).
      * injection Hprint as _ <-. eexists [_]. simpl.
        now rewrite Hwait, Hfork, Hw0, <- !app_assoc.
      * injection Hprint as _ <-. exists [].
        now rewrite Hwait, Hfork, Hw0, <- app_assoc.
  - left. apply bind_Ret_inv in H as (? & w2 & _ & H). now injection H as _ <- _.
Qed.

(** C2.  In every turn of the loop of main that returns, the reap pass
    comes first and only checks children and prints announcements, whatever
    background completions it observes; and the Last Status Record at the
    end of the turn is the one the turn started with unless, after the reap
    pass, the turn has forked a child and a blocking waitpid for that child
    has returned, that is, unless a foreground dispatch has completed. *)
Theorem C2_status_changed_by_foreground_only (processID : Z)
    (u : indeterminate) (sh sh' : shell) (w w' : World) :
  main_body processID u sh w = Ret sh' w' ->
  exists children1 w1 announcements after,
    checkTerminatedChildren (children sh) false
      (childStatus_of_checkTerminatedChildren u) w = Ret children1 w1 /\
    trace w1 = trace w ++ announcements /\
    Forall reap_event announcements /\
    trace w' = trace w1 ++ after /\
    (exitStatus sh' = exitStatus sh \/
     exists pid ret l1 l2,
       after = l1 ++ EFork pid :: EWaitpid pid 0 ret :: l2).
Proof.
  unfold main_body. intros H.
  apply bind_Ret_inv in H as (children1 & w1 & Hreap & H).
  destruct (reap_returns (children sh) (children sh) false
              (childStatus_of_checkTerminatedChildren u) w)
    as (c1 & w1' & checks & Hrun & Htr & HP & _).
  fold (checkTerminatedChildren (children sh) false
          (childStatus_of_checkTerminatedChildren u)) in Hrun.
  rewrite Hreap in Hrun. injection Hrun as <- <-.
  exists children1, w1, checks.
  apply bind_Ret_inv in H as (head & w2 & Hin & H).
  pose proof (getInput_trace processID (input_of_getInput u) w1) as Hprompt.
  rewrite Hin in Hprompt. simpl in Hprompt.
  destruct head as [|a args].
  { injection H as <- <-. exists [EPrint ": "]. repeat split; auto. }
  apply bind_Ret_inv in H as (handled & w3 & Hbuilt & H).
  destruct (builtIn_no_status_check (a :: args) children1 (exitStatus sh) w2)
    as (lb & Hlb & _).
  rewrite Hbuilt in Hlb. simpl in Hlb.
  destruct handled.
  { injection H as <- <-. exists (EPrint ": " :: lb). repeat split; auto.
    rewrite Hlb, Hprompt, <- app_assoc. reflexivity. }
  apply bind_Ret_inv in H as ([children2 es2] & w4 & Hother & H).
  injection H as <- <-. simpl.
  pose proof (otherProcess_no_status_check (a :: args) children1 (exitStatus sh)
                (childStatus_of_otherProcess u) w3) as (lo & Hlo & _).
  rewrite Hother in Hlo. simpl in Hlo.
  exists (EPrint ": " :: lb ++ lo). repeat split; auto.
  { rewrite Hlo, Hlb, Hprompt, <- !app_assoc. reflexivity. }
  destruct (otherProcess_Ret_cases _ _ _ _ _ _ _ _ Hother)
    as [->|(pid & ret & l2 & Htr4)]; [now left|right].
  exists pid, ret, (EPrint ": " :: lb), l2.
  rewrite Htr4 in Hlo. apply app_inv_head in Hlo. now rewrite <- Hlo.
Qed.

Lemma C2_status_changed_by_foreground_only_witness :
  exists sh' w',
    main_body 4821 stale status_shell status_turn = Ret sh' w' /\
    exitStatus sh' = mkEndStatus false 2 /\
    output (trace w')
    = ("background pid 5 is done: exit value 0" ++ nl ++ ": "
       ++ "terminated by signal 2" ++ nl)%string /\
    exists children1 w1 announcements after,
      checkTerminatedChildren (children status_shell) false
        (childStatus_of_checkTerminatedChildren stale) status_turn
      = Ret children1 w1 /\
      trace w1 = trace status_turn ++ announcements /\
      Forall reap_event announcements /\
      trace w' = trace w1 ++ after /\
      (exitStatus sh' = exitStatus status_shell \/
       exists pid ret l1 l2,
         after = l1 ++ EFork pid :: EWaitpid pid 0 ret :: l2).
Proof.
  eexists _, _. split; [vm_compute; reflexivity|].
  split; [reflexivity|]. split; [reflexivity|].
  apply (C2_status_changed_by_foreground_only 4821 stale status_shell _
           status_turn _).
  vm_compute. reflexivity.
Defined.

(** ** The Job Table tracks children of the shell

    The properties above of the reap pass, of [exit] and of the foreground
    dispatch speak of a Job Table of distinct children that have not been
    waited for, and of a pid from fork that is not in the table.  Every turn
    of the loop of main keeps the table that way, given that the kernel
    gives no pid that is still in use. *)

Lemma fresh_not_tracked m table id :
  Forall (tracked_child m) table -> m !! id = None -> ~ In id table.
Proof.
  rewrite List.Forall_forall. intros H Hnone Hin.
  destruct (H id Hin) as [_ Hid]. now rewrite Hnone in Hid.
Qed.

Lemma checkTerminatedChildren_keeps_tracked table cs w table' w' :
  tracked (procs w) table ->
  checkTerminatedChildren table false cs w = Ret table' w' ->
  tracked (procs w') table' /\ forks w' = forks w /\
  (forall id, procs w !! id = None -> procs w' !! id = None).
Proof.
  intros [Hnd Hok] Hrun.
  destruct (reap_loop_tracked table [] cs w Hnd Hok)
    as (w1 & Hrun1 & _ & _ & Hkept & Hf & _).
  unfold checkTerminatedChildren in Hrun. simpl app in Hrun1.
  rewrite Hrun1 in Hrun. injection Hrun as <- <-.
  split; [split|split].
  - apply NoDup_ListNoDup, List.NoDup_filter, NoDup_ListNoDup. exact Hnd.
  - rewrite List.Forall_forall in Hok |- *. intros id Hin.
    apply List.filter_In in Hin as [Hin Halive].
    apply negb_true_iff in Halive.
    destruct (Hok id Hin) as [Hpos Hid]. split; [exact Hpos|].
    now rewrite (Hkept id Halive).
  - exact Hf.
  - intros id Hnone. rewrite Hkept; [exact Hnone|].
    unfold ended. now rewrite Hnone.
Qed.

Lemma builtIn_Ret_world head children es w handled w' :
  builtIn head children es w = Ret handled w' ->
  procs w' = procs w /\ forks w' = forks w.
Proof.
  unfold builtIn. destruct head as [|cmd args]; [discriminate|].
  destruct (text cmd =? "exit")%string.
  { intros H. apply bind_Ret_inv in H as (? & ? & _ & H). discriminate. }
  destruct (text cmd =? "cd")%string.
  { unfold changeDir. destruct args; intros H; injection H as _ <-; now split. }
  destruct (text cmd =? "status")%string.
  { unfold printStatus. destruct (exit es); intros H; injection H as _ <-;
      now split. }
  intros H. injection H as _ <-. now split.
Qed.

Lemma otherProcess_keeps_tracked head children es cs w children' es' w' :
  tracked (procs w) children -> next_fork_fresh w ->
  otherProcess head children es cs w = Ret (children', es') w' ->
  tracked (procs w') children'.
Proof.
  intros [Hnd Hok] Hfresh H. unfold otherProcess in H.
  apply bind_Ret_inv in H as (head' & w0 & Hred & H).
  destruct (reads_only_otherProcess_redirect head w) as (s & Hw0).
  rewrite Hred in Hw0. simpl in Hw0. subst w0.
  apply bind_Ret_inv in H as (newID & w1 & Hfork & H).
  unfold fork, next_fork_fresh in *. simpl in Hfork, Hfresh.
  destruct (forks w) as [|[[pid p]|] rest].
  { injection Hfork as <- <-. apply bind_Ret_inv in H as (? & ? & _ & H).
    discriminate. }
  2:{ injection Hfork as <- <-. apply bind_Ret_inv in H as (? & ? & _ & H).
      discriminate. }
  destruct Hfresh as [Hnone Hp]. injection Hfork as <- <-.
  change (Z.pos pid =? -1) with false in H.
  change (Z.pos pid =? 0) with false in H. cbn iota in H.
  pose proof (fresh_not_tracked _ _ _ Hok Hnone) as Hnew.
  assert (Hold : forall id, In id children ->
            tracked_child (<[Z.pos pid := p]> (procs w)) id).
  { rewrite List.Forall_forall in Hok. intros id Hin.
    destruct (Hok id Hin) as [Hpos Hid]. split; [exact Hpos|].
    rewrite lookup_insert_ne; [exact Hid|]. intros <-. contradiction. }
  destruct head' as [[|d l]|]; try discriminate.
  destruct (negb (background d)).
  - apply bind_Ret_inv in H as ([r st] & w2 & Hwait & H).
    unfold waitpid in Hwait. simpl in Hwait. rewrite lookup_insert_eq in Hwait.
    assert (Hw2 : r = Z.pos pid /\
                  procs w2 = delete (Z.pos pid) (<[Z.pos pid := p]> (procs w))).
    { destruct p as [[t|] ont|t]; try discriminate;
        injection Hwait as <- _ <-; now split. }
    destruct Hw2 as [-> Hprocs].
    assert (Hw' : children' = children /\ procs w' = procs w2).
    { destruct (WIFEXITED st).
      - injection H as <- _ <-. now rewrite removeChildProc_last.
      - apply bind_Ret_inv in H as (? & w3 & Hprint & H).
        injection H as <- _ <-. rewrite removeChildProc_last by exact Hnew.
        split; [reflexivity|].
        destruct (WTERMSIG st =? 2); now injection Hprint as _ <-. }
    destruct Hw' as [-> ->]. split; [exact Hnd|].
    rewrite List.Forall_forall. intros id Hin. rewrite Hprocs.
    destruct (Hold id Hin) as [Hpos Hid]. split; [exact Hpos|].
    rewrite lookup_delete_ne; [exact Hid|]. intros <-. contradiction.
  - apply bind_Ret_inv in H as (? & w2 & Hprint & H).
    injection Hprint as _ <-. injection H as <- _ <-. simpl.
    unfold createChildProc. split.
    + apply NoDup_app. split; [exact Hnd|]. split.
      * intros id Hid Hid'. apply list_elem_of_In in Hid, Hid'.
        destruct Hid' as [<-|[]]. contradiction.
      * apply NoDup_singleton.
    + apply Forall_app. split.
      * rewrite List.Forall_forall. exact Hold.
      * constructor; [|constructor]. split; [lia|].
        rewrite lookup_insert_eq. exact Hp.
Qed.

(** One turn of the loop of main keeps the Job Table a table of distinct
    children that have not been waited for. *)
Lemma main_body_keeps_tracked processID u sh w sh' w' :
  tracked (procs w) (children sh) -> next_fork_fresh w ->
  main_body processID u sh w = Ret sh' w' ->
  tracked (procs w') (children sh').
Proof.
  intros Htracked Hfresh H. unfold main_body in H.
  apply bind_Ret_inv in H as (children1 & w1 & Hreap & H).
  destruct (checkTerminatedChildren_keeps_tracked _ _ _ _ _ Htracked Hreap)
    as (Ht1 & Hf1 & Hnone1).
  apply bind_Ret_inv in H as (head & w2 & Hin & H).
  destruct (getInput_world processID (input_of_getInput u) w1) as (s & Hw2).
  rewrite Hin in Hw2. simpl in Hw2. subst w2.
  destruct head as [|a args]; [now injection H as <- <-|].
  apply bind_Ret_inv in H as (handled & w3 & Hbuilt & H).
  apply builtIn_Ret_world in Hbuilt as [Hp3 Hf3]. simpl in Hp3, Hf3.
  destruct handled; [injection H as <- <-; simpl; now rewrite Hp3|].
  apply bind_Ret_inv in H as ([children2 es2] & w4 & Hother & H).
  injection H as <- <-. simpl.
  rewrite <- Hp3 in Ht1.
  refine (otherProcess_keeps_tracked _ _ _ _ _ _ _ _ Ht1 _ Hother).
  unfold next_fork_fresh in *. rewrite Hf3, Hp3, Hf1.
  destruct (forks w) as [|[[pid p]|] rest]; try exact I.
  destruct Hfresh as [Hnone Hp]. split; [now apply Hnone1 | exact Hp].
Qed.

(** * Properties of the rest of the shell *)

(** ** Words *)

Lemma line_words_from_word word : forall acc rest,
  no_space word = true ->
  line_words_from acc (word ++ rest)%string
  = line_words_from (acc ++ word)%string rest.
Proof.
  induction word as [|c word IH]; intros acc rest Hns.
  - now rewrite string_app_empty_r.
  - simpl in Hns. apply andb_prop in Hns as [Hc Hns].
    apply negb_true_iff in Hc. rewrite string_app_cons. simpl.
    rewrite Hc, IH by exact Hns. f_equal.
    rewrite string_app_assoc. reflexivity.
Qed.

Lemma line_words_from_space word rest :
  word <> EmptyString ->
  line_words_from word (String " " rest) = word :: line_words_from EmptyString rest.
Proof. destruct word; [contradiction | reflexivity]. Qed.

Lemma line_words_from_end word :
  word <> EmptyString -> line_words_from word EmptyString = [word].
Proof. destruct word; [contradiction | reflexivity]. Qed.

Lemma line_words_join ws :
  forallb is_word ws = true -> line_words (join ws) = ws.
Proof.
  unfold line_words. induction ws as [|word ws IH]; intros Hws; [reflexivity|].
  simpl in Hws. apply andb_prop in Hws as [Hword Hws].
  assert (Hns : no_space word = true) by (destruct word; [discriminate | exact Hword]).
  assert (Hne : word <> EmptyString) by (destruct word; discriminate).
  destruct ws as [|word' ws].
  - change (join [word]) with word. rewrite <- (string_app_empty_r word) at 1.
    rewrite line_words_from_word by exact Hns.
    change (EmptyString ++ word)%string with word.
    now apply line_words_from_end.
  - change (join (word :: word' :: ws))
      with (word ++ String " " (join (word' :: ws)))%string.
    rewrite line_words_from_word by exact Hns.
    change (EmptyString ++ word)%string with word.
    rewrite line_words_from_space by exact Hne. now rewrite (IH Hws).
Qed.

Lemma last_numbered ws : forall counter tail,
  last (numbered counter ws) = Some tail -> last ws = Some (text tail).
Proof.
  induction ws as [|word ws IH]; intros counter tail; [discriminate|].
  destruct ws as [|word' ws].
  - simpl. intros H. injection H as <-. reflexivity.
  - intros H. apply (IH (counter + 1) tail). exact H.
Qed.

Lemma separateInput_of_words ws w :
  ws <> [] -> forallb is_word ws = true -> last ws <> Some "&" ->
  separateInput (join ws) w = Ret (numbered 0 ws) w.
Proof.
  intros Hne Hws Hlast. rewrite separateInput_words, (line_words_join _ Hws).
  cbn zeta. destruct (last (numbered 0 ws)) as [tail|] eqn:E.
  - apply last_numbered in E.
    destruct (String.eqb_spec (text tail) "&") as [Heq|]; [|reflexivity].
    rewrite Heq in E. contradiction.
  - destruct ws; [contradiction|]. apply last_None in E. discriminate.
Qed.

(** X1.  A command typed as words with one space between them comes back
    from separateInput as those words, in order, numbered from 0, in the
    foreground and without redirection, when its last word is not [&]. *)
Theorem separateInput_join (ws : list string) (w : World) :
  ws <> [] -> forallb is_word ws = true -> last ws <> Some "&" ->
  separateInput (join ws) w = Ret (numbered 0 ws) w.
Proof. apply separateInput_of_words. Qed.

Lemma separateInput_join_witness :
  separateInput (join ["ls"; "&"; "-l"]) world0
  = Ret (numbered 0 ["ls"; "&"; "-l"]) world0.
Proof.
  apply separateInput_join; [discriminate | reflexivity | discriminate].
Defined.

Lemma line_words_leading_spaces n s : line_words (spaces n ++ s)%string = line_words s.
Proof. unfold line_words. induction n as [|n IH]; [reflexivity | exact IH]. Qed.

Lemma line_words_from_trailing_spaces m : forall acc,
  line_words_from acc (spaces m) = line_words_from acc EmptyString.
Proof.
  induction m as [|m IH]; intros acc; [reflexivity|].
  simpl. rewrite IH. destruct acc; reflexivity.
Qed.

Lemma line_words_trailing_spaces s m : forall acc,
  line_words_from acc (s ++ spaces m)%string = line_words_from acc s.
Proof.
  induction s as [|c s IH]; intros acc.
  - apply line_words_from_trailing_spaces.
  - rewrite string_app_cons. simpl. destruct (Ascii.eqb c " ").
    + rewrite IH. reflexivity.
    + apply IH.
Qed.

(** X2.  Spaces before the first word and after the last one change nothing:
    separateInput gives the same result as without them. *)
Theorem separateInput_outer_spaces (n m : nat) (s : string) (w : World) :
  separateInput (spaces n ++ s ++ spaces m) w = separateInput s w.
Proof.
  rewrite !separateInput_words, line_words_leading_spaces.
  unfold line_words. now rewrite line_words_trailing_spaces.
Qed.

Lemma no_space_app a b :
  no_space a = true -> no_space b = true -> no_space (a ++ b)%string = true.
Proof.
  induction a as [|c a IH]; intros Ha Hb; [exact Hb|].
  rewrite string_app_cons. simpl in *. apply andb_prop in Ha as [Hc Ha].
  rewrite Hc. now apply IH.
Qed.

Lemma is_word_no_space acc :
  acc <> EmptyString -> no_space acc = true -> is_word acc = true.
Proof. destruct acc; [contradiction | now intros _ H]. Qed.

Lemma line_words_from_are_words s : forall acc,
  no_space acc = true -> forallb is_word (line_words_from acc s) = true.
Proof.
  induction s as [|c s IH]; intros acc Hacc; cbn [line_words_from].
  - destruct acc; [reflexivity|]. cbn [forallb]. unfold is_word.
    now rewrite Hacc.
  - destruct (Ascii.eqb c " ") eqn:E.
    + destruct acc; [now apply IH|].
      cbn [forallb]. rewrite (IH EmptyString eq_refl).
      unfold is_word. now rewrite Hacc.
    + apply IH. apply no_space_app; [exact Hacc|]. simpl. now rewrite E.
Qed.

Lemma numbered_positions ws : forall counter,
  map position (numbered counter ws)
  = map (fun k => counter + Z.of_nat k) (seq 0 (length ws)).
Proof.
  induction ws as [|word ws IH]; intros counter; [reflexivity|].
  simpl. rewrite Z.add_0_r. f_equal. rewrite IH, <- seq_shift, map_map.
  apply map_ext. intros k. lia.
Qed.

Lemma numbered_plain ws : forall counter,
  Forall (fun a => redirInput a = None /\ redirOutput a = None /\
                   background a = false) (numbered counter ws).
Proof.
  induction ws as [|word ws IH]; intros counter; simpl; constructor;
    [repeat split | apply IH].
Qed.

Lemma length_numbered ws : forall counter, length (numbered counter ws) = length ws.
Proof.
  induction ws as [|word ws IH]; intros counter; [reflexivity|].
  simpl. now rewrite IH.
Qed.

(** What setBackground leaves of the nodes of a line that ends in [x]. *)
Lemma setBackground_numbered ws0 x w :
  setBackground (numbered 0 (ws0 ++ [x])) w
  = Ret (on_head (if backgroundOnly w then (fun a => a) else set_background true)
                 (numbered 0 (match ws0 with [] => [x] | _ :: _ => ws0 end))) w.
Proof.
  destruct ws0 as [|w1 ws0]; [simpl; now destruct (backgroundOnly w)|].
  simpl app. simpl numbered. rewrite numbered_app. simpl numbered at 2.
  unfold setBackground.
  destruct (numbered (0 + 1) ws0) as [|a l] eqn:E.
  - destruct ws0; [|discriminate]. simpl. now destruct (backgroundOnly w).
  - simpl app. rewrite <- E at 1.
    change (a :: l ++ [set_position (0 + 1 + Z.of_nat (length ws0)) (makeArgument x)])
      with ((a :: l) ++ [set_position (0 + 1 + Z.of_nat (length ws0)) (makeArgument x)]).
    rewrite removelast_last. simpl. rewrite E. now destruct (backgroundOnly w).
Qed.

(** X3.  Whenever separateInput returns, it has left the world alone and the
    list it returns has a first node; every word is one character or more
    without a space; the nodes are numbered 0, 1, 2, ... in order; no node
    carries a redirection; and no node but the first is marked background. *)
Theorem separateInput_well_formed (s : string) (w w' : World)
    (head : list argument) :
  separateInput s w = Ret head w' ->
  w' = w /\ head <> [] /\
  forallb is_word (words head) = true /\
  map position head = map Z.of_nat (seq 0 (length head)) /\
  Forall (fun a => redirInput a = None /\ redirOutput a = None) head /\
  Forall (fun a => background a = false) (tl head).
Proof.
  rewrite separateInput_words. cbn zeta.
  pose proof (line_words_from_are_words s EmptyString eq_refl) as Hwords.
  fold (line_words s) in Hwords.
  assert (Hgen : forall ws (f : argument -> argument),
            ws <> [] -> forallb is_word ws = true ->
            (forall a, text (f a) = text a /\ position (f a) = position a /\
                       redirInput (f a) = redirInput a /\
                       redirOutput (f a) = redirOutput a) ->
            let l := on_head f (numbered 0 ws) in
            l <> [] /\ forallb is_word (words l) = true /\
            map position l = map Z.of_nat (seq 0 (length l)) /\
            Forall (fun a => redirInput a = None /\ redirOutput a = None) l /\
            Forall (fun a => background a = false) (tl l)).
  { intros ws f Hne Hws Hf. destruct ws as [|w1 ws]; [contradiction|].
    assert (Hpos : map position (numbered 0 (w1 :: ws))
                   = map Z.of_nat (seq 0 (length (numbered 0 (w1 :: ws))))).
    { rewrite numbered_positions, length_numbered. apply map_ext. intros; lia. }
    pose proof (numbered_plain (w1 :: ws) 0) as Hplain.
    pose proof (words_numbered (w1 :: ws) 0) as Hw.
    cbn [numbered] in *. cbn [on_head]. cbn zeta.
    destruct (Hf (set_position 0 (makeArgument w1))) as (Ht & Hp & Hi & Ho).
    apply Forall_cons_iff in Hplain as [(H1 & H2 & _) Hplain].
    split; [discriminate|]. split; [|split; [|split]].
    - unfold words in *. cbn [map] in *. injection Hw as Hw.
      rewrite Ht, Hw. exact Hws.
    - etransitivity; [|exact Hpos]. cbn [map]. now rewrite Hp.
    - constructor; [split; congruence|].
      eapply List.Forall_impl; [|exact Hplain]. intros a (? & ? & _). now split.
    - cbn [tl]. eapply List.Forall_impl; [|exact Hplain]. now intros a (_ & _ & ?). }
  destruct (last (numbered 0 (line_words s))) as [tail|] eqn:E; [|discriminate].
  assert (Hne : line_words s <> []) by (intros H; rewrite H in E; discriminate).
  destruct (text tail =? "&")%string eqn:Eamp.
  - pose proof (last_numbered _ _ _ E) as Hlast.
    apply last_Some in Hlast as [ws0 Hws0]. rewrite Hws0, setBackground_numbered.
    intros H. injection H as <- <-. split; [reflexivity|].
    apply Hgen.
    + destruct ws0; discriminate.
    + rewrite Hws0, forallb_app in Hwords. destruct ws0; [|now apply andb_prop in Hwords].
      apply String.eqb_eq in Eamp. now rewrite Eamp.
    + intros a. destruct (backgroundOnly w); repeat split.
  - intros H. injection H as <- <-. split; [reflexivity|].
    destruct (line_words s) as [|w1 ws]; [contradiction|].
    apply (Hgen (w1 :: ws) (fun a => a) Hne Hwords).
    intros a. repeat split.
Qed.

Lemma separateInput_well_formed_witness :
  exists head,
    separateInput "  sleep 5  & " world0 = Ret head world0 /\
    words head = ["sleep"; "5"] /\
    map position head = [0; 1].
Proof.
  eexists. split; [vm_compute; reflexivity|].
  pose proof (separateInput_well_formed "  sleep 5  & " world0 world0 _
                ltac:(vm_compute; reflexivity)) as (_ & _ & _ & Hpos & _).
  split; [reflexivity | exact Hpos].
Defined.

(** ** Redirections at the edges *)

(** X4.  A line that is only a redirection.  For [> file], redirectIO finds
    no node before [>]: it records the file in the first node and removes
    nothing, so [>] and the file stay as the words of the command.  For
    [< file], the same place frees the whole list, the first node included,
    and the second call of redirectIO in otherProcess reads the freed node:
    otherProcess stops there, before fork. *)
Theorem redirection_without_command (gt lt file : argument)
    (children : list Z) (es : endStatus) (cs : Z) (w : World) :
  text gt = ">" -> text lt = "<" ->
  otherProcess_redirect [gt; file] w
  = Ret (Live [set_redirOutput (text file) gt; file]) w /\
  redirectIO (Live [lt; file]) w = Ret (true, Dangling) w /\
  otherProcess [lt; file] children es cs w = Fault UseAfterFree w.
Proof.
  intros Hgt Hlt.
  assert (H : redirectIO (Live [lt; file]) w = Ret (true, Dangling) w).
  { unfold redirectIO. simpl. now rewrite Hlt. }
  split; [|split; [exact H|]].
  - unfold otherProcess_redirect, redirectIO. simpl. rewrite Hgt. simpl.
    unfold mbind, M_bind, bind, mret, M_ret, ret. simpl. now rewrite Hgt.
  - unfold otherProcess, otherProcess_redirect, mbind, M_bind, bind.
    now rewrite H.
Qed.

Lemma redirection_without_command_witness :
  otherProcess (numbered 0 ["<"; "in.txt"]) [] (mkEndStatus true 0) 0 world0
  = Fault UseAfterFree world0.
Proof.
  exact (proj2 (proj2 (redirection_without_command
                         (makeArgument ">") (set_position 0 (makeArgument "<"))
                         (set_position 1 (makeArgument "in.txt"))
                         [] (mkEndStatus true 0) 0 world0 eq_refl eq_refl))).
Defined.

Lemma words_app (l1 l2 : list argument) : words (l1 ++ l2) = words l1 ++ words l2.
Proof. apply map_app. Qed.

Lemma length_words (l : list argument) : length (words l) = length l.
Proof. apply length_map. Qed.

Lemma redirectIO_strips h t w :
  text h <> "<" ->
  exists found h' t' k,
    redirectIO (Live (h :: t)) w = Ret (found, Live (h' :: t')) w /\
    (k = 0 \/ k = 2)%nat /\
    (found = false -> k = 0%nat) /\
    length (h' :: t') = (length (h :: t) - k)%nat /\
    words (h' :: t') = firstn (length (h :: t) - k) (words (h :: t)) /\
    text h' = text h /\ background h' = background h /\
    position h' = position h.
Proof.
  intros Hh.
  assert (Hall : forall (l : list argument),
            firstn (length l - 0) (words l) = words l).
  { intros l. rewrite Nat.sub_0_r, <- length_words. apply firstn_all. }
  destruct t as [|b l].
  - exists false, h, [], 0%nat. repeat split; auto.
  - destruct (last_two_Some h b l) as (pre & p & c & H & E).
    rewrite (redirectIO_last_two _ _ _ _ w H).
    assert (Hstrip : forall pre', pre = h :: pre' ->
              length (h :: pre') = (length (h :: b :: l) - 2)%nat /\
              words (h :: pre')
              = firstn (length (h :: b :: l) - 2) (words (h :: b :: l))).
    { intros pre' ->. rewrite E, length_app, words_app. simpl length.
      replace (S (length pre') + 2 - 2)%nat with (length (words (h :: pre')))
        by (rewrite length_words; simpl; lia).
      split; [now rewrite length_words|].
      now rewrite firstn_app, Nat.sub_diag, firstn_all, app_nil_r. }
    destruct (text p =? ">")%string eqn:Egt.
    + destruct pre as [|x pre].
      * exists true, (set_redirOutput (text c) h), (b :: l), 0%nat.
        repeat split; auto; try discriminate;
          try (symmetry; apply (Hall (h :: b :: l))).
      * assert (x = h) by (injection E; auto). subst x.
        destruct (Hstrip pre eq_refl) as [Hlen Hw].
        exists true, (set_redirOutput (text c) h), pre, 2%nat.
        repeat split; auto; discriminate.
    + destruct (text p =? "<")%string eqn:Elt.
      * destruct pre as [|x pre].
        -- injection E as <- _ _. apply String.eqb_eq in Elt. contradiction.
        -- assert (x = h) by (injection E; auto). subst x.
           destruct (Hstrip pre eq_refl) as [Hlen Hw].
           exists true, (set_redirInput (text c) h), pre, 2%nat.
           repeat split; auto; discriminate.
      * exists false, h, (b :: l), 0%nat.
        repeat split; auto; try (symmetry; apply (Hall (h :: b :: l))).
Qed.

(** X5.  For a command whose first word is not [<], the redirection step of
    otherProcess never fails and only cuts words off the end of the command:
    none, the last two or the last four.  The words that stay are the same
    words in the same order, and the first node keeps its text, its position
    and its [background]. *)
Theorem otherProcess_redirect_cuts_suffix (h : argument) (t : list argument)
    (w : World) :
  text h <> "<" ->
  exists h' t' k,
    otherProcess_redirect (h :: t) w = Ret (Live (h' :: t')) w /\
    (k = 0 \/ k = 2 \/ k = 4)%nat /\
    words (h' :: t') = firstn (length (h :: t) - k) (words (h :: t)) /\
    text h' = text h /\ background h' = background h /\
    position h' = position h.
Proof.
  intros Hh. unfold otherProcess_redirect.
  destruct (redirectIO_strips h t w Hh)
    as (found & h1 & t1 & k1 & H1 & Hk1 & Hf1 & Hl1 & Hw1 & Ht1 & Hb1 & Hp1).
  rewrite (bind_Ret _ _ _ _ _ H1). destruct found.
  - assert (Hh1 : text h1 <> "<") by now rewrite Ht1.
    destruct (redirectIO_strips h1 t1 w Hh1)
      as (f2 & h2 & t2 & k2 & H2 & Hk2 & _ & Hl2 & Hw2 & Ht2 & Hb2 & Hp2).
    rewrite (bind_Ret _ _ _ _ _ H2). exists h2, t2, (k1 + k2)%nat.
    split; [reflexivity|]. split; [lia|].
    split; [|repeat split; congruence].
    rewrite Hw2, Hw1, Hl1, firstn_firstn. f_equal. lia.
  - exists h1, t1, 0%nat. rewrite (Hf1 eq_refl) in Hw1.
    repeat split; auto.
Qed.

Lemma otherProcess_redirect_cuts_suffix_witness :
  exists h' t' k,
    otherProcess_redirect (numbered 0 ["wc"; "-l"; "<"; "in"; ">"; "out"]) world0
    = Ret (Live (h' :: t')) world0 /\
    (k = 0 \/ k = 2 \/ k = 4)%nat /\
    words (h' :: t')
    = firstn (6 - k) ["wc"; "-l"; "<"; "in"; ">"; "out"] /\
    text h' = "wc" /\ background h' = false /\ position h' = 0.
Proof.
  apply (otherProcess_redirect_cuts_suffix
           (set_position 0 (makeArgument "wc"))
           (numbered 1 ["-l"; "<"; "in"; ">"; "out"]) world0).
  discriminate.
Defined.

(** X6.  A redirection is seen only in front of the last word that is left:
    when the word before the last is neither [>] nor [<], the redirection
    step changes nothing, whatever the earlier words are (so in
    [echo > out more] the three last words stay arguments). *)
Theorem redirection_only_before_last_word (pre : list argument)
    (previous current : argument) (w : World) :
  text previous <> ">" -> text previous <> "<" ->
  otherProcess_redirect (pre ++ [previous; current]) w
  = Ret (Live (pre ++ [previous; current])) w.
Proof.
  intros Hgt Hlt. unfold otherProcess_redirect.
  now rewrite (bind_Ret _ _ _ _ _ (redirectIO_none _ _ _ w Hgt Hlt)).
Qed.

Lemma redirection_only_before_last_word_witness :
  otherProcess_redirect (numbered 0 ["echo"; ">"; "out"; "more"]) world0
  = Ret (Live (numbered 0 ["echo"; ">"; "out"; "more"])) world0.
Proof.
  apply (redirection_only_before_last_word
           (numbered 0 ["echo"; ">"]) (set_position 2 (makeArgument "out"))
           (set_position 3 (makeArgument "more")) world0); discriminate.
Defined.

(** ** The Job Table at the edges *)

(** X7.  removeChildProc removes the first record that holds the pid and
    nothing else: a table without the pid comes back as it is, and of
    several records with the pid only the first goes. *)
Theorem removeChildProc_first_only (head : list Z) (id : Z) :
  (~ In id head /\ removeChildProc head id = head) \/
  (exists pre post,
     head = pre ++ id :: post /\ ~ In id pre /\
     removeChildProc head id = pre ++ post).
Proof.
  induction head as [|c head IH].
  - left. split; [intros [] | reflexivity].
  - simpl. destruct (Z.eqb_spec c id) as [->|Hne].
    + right. exists [], head. repeat split. intros [].
    + destruct IH as [[Hin Hrm]|(pre & post & -> & Hpre & Hrm)].
      * left. split; [|now rewrite Hrm]. intros [H|H]; contradiction.
      * right. exists (c :: pre), post. split; [reflexivity|].
        split; [|now rewrite Hrm]. intros [H|H]; contradiction.
Qed.

Lemma reap_events_running (m : gmap Z proc) table :
  (forall id, In id table -> ended m id = false) ->
  (forall id, In id table -> m !! id <> None) ->
  reap_events m table = map (fun id => EWaitpid id WNOHANG 0) table.
Proof.
  induction table as [|id table IH]; intros Hrun Hchild; [reflexivity|].
  simpl. pose proof (Hrun id (or_introl eq_refl)) as H.
  pose proof (Hchild id (or_introl eq_refl)) as H'. unfold ended in H.
  rewrite IH;
    [| intros; apply Hrun; now right | intros; apply Hchild; now right].
  destruct (m !! id) as [[fate ont|t]|]; [reflexivity | discriminate | contradiction].
Qed.

Lemma filter_all {A} (f : A -> bool) (l : list A) :
  (forall x, In x l -> f x = true) -> List.filter f l = l.
Proof.
  induction l as [|a l IH]; intros H; [reflexivity|].
  simpl. rewrite (H a (or_introl eq_refl)). f_equal. apply IH.
  intros x Hx. apply H. now right.
Qed.

(** X8.  A second reap pass right after a first one finds nothing: it checks
    each record that is left once, prints no announcement and returns the
    table as the first pass left it. *)
Theorem reap_pass_twice (table : list Z) (cs cs' : Z) (w : World) :
  tracked (procs w) table ->
  exists table1 w1 w2,
    checkTerminatedChildren table false cs w = Ret table1 w1 /\
    checkTerminatedChildren table1 false cs' w1 = Ret table1 w2 /\
    trace w2 = trace w1 ++ map (fun id => EWaitpid id WNOHANG 0) table1 /\
    procs w2 = procs w1.
Proof.
  intros Htracked. pose proof Htracked as [Hnd Hok].
  destruct (reap_loop_tracked table [] cs w Hnd Hok)
    as (w1 & Hrun1 & _ & _ & Hkept & _).
  simpl app in Hrun1. fold (checkTerminatedChildren table false cs) in Hrun1.
  destruct (checkTerminatedChildren_keeps_tracked _ _ _ _ _ Htracked Hrun1)
    as ([Hnd1 Hok1] & _ & _).
  set (table1 := List.filter (fun id => negb (ended (procs w) id)) table) in *.
  destruct (reap_loop_tracked table1 [] cs' w1 Hnd1 Hok1)
    as (w2 & Hrun2 & Htr2 & _ & Hkept2 & _).
  simpl app in Hrun2. fold (checkTerminatedChildren table1 false cs') in Hrun2.
  assert (Halive : forall id, In id table1 -> ended (procs w1) id = false).
  { intros id Hin. apply List.filter_In in Hin as [_ Hin].
    apply negb_true_iff in Hin. unfold ended in *. now rewrite (Hkept id Hin). }
  exists table1, w1, w2. split; [exact Hrun1|]. split; [|split].
  - rewrite Hrun2. f_equal. apply filter_all. intros id Hin.
    now rewrite (Halive id Hin).
  - rewrite Htr2. f_equal. apply reap_events_running; [exact Halive|].
    intros id Hin. rewrite List.Forall_forall in Hok1.
    destruct (Hok1 id Hin) as [_ H]. intros Hnone. now rewrite Hnone in H.
  - apply map_eq. intros id. destruct (ended (procs w1) id) eqn:E.
    + (* an ended child that the table does not track is left alone *)
      destruct (in_dec Z.eq_dec id table1) as [Hin|Hout].
      * rewrite (Halive id Hin) in E. discriminate.
      * clear -Hrun2 Hout Hnd1 Hok1.
        revert Hrun2. unfold checkTerminatedChildren.
        assert (Hgen : forall cur pre c w0 r w',
                  ~ In id cur ->
                  checkTerminatedChildren_loop cur pre false c w0 = Ret r w' ->
                  procs w' !! id = procs w0 !! id).
        { induction cur as [|x cur IH]; intros pre c w0 r w' Hx H.
          - now injection H as _ <-.
          - simpl in H. apply bind_Ret_inv in H as ([ws st] & w3 & Hwait & H).
            assert (Hw3 : procs w3 !! id = procs w0 !! id).
            { unfold waitpid in Hwait.
              destruct (procs w0 !! x) as [[fate ont|t]|] eqn:Ex; simpl in Hwait;
                injection Hwait as _ _ <-; try reflexivity.
              simpl. apply lookup_delete_ne. intros ->. apply Hx. now left. }
            destruct (ws =? 0).
            + rewrite <- Hw3. apply (IH _ _ _ _ _ ltac:(intros ?; apply Hx; now right) H).
            + apply bind_Ret_inv in H as (? & w4 & Hprint & H).
              assert (Hw4 : procs w4 = procs w3).
              { destruct (WIFEXITED st); now injection Hprint as _ <-. }
              rewrite <- Hw3, <- Hw4.
              apply (IH _ _ _ _ _ ltac:(intros ?; apply Hx; now right) H). }
        intros H. apply (Hgen _ _ _ _ _ _ Hout H).
    + now apply Hkept2.
Qed.

Lemma reap_pass_twice_witness :
  exists table1 w1 w2,
    checkTerminatedChildren [5; 7] false 0 two_children = Ret table1 w1 /\
    checkTerminatedChildren table1 false 0 w1 = Ret table1 w2 /\
    trace w2 = trace w1 ++ map (fun id => EWaitpid id WNOHANG 0) table1 /\
    procs w2 = procs w1.
Proof.
  apply (reap_pass_twice [5; 7] 0 0 two_children). split.
  - refine (bool_decide_unpack _ _). vm_compute. exact I.
  - repeat constructor; simpl; lia.
Defined.





(** X10.  [exit] waits for the tracked children one after the other, so
    one child that neither SIGTERM nor anything else ends keeps the shell in
    waitpid for ever: the records before it have been drained, the child has
    been sent SIGTERM, and the records behind it are never reached. *)
Theorem exit_never_returns_on_survivor (cmd : argument) (args : list argument)
    (pre post : list Z) (id : Z) (fate : option termination)
    (es : endStatus) (w : World) :
  text cmd = "exit" ->
  NoDup (pre ++ [id]) ->
  (forall x, In x pre ->
     exists p t, procs w !! x = Some p /\ ends_on_sigterm p = Some t) ->
  procs w !! id = Some (Running fate None) ->
  exists w',
    builtIn (cmd :: args) (pre ++ id :: post) es w = Block w' /\
    trace w' = trace w ++ drain_events pre ++ [EKill id SIGTERM].
Proof.
  intros Hcmd Hnd Hok Hid. unfold builtIn. rewrite Hcmd. simpl.
  assert (Hgen : forall cs w0,
            (forall x, In x pre ->
               exists p t, procs w0 !! x = Some p /\ ends_on_sigterm p = Some t) ->
            procs w0 !! id = Some (Running fate None) ->
            exists w',
              killChildren (pre ++ id :: post) cs w0 = Block w' /\
              trace w' = trace w0 ++ drain_events pre ++ [EKill id SIGTERM]).
  { clear Hok Hid. induction pre as [|x pre IH]; intros cs w0 Hok Hid.
    - simpl. unfold mbind, M_bind, bind, kill. rewrite Hid. unfold waitpid.
      simpl. rewrite lookup_insert_eq. simpl. eexists. split; reflexivity.
    - simpl app in Hnd. apply NoDup_cons in Hnd as [Hx Hnd].
      assert (Hne : id <> x).
      { intros ->. apply Hx. apply list_elem_of_In, in_or_app. right. now left. }
      destruct (Hok x (or_introl eq_refl)) as (p & t & Hp & He).
      destruct (kill_then_wait w0 x p t cs Hp He)
        as (w1 & Hrun & Htr & _ & Hsame).
      destruct (IH Hnd (wstatus t) w1) as (w' & Hblock & Htr').
      { intros y Hy. rewrite Hsame; [apply Hok; now right|].
        intros ->. apply Hx. apply list_elem_of_In, in_or_app. now left. }
      { now rewrite Hsame. }
      exists w'. split.
      + simpl killChildren. unfold mbind, M_bind, bind in Hrun |- *.
        destruct (kill x SIGTERM w0) as [[] w2| | |]; try discriminate.
        rewrite Hrun. exact Hblock.
      + rewrite Htr', Htr. simpl. now rewrite <- !app_assoc. }
  destruct (Hgen 0 w Hok Hid) as (w' & Hblock & Htr).
  exists w'. split; [|exact Htr]. now rewrite (bind_Block _ _ _ _ Hblock).
Qed.

Lemma exit_never_returns_on_survivor_witness :
  exists w',
    builtIn [makeArgument "exit"] ([5] ++ 7 :: [9]) (mkEndStatus true 0)
      (set_procs (<[5 := Zombie (Exited 0)]> (<[7 := Running None None]> ∅)) world0)
    = Block w' /\
    trace w' = [] ++ drain_events [5] ++ [EKill 7 SIGTERM].
Proof.
  apply (exit_never_returns_on_survivor (makeArgument "exit") [] [5] [9] 7 None
           (mkEndStatus true 0)
           (set_procs (<[5 := Zombie (Exited 0)]> (<[7 := Running None None]> ∅))
                      world0)).
  - reflexivity.
  - refine (bool_decide_unpack _ _). vm_compute. exact I.
  - intros x [<-|[]]. eexists _, _. split; reflexivity.
  - reflexivity.
Defined.

(** X11.  Every turn of the loop of main that returns keeps the Job Table a
    table of distinct positive pids of children that have not been waited
    for, given that the pid of the next child is not the pid of such a
    child: a foreground child is removed as soon as it has been waited for,
    a background child is added once, and the reap pass removes a record
    exactly when it has waited for its child. *)
Theorem job_table_tracks_children (processID : Z) (u : indeterminate)
    (sh sh' : shell) (w w' : World) :
  tracked (procs w) (children sh) -> next_fork_fresh w ->
  main_body processID u sh w = Ret sh' w' ->
  tracked (procs w') (children sh').
Proof. apply main_body_keeps_tracked. Qed.

(** A turn that reaps child 5 and starts [sleep 100] in the background as
    child 9. *)
Lemma job_table_tracks_children_witness :
  exists w',
    main_body 4821 stale (mkShell [5; 7] (mkEndStatus true 0))
      (set_forks [Some (9%positive, daemon)]
                 (set_stdin ("sleep 100 &" ++ nl) two_children))
    = Ret (mkShell [7; 9] (mkEndStatus true 0)) w' /\
    tracked (procs w') [7; 9].
Proof.
  eexists. split; [vm_compute; reflexivity|].
  apply (job_table_tracks_children 4821 stale
           (mkShell [5; 7] (mkEndStatus true 0))
           (mkShell [7; 9] (mkEndStatus true 0))
           (set_forks [Some (9%positive, daemon)]
                      (set_stdin ("sleep 100 &" ++ nl) two_children))).
  - split.
    + refine (bool_decide_unpack _ _). vm_compute. exact I.
    + repeat constructor; simpl; lia.
  - split; [reflexivity | exact I].
  - vm_compute. reflexivity.
Defined.

(** ** Reading a line at the edges *)

(** X12.  A line without [$], shorter than the line buffer, is read up to
    its newline and not beyond; an empty line and a line that starts with
    [#] give no command, and any other line goes to separateInput as typed,
    whatever the buffer held before. *)
Theorem plain_line_read_whole (processID : Z) (input : buffer)
    (s rest : string) (w : World) :
  plain s = true -> (String.length s < LINE_LENGTH)%nat ->
  getInput processID input (set_stdin (s ++ nl ++ rest) w)
  = (if nothing_to_run s then mret [] else separateInput s)
      (log (EPrint ": ") (set_stdin rest w)).
Proof. apply getInput_plain. Qed.

Lemma plain_line_read_whole_witness :
  getInput 4821 zeros (set_stdin ("# a comment" ++ nl ++ "ls" ++ nl) world0)
  = Ret [] (log (EPrint ": ") (set_stdin ("ls" ++ nl) world0)).
Proof.
  apply (plain_line_read_whole 4821 zeros "# a comment" ("ls" ++ nl) world0).
  - reflexivity.
  - apply Nat.ltb_lt. vm_compute. reflexivity.
Defined.

Lemma getInput_loop_char fuel processID input i w c rest :
  stdin w = String c rest ->
  Ascii.eqb c LF = false -> Ascii.eqb c "$" = false ->
  getInput_loop (S fuel) processID input i w
  = (store input i c ≫= fun input => getInput_loop fuel processID input (S i))
      (set_stdin rest w).
Proof.
  intros Hin Hlf Hdollar. simpl getInput_loop.
  unfold getchar, mbind at 1, M_bind, bind at 1.
  now rewrite Hin, Hlf, Hdollar.
Qed.

Lemma plain_cons c s :
  plain (String c s) = true ->
  Ascii.eqb c LF = false /\ Ascii.eqb c "$" = false /\ plain s = true.
Proof.
  simpl. intros H.
  apply andb_prop in H as [H Hs].
  apply andb_prop in H as [H _].
  apply andb_prop in H as [Hlf Hdollar].
  apply negb_true_iff in Hlf, Hdollar. auto.
Qed.

Lemma getInput_loop_overflow s : forall fuel processID input i w rest,
  plain s = true ->
  (i <= LINE_LENGTH)%nat -> (LINE_LENGTH <= i + String.length s)%nat ->
  (LINE_LENGTH < fuel + i)%nat ->
  stdin w = (s ++ nl ++ rest)%string ->
  (exists w', getInput_loop fuel processID input i w = Fault BufferOverflow w') \/
  (exists input' w',
     getInput_loop fuel processID input i w = Ret (input', LINE_LENGTH) w').
Proof.
  induction s as [|c s IH]; intros fuel processID input i w rest Hplain Hi Hlen Hfuel Hin;
    (destruct fuel as [|fuel]; [lia|]).
  - right. simpl in Hlen. assert (i = LINE_LENGTH) by lia. subst i.
    simpl getInput_loop. unfold getchar, mbind, M_bind, bind. rewrite Hin.
    simpl. eexists _, _. reflexivity.
  - apply plain_cons in Hplain as (Hlf & Hdollar & Hs).
    rewrite string_app_cons in Hin.
    rewrite (getInput_loop_char _ _ _ _ _ _ _ Hin Hlf Hdollar).
    destruct (store_cases input i c (set_stdin (s ++ nl ++ rest) w))
      as [H|(b & H & Hlt)].
    + left. rewrite (bind_Fault _ _ _ _ _ H). eexists. reflexivity.
    + rewrite (bind_Ret _ _ _ _ _ H).
      apply (IH fuel processID b (S i) _ rest Hs); simpl in *; try lia.
      reflexivity.
Qed.

(** X13.  getInput does not check the length of the line: a line without
    [$] of LINE_LENGTH characters or more is written past the end of the
    line buffer. *)
Theorem long_line_overflows (processID : Z) (input : buffer)
    (s rest : string) (w : World) :
  plain s = true -> (LINE_LENGTH <= String.length s)%nat ->
  exists w',
    getInput processID input (set_stdin (s ++ nl ++ rest) w)
    = Fault BufferOverflow w'.
Proof.
  intros Hplain Hlen. unfold getInput, printf. rewrite bind_emit.
  destruct (getInput_loop_overflow s (S LINE_LENGTH) processID input 0
              (log (EPrint ": ") (set_stdin (s ++ nl ++ rest) w)) rest Hplain
              ltac:(lia) ltac:(simpl; lia) ltac:(lia) eq_refl)
    as [(w' & H)|(input' & w' & H)].
  - exists w'. now rewrite (bind_Fault _ _ _ _ _ H).
  - exists w'. rewrite (bind_Ret _ _ _ _ _ H). cbn beta iota.
    unfold store. rewrite Nat.ltb_irrefl. reflexivity.
Qed.

Lemma long_line_overflows_witness :
  exists w',
    getInput 4821 zeros (set_stdin (spaces LINE_LENGTH ++ nl) world0)
    = Fault BufferOverflow w'.
Proof.
  apply (long_line_overflows 4821 zeros (spaces LINE_LENGTH) "" world0).
  - apply plain_spaces.
  - rewrite length_spaces. lia.
Defined.

Lemma getInput_loop_eof fuel processID : forall input i w,
  stdin w = EmptyString ->
  (i <= LINE_LENGTH)%nat -> (LINE_LENGTH < fuel + i)%nat ->
  exists w', getInput_loop fuel processID input i w = Fault BufferOverflow w'.
Proof.
  induction fuel as [|fuel IH]; intros input i w Hin Hi Hfuel; [lia|].
  simpl getInput_loop. unfold getchar, mbind at 1, M_bind, bind at 1.
  rewrite Hin. change (Ascii.eqb "255" LF) with false.
  change (Ascii.eqb "255" "$") with false. cbn iota.
  destruct (store_cases input i "255"%char w) as [H|(b & H & Hlt)].
  - rewrite (bind_Fault _ _ _ _ _ H). eauto.
  - rewrite (bind_Ret _ _ _ _ _ H). apply IH; [exact Hin | lia | lia].
Qed.

Lemma getInput_loop_unfinished s : forall fuel processID input i w,
  plain s = true -> stdin w = s ->
  (i <= LINE_LENGTH)%nat -> (LINE_LENGTH < fuel + i)%nat ->
  exists w', getInput_loop fuel processID input i w = Fault BufferOverflow w'.
Proof.
  induction s as [|c s IH]; intros fuel processID input i w Hplain Hin Hi Hfuel.
  - apply getInput_loop_eof; assumption.
  - destruct fuel as [|fuel]; [lia|].
    apply plain_cons in Hplain as (Hlf & Hdollar & Hs).
    rewrite (getInput_loop_char _ _ _ _ _ _ _ Hin Hlf Hdollar).
    destruct (store_cases input i c (set_stdin s w)) as [H|(b & H & Hlt)].
    + rewrite (bind_Fault _ _ _ _ _ H). eauto.
    + rewrite (bind_Ret _ _ _ _ _ H).
      apply (IH fuel processID b (S i) (set_stdin s w) Hs eq_refl); lia.
Qed.

(** X14.  End of input is not checked: when the input ends before a newline
    (and holds no [$]), getInput stores the value of EOF again and again
    until it writes past the end of the line buffer. *)
Theorem end_of_input_overflows (processID : Z) (input : buffer)
    (s : string) (w : World) :
  plain s = true ->
  exists w',
    getInput processID input (set_stdin s w) = Fault BufferOverflow w'.
Proof.
  intros Hplain. unfold getInput, printf. rewrite bind_emit.
  destruct (getInput_loop_unfinished s (S LINE_LENGTH) processID input 0
              (log (EPrint ": ") (set_stdin s w)) Hplain eq_refl
              ltac:(lia) ltac:(lia)) as (w' & H).
  exists w'. now rewrite (bind_Fault _ _ _ _ _ H).
Qed.

Lemma end_of_input_overflows_witness :
  exists w',
    getInput 4821 zeros (set_stdin "exit" world0) = Fault BufferOverflow w'.
Proof.
  apply (end_of_input_overflows 4821 zeros "exit" world0). reflexivity.
Defined.

Lemma getInput_loop_prefix s : forall fuel processID input i w rest,
  plain s = true ->
  (i + String.length s <= LINE_LENGTH)%nat ->
  stdin w = (s ++ rest)%string ->
  exists input',
    getInput_loop (String.length s + fuel) processID input i w
    = getInput_loop fuel processID input' (i + String.length s)
        (set_stdin rest w) /\
    (forall j, (j < i \/ i + String.length s <= j)%nat -> input' j = input j) /\
    (forall j c, String.get j s = Some c -> input' (i + j)%nat = c).
Proof.
  induction s as [|c s IH]; intros fuel processID input i w rest Hplain Hlen Hin.
  - exists input. simpl. rewrite Nat.add_0_r. repeat split.
    + f_equal. destruct w; simpl in *. now subst.
    + intros j x H. discriminate.
  - apply plain_cons in Hplain as (Hlf & Hdollar & Hs).
    rewrite string_app_cons in Hin. simpl in Hlen.
    destruct (IH fuel processID (fun j => if (j =? i)%nat then c else input j)
                (S i) (set_stdin (s ++ rest) w) rest Hs ltac:(lia) eq_refl)
      as (input' & Hrun & Hout & Hget).
    exists input'. split; [|split].
    + change (String.length (String c s) + fuel)%nat
        with (S (String.length s + fuel)).
      rewrite (getInput_loop_char _ _ _ _ _ _ _ Hin Hlf Hdollar).
      unfold store. assert (Hi : (i <? LINE_LENGTH)%nat = true)
        by (apply Nat.ltb_lt; lia).
      rewrite Hi. unfold mbind, M_bind, bind, mret, M_ret, ret.
      rewrite Hrun. simpl String.length. now rewrite Nat.add_succ_r.
    + intros j Hj. simpl in Hj. rewrite Hout by lia.
      destruct (Nat.eqb_spec j i); [lia | reflexivity].
    + intros [|j] x Hx; simpl in Hx.
      * injection Hx as <-. rewrite Nat.add_0_r, Hout by lia.
        now rewrite Nat.eqb_refl.
      * rewrite Nat.add_succ_r. apply (Hget j x Hx).
Qed.

Lemma sprintf_ok s : forall input i w,
  (i + String.length s < LINE_LENGTH)%nat ->
  exists input',
    sprintf input i s w = Ret input' w /\
    (forall j, (j < i)%nat -> input' j = input j) /\
    (forall j c, String.get j s = Some c -> input' (i + j)%nat = c) /\
    input' (i + String.length s)%nat = NUL.
Proof.
  induction s as [|c s IH]; intros input i w Hlen; simpl in Hlen.
  - simpl. unfold store.
    assert (Hi : (i <? LINE_LENGTH)%nat = true) by (apply Nat.ltb_lt; lia).
    rewrite Hi. eexists. split; [reflexivity|]. cbn beta. repeat split.
    + intros j Hj. destruct (Nat.eqb_spec j i); [lia | reflexivity].
    + intros j x H. discriminate.
    + rewrite Nat.add_0_r. now rewrite Nat.eqb_refl.
  - destruct (IH (fun j => if (j =? i)%nat then c else input j) (S i) w
                ltac:(lia)) as (b & Hrun & Hbelow & Hget & Hnul).
    exists b. simpl sprintf. unfold store.
    assert (Hi : (i <? LINE_LENGTH)%nat = true) by (apply Nat.ltb_lt; lia).
    rewrite Hi. unfold mbind, M_bind, bind, mret, M_ret, ret.
    split; [exact Hrun|]. repeat split.
    + intros j Hj. rewrite Hbelow by lia.
      destruct (Nat.eqb_spec j i); [lia | reflexivity].
    + intros [|j] x Hx; simpl in Hx.
      * injection Hx as <-. rewrite Nat.add_0_r, Hbelow by lia.
        now rewrite Nat.eqb_refl.
      * rewrite Nat.add_succ_r. apply (Hget j x Hx).
    + simpl String.length. now rewrite Nat.add_succ_r.
Qed.

Lemma get_beyond (t : string) n : String.get (String.length t + n) t = None.
Proof. revert n. induction t as [|a t IHt]; intros n; [reflexivity | exact (IHt n)]. Qed.

Lemma get_Some_lt (t : string) j c :
  String.get j t = Some c -> (j < String.length t)%nat.
Proof.
  intros H. destruct (Nat.lt_ge_cases j (String.length t)) as [|Hge]; [assumption|].
  replace j with (String.length t + (j - String.length t))%nat in H by lia.
  now rewrite get_beyond in H.
Qed.

(** The C string at the start of the buffer, for any text without NUL. *)
Lemma cstring_text s : forall input i n,
  (forall j c, String.get j s = Some c -> c <> NUL) ->
  (forall j c, String.get j s = Some c -> input (i + j)%nat = c) ->
  input (i + String.length s)%nat = NUL ->
  (String.length s < n)%nat ->
  cstring input i n = s.
Proof.
  induction s as [|c s IH]; intros input i n Hnn Hget Hnul Hn;
    (destruct n as [|n]; [simpl in Hn; lia|]); simpl.
  - simpl in Hnul. rewrite Nat.add_0_r in Hnul. now rewrite Hnul.
  - pose proof (Hget 0%nat c eq_refl) as H0. rewrite Nat.add_0_r in H0.
    rewrite H0. pose proof (Hnn 0%nat c eq_refl) as Hc.
    apply Ascii.eqb_neq in Hc. rewrite Hc. f_equal.
    apply IH.
    + intros j x Hx. apply (Hnn (S j) x Hx).
    + intros j x Hx. rewrite Nat.add_succ_l, <- Nat.add_succ_r.
      apply (Hget (S j) x Hx).
    + simpl in Hnul. now rewrite Nat.add_succ_l, <- Nat.add_succ_r.
    + simpl in Hn. lia.
Qed.

Lemma plain_no_nul s : plain s = true ->
  forall j c, String.get j s = Some c -> c <> NUL.
Proof.
  induction s as [|a s IH]; intros Hplain j c Hget; [discriminate|].
  simpl in Hplain.
  apply andb_prop in Hplain as [Hplain Hs].
  apply andb_prop in Hplain as [_ Hc]. apply negb_true_iff in Hc.
  destruct j as [|j]; simpl in Hget.
  - injection Hget as <-. now apply Ascii.eqb_neq.
  - apply (IH Hs j c Hget).
Qed.

(** What getInput does once its loop has left [s] in the buffer. *)
Lemma getInput_finish processID input s input' w w1 :
  (forall j c, String.get j s = Some c -> c <> NUL) ->
  (String.length s < LINE_LENGTH)%nat ->
  getInput_loop (S LINE_LENGTH) processID input 0 (log (EPrint ": ") w)
  = Ret (input', String.length s) w1 ->
  (forall j c, String.get j s = Some c -> input' j = c) ->
  getInput processID input w
  = (if nothing_to_run s then mret [] else separateInput s) w1.
Proof.
  intros Hnn Hlen Hrun Hget. unfold getInput, printf. rewrite bind_emit.
  rewrite (bind_Ret _ _ _ _ _ Hrun). cbn beta iota.
  unfold store at 1. assert (Hi : (String.length s <? LINE_LENGTH)%nat = true)
    by now apply Nat.ltb_lt.
  rewrite Hi. unfold mbind at 1, M_bind, bind at 1, mret at 1, M_ret, ret at 1.
  cbn beta iota.
  destruct s as [|c s]; [reflexivity|].
  pose proof (Hget 0%nat c eq_refl) as H0. simpl in H0.
  change (String.length (String c s)) with (S (String.length s)) in *.
  change (S (String.length s) =? 0)%nat with false.
  change (0 =? S (String.length s))%nat with false. cbn iota.
  rewrite H0. unfold nothing_to_run.
  destruct (Ascii.eqb c "#"); cbn [orb]; [reflexivity|].
  f_equal. apply cstring_text.
  - exact Hnn.
  - intros j x Hx. simpl Nat.add.
    destruct (Nat.eqb_spec j (S (String.length s))) as [->|Hne].
    + apply get_Some_lt in Hx. simpl in Hx. lia.
    + now apply (Hget j x).
  - simpl. now rewrite Nat.eqb_refl.
  - unfold LINE_LENGTH in *. simpl String.length. lia.
Qed.

Lemma plain_digits d : plain (NilEmpty.string_of_uint d) = true.
Proof. induction d; simpl; auto. Qed.

Lemma plain_dec n : plain (dec n) = true.
Proof.
  unfold dec. destruct (Z.to_int n) as [d|d]; simpl.
  - destruct d; try reflexivity; apply (plain_digits (_ d)).
  - destruct d; try reflexivity; apply (plain_digits (_ d)).
Qed.

Lemma plain_app a b : plain a = true -> plain b = true -> plain (a ++ b) = true.
Proof.
  induction a as [|c a IH]; intros Ha Hb; [exact Hb|].
  rewrite string_app_cons. simpl in *.
  apply andb_prop in Ha as [Hc Ha]. rewrite Hc. simpl. auto.
Qed.

Lemma string_length_app (a b : string) :
  String.length (a ++ b) = (String.length a + String.length b)%nat.
Proof.
  induction a as [|c a IH]; [reflexivity|].
  rewrite string_app_cons. simpl. now rewrite IH.
Qed.

Lemma get_app (a b : string) j c :
  String.get j (a ++ b) = Some c ->
  (String.get j a = Some c /\ (j < String.length a)%nat) \/
  (exists k, j = (String.length a + k)%nat /\ String.get k b = Some c).
Proof.
  revert j. induction a as [|x a IH]; intros j H.
  - right. exists j. auto.
  - rewrite string_app_cons in H. destruct j as [|j]; simpl in H.
    + left. simpl. split; [assumption | lia].
    + destruct (IH j H) as [[H1 H2]|(k & -> & Hk)].
      * left. simpl. split; [assumption | lia].
      * right. exists k. auto.
Qed.

Lemma getInput_loop_dollars fuel processID input i rest w :
  stdin w = String "$" (String "$" rest) ->
  (i + String.length (dec processID) < LINE_LENGTH)%nat ->
  exists input',
    getInput_loop (S fuel) processID input i w
    = Ret (input', (i + String.length (dec processID))%nat) (set_stdin rest w) /\
    (forall j, (j < i)%nat -> input' j = input j) /\
    (forall j c, String.get j (dec processID) = Some c -> input' (i + j)%nat = c).
Proof.
  intros Hin Hlen.
  destruct (sprintf_ok (dec processID) input i
              (set_stdin rest (set_stdin (String "$" rest) w)) Hlen)
    as (b & Hrun & Hbelow & Hget & Hnul).
  exists b. split; [|split; assumption].
  simpl getInput_loop. unfold getchar at 1, mbind at 1, M_bind, bind at 1.
  rewrite Hin. change (Ascii.eqb "$" LF) with false.
  change (Ascii.eqb "$" "$") with true. cbn iota.
  unfold check_dollars, getchar, mbind at 1, M_bind, bind at 1.
  unfold mbind at 1, bind at 1. cbn [stdin set_stdin].
  change (Ascii.eqb "$" "$") with true. cbn iota.
  unfold mbind at 1, bind at 1. rewrite Hrun.
  unfold mret, M_ret, ret. cbn beta iota.
  unfold load. assert (Hi : (i + String.length (dec processID) <? LINE_LENGTH)%nat = true)
    by now apply Nat.ltb_lt.
  rewrite Hi. unfold mbind, bind, mret, M_ret, ret. rewrite Hnul.
  change (Ascii.eqb NUL NUL) with true. reflexivity.
Qed.

(** X15.  [$$] ends the line.  For a positive pid of the shell, when [$$]
    follows text without [$] and the text and the pid fit the line buffer,
    the command is that text with the pid appended, and everything after
    [$$], the rest of the same line included, is left unread on standard
    input.  (check$$ takes the number of digits from [log10(processID)],
    which is the length of the decimal string for a positive pid only.) *)
Theorem line_ends_at_pid (processID : Z) (input : buffer)
    (pre post : string) (w : World) :
  0 < processID ->
  plain pre = true ->
  (String.length pre + String.length (dec processID) < LINE_LENGTH)%nat ->
  getInput processID input (set_stdin (pre ++ "$$" ++ post) w)
  = (if nothing_to_run (pre ++ dec processID) then mret []
     else separateInput (pre ++ dec processID))
      (log (EPrint ": ") (set_stdin post w)).
Proof.
  intros _ Hplain Hlen.
  change ("$$" ++ post)%string with (String "$" (String "$" post)).
  set (w0 := log (EPrint ": ") (set_stdin (pre ++ String "$" (String "$" post)) w)).
  destruct (getInput_loop_prefix pre (S (LINE_LENGTH - String.length pre))
              processID input 0 w0 (String "$" (String "$" post)) Hplain
              ltac:(simpl; lia) eq_refl)
    as (b & Hpre & Hout & Hget).
  destruct (getInput_loop_dollars (LINE_LENGTH - String.length pre) processID
              b (0 + String.length pre) post
              (set_stdin (String "$" (String "$" post)) w0) eq_refl
              ltac:(simpl; lia))
    as (b' & Hrun & Hbelow & Hdec).
  rewrite Hrun in Hpre.
  replace (String.length pre + S (LINE_LENGTH - String.length pre))%nat
    with (S LINE_LENGTH) in Hpre by lia.
  simpl Nat.add in *. rewrite <- string_length_app in Hpre.
  apply (getInput_finish processID input (pre ++ dec processID) b'
           (set_stdin (pre ++ String "$" (String "$" post)) w)).
  - apply plain_no_nul, plain_app; [exact Hplain | apply plain_dec].
  - rewrite string_length_app. lia.
  - exact Hpre.
  - intros j c Hj. apply get_app in Hj as [[Hj Hlt]|(k & -> & Hk)].
    + rewrite Hbelow by exact Hlt. apply (Hget j c Hj).
    + apply (Hdec k c Hk).
Qed.

Lemma line_ends_at_pid_witness :
  getInput 4821 xs
    (set_stdin ("echo " ++ "$$" ++ (" done" ++ nl ++ "exit" ++ nl)) world0)
  = separateInput "echo 4821"
      (log (EPrint ": ") (set_stdin (" done" ++ nl ++ "exit" ++ nl) world0)).
Proof.
  apply (line_ends_at_pid 4821 xs "echo " (" done" ++ nl ++ "exit" ++ nl) world0).
  - lia.
  - reflexivity.
  - apply Nat.ltb_lt. vm_compute. reflexivity.
Defined.

Lemma getInput_loop_dollar_newline fuel processID input i rest w :
  stdin w = String "$" (String LF rest) ->
  (S i < LINE_LENGTH)%nat ->
  getInput_loop (S fuel) processID input i w
  = Ret (fun j => if (j =? S i)%nat then NUL
                  else if (j =? i)%nat then "$"%char else input j, S i)
      (set_stdin rest w).
Proof.
  intros Hin Hlen.
  simpl getInput_loop. unfold getchar at 1, mbind at 1, M_bind, bind at 1.
  rewrite Hin. change (Ascii.eqb "$" LF) with false.
  change (Ascii.eqb "$" "$") with true. cbn iota.
  unfold check_dollars, getchar, mbind at 1, M_bind, bind at 1.
  unfold mbind at 1, bind at 1. cbn [stdin set_stdin].
  change (Ascii.eqb LF "$") with false. change (Ascii.eqb LF LF) with true.
  cbn iota. unfold store, load.
  assert (Hi : (i <? LINE_LENGTH)%nat = true) by (apply Nat.ltb_lt; lia).
  assert (HSi : (S i <? LINE_LENGTH)%nat = true) by now apply Nat.ltb_lt.
  rewrite Hi, HSi. unfold mbind, bind, mret, M_ret, ret. cbn beta iota.
  rewrite HSi. cbn beta iota. rewrite Nat.eqb_refl.
  change (Ascii.eqb NUL NUL) with true. reflexivity.
Qed.

(** X16.  A single [$] at the end of a line is kept: the command is the
    line as typed, and the next line is left on standard input. *)
Theorem dollar_at_end_of_line_kept (processID : Z) (input : buffer)
    (pre rest : string) (w : World) :
  plain pre = true -> (S (String.length pre) < LINE_LENGTH)%nat ->
  getInput processID input (set_stdin (pre ++ "$" ++ nl ++ rest) w)
  = (if nothing_to_run (pre ++ "$") then mret [] else separateInput (pre ++ "$"))
      (log (EPrint ": ") (set_stdin rest w)).
Proof.
  intros Hplain Hlen.
  change ("$" ++ nl ++ rest)%string with (String "$" (String LF rest)).
  set (w0 := log (EPrint ": ") (set_stdin (pre ++ String "$" (String LF rest)) w)).
  destruct (getInput_loop_prefix pre (S (LINE_LENGTH - String.length pre))
              processID input 0 w0 (String "$" (String LF rest)) Hplain
              ltac:(simpl; lia) eq_refl)
    as (b & Hpre & Hout & Hget).
  rewrite (getInput_loop_dollar_newline _ processID b _ rest
             (set_stdin (String "$" (String LF rest)) w0) eq_refl) in Hpre
    by (simpl; lia).
  replace (String.length pre + S (LINE_LENGTH - String.length pre))%nat
    with (S LINE_LENGTH) in Hpre by lia.
  simpl Nat.add in *.
  assert (Hl : String.length (pre ++ "$") = S (String.length pre))
    by (rewrite string_length_app; simpl; lia).
  eapply (getInput_finish processID input (pre ++ "$") _
            (set_stdin (pre ++ String "$" (String LF rest)) w)).
  - intros j c Hj. apply get_app in Hj as [[Hj _]|(k & -> & Hk)].
    + apply (plain_no_nul pre Hplain j c Hj).
    + destruct k as [|k]; [|discriminate]. simpl in Hk. injection Hk as <-.
      discriminate.
  - lia.
  - rewrite Hl. exact Hpre.
  - intros j c Hj. cbn beta.
    apply get_app in Hj as [[Hj Hlt]|(k & -> & Hk)].
    + destruct (Nat.eqb_spec j (S (String.length pre))); [lia|].
      destruct (Nat.eqb_spec j (String.length pre)); [lia|].
      apply (Hget j c Hj).
    + destruct k as [|k]; [|discriminate]. simpl in Hk. injection Hk as <-.
      rewrite Nat.add_0_r.
      destruct (Nat.eqb_spec (String.length pre) (S (String.length pre))); [lia|].
      now rewrite Nat.eqb_refl.
Qed.

Lemma dollar_at_end_of_line_kept_witness :
  getInput 4821 xs (set_stdin ("echo " ++ "$" ++ nl ++ "exit" ++ nl) world0)
  = separateInput "echo $" (log (EPrint ": ") (set_stdin ("exit" ++ nl) world0)).
Proof.
  apply (dollar_at_end_of_line_kept 4821 xs "echo " ("exit" ++ nl) world0).
  - reflexivity.
  - apply Nat.ltb_lt. vm_compute. reflexivity.
Defined.

Lemma getInput_loop_dollar_char fuel processID input i c rest w :
  stdin w = String "$" (String c rest) ->
  Ascii.eqb c "$" = false -> Ascii.eqb c LF = false ->
  (S (S i) < LINE_LENGTH)%nat ->
  getInput_loop (S fuel) processID input i w
  = (if Ascii.eqb (input (S (S i))) NUL
     then mret (fun j => if (j =? S i)%nat then c
                         else if (j =? i)%nat then "$"%char else input j,
                S (S i))
     else getInput_loop fuel processID
            (fun j => if (j =? S i)%nat then c
                      else if (j =? i)%nat then "$"%char else input j)
            (S (S i)))
      (set_stdin rest w).
Proof.
  intros Hin Hdollar Hlf Hlen.
  simpl getInput_loop. unfold getchar at 1, mbind at 1, M_bind, bind at 1.
  rewrite Hin. change (Ascii.eqb "$" LF) with false.
  change (Ascii.eqb "$" "$") with true. cbn iota.
  unfold check_dollars, getchar, mbind at 1, M_bind, bind at 1.
  unfold mbind at 1, bind at 1. cbn [stdin set_stdin].
  rewrite Hdollar, Hlf. unfold store, load.
  assert (Hi : (i <? LINE_LENGTH)%nat = true) by (apply Nat.ltb_lt; lia).
  assert (HSi : (S i <? LINE_LENGTH)%nat = true) by (apply Nat.ltb_lt; lia).
  assert (HSSi : (S (S i) <? LINE_LENGTH)%nat = true) by now apply Nat.ltb_lt.
  rewrite Hi, HSi. unfold mbind, bind, mret, M_ret, ret. cbn beta iota.
  rewrite HSSi. cbn beta iota.
  destruct (Nat.eqb_spec (S (S i)) (S i)); [lia|].
  destruct (Nat.eqb_spec (S (S i)) i); [lia|].
  destruct (Ascii.eqb (input (S (S i))) NUL); reflexivity.
Qed.

(** X17.  A single [$] inside a line makes the line depend on what the line
    buffer held before, which the source never initialises: after the [$]
    and the character that follows it, getInput looks at the next byte of
    the buffer before anything is stored there.  When that byte is NUL the
    line ends there and the rest stays on standard input; otherwise the
    line is read to its newline and kept as typed. *)
Theorem single_dollar_reads_stale_byte (processID : Z) (input : buffer)
    (pre : string) (c : ascii) (s rest : string) (w : World) :
  plain pre = true -> plain (String c s) = true ->
  (String.length pre + 2 + String.length s < LINE_LENGTH)%nat ->
  getInput processID input
    (set_stdin (pre ++ String "$" (String c (s ++ nl ++ rest))) w)
  = if Ascii.eqb (input (String.length pre + 2)%nat) NUL
    then (if nothing_to_run (pre ++ String "$" (String c ""))
          then mret []
          else separateInput (pre ++ String "$" (String c "")))
           (log (EPrint ": ") (set_stdin (s ++ nl ++ rest) w))
    else (if nothing_to_run (pre ++ String "$" (String c s))
          then mret []
          else separateInput (pre ++ String "$" (String c s)))
           (log (EPrint ": ") (set_stdin rest w)).
Proof.
  intros Hplain Hcs Hlen.
  pose proof (plain_no_nul _ Hplain) as Hnn.
  pose proof (plain_no_nul _ Hcs) as Hnn'.
  apply plain_cons in Hcs as (Hlf & Hdollar & Hs).
  set (w0 := log (EPrint ": ")
               (set_stdin (pre ++ String "$" (String c (s ++ nl ++ rest))) w)).
  destruct (getInput_loop_prefix pre (S (LINE_LENGTH - String.length pre))
              processID input 0 w0 (String "$" (String c (s ++ nl ++ rest)))
              Hplain ltac:(simpl; lia) eq_refl)
    as (b & Hpre & Hout & Hget).
  rewrite (getInput_loop_dollar_char _ processID b _ c (s ++ nl ++ rest)
             (set_stdin (String "$" (String c (s ++ nl ++ rest))) w0)
             eq_refl Hdollar Hlf) in Hpre by (simpl; lia).
  replace (String.length pre + S (LINE_LENGTH - String.length pre))%nat
    with (S LINE_LENGTH) in Hpre by lia.
  change (0 + String.length pre)%nat with (String.length pre) in *.
  rewrite (Hout (S (S (String.length pre)))) in Hpre by lia.
  replace (String.length pre + 2)%nat with (S (S (String.length pre))) by lia.
  destruct (Ascii.eqb (input (S (S (String.length pre)))) NUL).
  - assert (Hl : String.length (pre ++ String "$" (String c ""))
                 = S (S (String.length pre)))
      by (rewrite string_length_app; simpl; lia).
    eapply (getInput_finish processID input _ _
              (set_stdin (pre ++ String "$" (String c (s ++ nl ++ rest))) w)).
    + intros j x Hj. apply get_app in Hj as [[Hj _]|(k & -> & Hk)].
      * apply (Hnn j x Hj).
      * destruct k as [|[|k]]; simpl in Hk; try discriminate;
          injection Hk as <-; [discriminate|]. apply (Hnn' 0%nat c eq_refl).
    + lia.
    + rewrite Hl. exact Hpre.
    + intros j x Hj. cbn beta.
      apply get_app in Hj as [[Hj Hlt]|(k & -> & Hk)].
      * destruct (Nat.eqb_spec j (S (String.length pre))); [lia|].
        destruct (Nat.eqb_spec j (String.length pre)); [lia|].
        apply (Hget j x Hj).
      * destruct k as [|[|k]]; simpl in Hk; try discriminate;
          injection Hk as <-.
        -- rewrite Nat.add_0_r.
           destruct (Nat.eqb_spec (String.length pre) (S (String.length pre)));
             [lia|]. now rewrite Nat.eqb_refl.
        -- replace (String.length pre + 1)%nat with (S (String.length pre)) by lia.
           now rewrite Nat.eqb_refl.
  - set (b1 := fun j : nat =>
                 if (j =? S (String.length pre))%nat then c
                 else if (j =? String.length pre)%nat then "$"%char else b j)
      in Hpre.
    destruct (getInput_loop_plain s (LINE_LENGTH - String.length pre)
                processID b1 (S (S (String.length pre)))
                (set_stdin (s ++ nl ++ rest)
                   (set_stdin (String "$" (String c (s ++ nl ++ rest))) w0))
                rest Hs ltac:(lia) ltac:(lia) eq_refl)
      as (b2 & Hrun & Hbelow & Hget2).
    rewrite Hrun in Hpre.
    assert (Hl : String.length (pre ++ String "$" (String c s))
                 = (S (S (String.length pre)) + String.length s)%nat)
      by (rewrite string_length_app; simpl; lia).
    eapply (getInput_finish processID input _ _
              (set_stdin (pre ++ String "$" (String c (s ++ nl ++ rest))) w)).
    + intros j x Hj. apply get_app in Hj as [[Hj _]|(k & -> & Hk)].
      * apply (Hnn j x Hj).
      * destruct k as [|k]; simpl in Hk; [injection Hk as <-; discriminate|].
        apply (Hnn' k x Hk).
    + lia.
    + rewrite Hl. exact Hpre.
    + intros j x Hj.
      apply get_app in Hj as [[Hj Hlt]|(k & -> & Hk)].
      * rewrite Hbelow by lia. unfold b1.
        destruct (Nat.eqb_spec j (S (String.length pre))); [lia|].
        destruct (Nat.eqb_spec j (String.length pre)); [lia|].
        apply (Hget j x Hj).
      * destruct k as [|[|k]]; simpl in Hk.
        -- injection Hk as <-. rewrite Nat.add_0_r, Hbelow by lia. unfold b1.
           destruct (Nat.eqb_spec (String.length pre) (S (String.length pre)));
             [lia|]. now rewrite Nat.eqb_refl.
        -- injection Hk as <-. rewrite Hbelow by lia. unfold b1.
           replace (String.length pre + 1)%nat with (S (String.length pre)) by lia.
           now rewrite Nat.eqb_refl.
        -- replace (String.length pre + S (S k))%nat
             with (S (S (String.length pre)) + k)%nat by lia.
           apply (Hget2 k x Hk).
Qed.

Lemma single_dollar_reads_stale_byte_witness :
  getInput 4821 zeros
    (set_stdin ("echo " ++ String "$" (String "5" (" now" ++ nl ++ ""))) world0)
  = separateInput "echo $5" (log (EPrint ": ") (set_stdin (" now" ++ nl) world0))
  /\
  getInput 4821 xs
    (set_stdin ("echo " ++ String "$" (String "5" (" now" ++ nl ++ ""))) world0)
  = separateInput "echo $5 now" (log (EPrint ": ") (set_stdin "" world0)).
Proof.
  split.
  - apply (single_dollar_reads_stale_byte 4821 zeros "echo " "5" " now" "" world0).
    + reflexivity.
    + reflexivity.
    + apply Nat.ltb_lt. vm_compute. reflexivity.
  - apply (single_dollar_reads_stale_byte 4821 xs "echo " "5" " now" "" world0).
    + reflexivity.
    + reflexivity.
    + apply Nat.ltb_lt. vm_compute. reflexivity.
Defined.

(** ** How the shell ends *)

Lemma bind_Exit_inv {A B} (m : M A) (f : A -> M B) w code w' :
  (m ≫= f) w = Exit code w' ->
  m w = Exit code w' \/ exists a w1, m w = Ret a w1 /\ f a w1 = Exit code w'.
Proof.
  unfold mbind, M_bind, bind.
  destruct (m w) as [a w1|c w1|w1|e w1]; try discriminate; intros H.
  - right. now exists a, w1.
  - left. now injection H as <- <-.
Qed.

Lemma no_exit_ret {A} (a : A) : no_exit (mret a : M A).
Proof. intros w code w'. discriminate. Qed.

Lemma no_exit_crash {A} e : no_exit (crash e : M A).
Proof. intros w code w'. discriminate. Qed.

Lemma no_exit_emit e : no_exit (emit e).
Proof. intros w code w'. discriminate. Qed.

Lemma no_exit_bind {A B} (m : M A) (f : A -> M B) :
  no_exit m -> (forall a, no_exit (f a)) -> no_exit (m ≫= f).
Proof.
  intros Hm Hf w code w' H.
  apply bind_Exit_inv in H as [H|(a & w1 & _ & H)].
  - exact (Hm _ _ _ H).
  - exact (Hf _ _ _ _ H).
Qed.

Lemma no_exit_getchar : no_exit getchar.
Proof. intros w code w'. unfold getchar. destruct (stdin w); discriminate. Qed.

Lemma no_exit_store input i c : no_exit (store input i c).
Proof.
  unfold store.
  destruct (i <? LINE_LENGTH)%nat; [apply no_exit_ret | apply no_exit_crash].
Qed.

Lemma no_exit_load input i : no_exit (load input i).
Proof.
  unfold load.
  destruct (i <? LINE_LENGTH)%nat; [apply no_exit_ret | apply no_exit_crash].
Qed.

Lemma no_exit_sprintf s : forall input i, no_exit (sprintf input i s).
Proof.
  induction s as [|c s IH]; intros input i; simpl.
  - apply no_exit_store.
  - apply no_exit_bind; [apply no_exit_store | intros; apply IH].
Qed.

Lemma no_exit_check_dollars input i processID :
  no_exit (check_dollars input i processID).
Proof.
  unfold check_dollars. apply no_exit_bind; [apply no_exit_getchar|].
  intros c. destruct (Ascii.eqb c "$").
  - apply no_exit_bind; [apply no_exit_sprintf | intros; apply no_exit_ret].
  - apply no_exit_bind; [apply no_exit_store|]. intros b.
    destruct (Ascii.eqb c LF);
      (apply no_exit_bind; [apply no_exit_store | intros; apply no_exit_ret]).
Qed.

Lemma no_exit_getInput_loop fuel processID : forall input i,
  no_exit (getInput_loop fuel processID input i).
Proof.
  induction fuel as [|fuel IH]; intros input i; simpl; [apply no_exit_crash|].
  apply no_exit_bind; [apply no_exit_getchar|]. intros c.
  destruct (Ascii.eqb c LF); [apply no_exit_ret|].
  destruct (Ascii.eqb c "$").
  - apply no_exit_bind; [apply no_exit_check_dollars|]. intros [input' i'].
    apply no_exit_bind; [apply no_exit_load|]. intros c'.
    destruct (Ascii.eqb c' NUL); [apply no_exit_ret | apply IH].
  - apply no_exit_bind; [apply no_exit_store | intros; apply IH].
Qed.

Lemma no_exit_separateInput input : no_exit (separateInput input).
Proof.
  unfold separateInput.
  destruct (separateInput_loop _ _ _ _) as [head|]; [|apply no_exit_crash].
  destruct (last head) as [tail|]; [|apply no_exit_crash].
  destruct (text tail =? "&")%string; [|apply no_exit_ret].
  intros w code w'. unfold setBackground. destruct head as [|h [|a l]]; discriminate.
Qed.

Lemma no_exit_getInput processID input : no_exit (getInput processID input).
Proof.
  unfold getInput, printf. apply no_exit_bind; [apply no_exit_emit|]. intros _.
  apply no_exit_bind; [apply no_exit_getInput_loop|]. intros [input' i].
  apply no_exit_bind; [apply no_exit_store|]. intros input''.
  destruct ((i =? 0)%nat || Ascii.eqb (input'' 0%nat) "#")%bool;
    [apply no_exit_ret | apply no_exit_separateInput].
Qed.

Lemma no_exit_redirectIO head : no_exit (redirectIO head).
Proof.
  unfold redirectIO. destruct head as [[|a [|b l]]|];
    try apply no_exit_crash; try apply no_exit_ret.
  destruct (last_two (a :: b :: l)) as [[[pre previous] current]|];
    [|apply no_exit_ret].
  destruct (text previous =? ">")%string; [destruct pre; apply no_exit_ret|].
  destruct (text previous =? "<")%string; [destruct pre; apply no_exit_ret|].
  apply no_exit_ret.
Qed.

Lemma no_exit_otherProcess_redirect head : no_exit (otherProcess_redirect head).
Proof.
  unfold otherProcess_redirect.
  apply no_exit_bind; [apply no_exit_redirectIO|].
  intros [found head1]. destruct found; [|apply no_exit_ret].
  apply no_exit_bind; [apply no_exit_redirectIO|].
  intros [? ?]. apply no_exit_ret.
Qed.

Lemma no_exit_kill pid sig : no_exit (kill pid sig).
Proof.
  intros w code w'. unfold kill.
  destruct (procs w !! pid) as [[? ?|?]|]; discriminate.
Qed.

Lemma no_exit_waitpid pid cs options : no_exit (waitpid pid cs options).
Proof.
  intros w code w'. unfold waitpid.
  destruct (procs w !! pid) as [[fate ?|?]|]; try discriminate.
  destruct (options =? WNOHANG); [discriminate|]. destruct fate; discriminate.
Qed.

Lemma no_exit_killChildren head : forall cs, no_exit (killChildren head cs).
Proof.
  induction head as [|id next IH]; intros cs; simpl; [apply no_exit_ret|].
  apply no_exit_bind; [apply no_exit_kill|]. intros _.
  apply no_exit_bind; [apply no_exit_waitpid|]. intros [? ?]. apply IH.
Qed.

Lemma fork_pid w r w' : fork w = Ret r w' -> r = -1 \/ 0 < r.
Proof.
  unfold fork. destruct (forks w) as [|[[pid p]|] rest]; intros H;
    injection H as <- _; auto. right. lia.
Qed.

(** A built-in command ends the shell with status 0 or not at all, and one
    that returns without handling the command has done nothing. *)
Lemma builtIn_Exit head children es w code w' :
  builtIn head children es w = Exit code w' -> code = EXIT_SUCCESS.
Proof.
  unfold builtIn. destruct head as [|cmd args]; [discriminate|].
  destruct (text cmd =? "exit")%string.
  { intros H. apply bind_Exit_inv in H as [H|(? & ? & _ & H)].
    - now apply no_exit_killChildren in H.
    - now injection H as <- _. }
  destruct (text cmd =? "cd")%string.
  { unfold changeDir. destruct args; discriminate. }
  destruct (text cmd =? "status")%string.
  { unfold printStatus. destruct (exit es); discriminate. }
  discriminate.
Qed.

Lemma builtIn_not_handled head children es w w' :
  builtIn head children es w = Ret false w' -> w' = w.
Proof.
  unfold builtIn. destruct head as [|cmd args]; [discriminate|].
  destruct (text cmd =? "exit")%string.
  { intros H. apply bind_Ret_inv in H as (? & ? & _ & H). discriminate. }
  destruct (text cmd =? "cd")%string.
  { unfold changeDir. destruct args; discriminate. }
  destruct (text cmd =? "status")%string.
  { unfold printStatus. destruct (exit es); discriminate. }
  intros H. now injection H.
Qed.

(** otherProcess ends the shell only when fork has failed: with status 1,
    after perror. *)
Lemma otherProcess_Exit head children es cs w code w' :
  otherProcess head children es cs w = Exit code w' ->
  code = 1 /\ trace w' = trace w ++ [EFork (-1); EPerror ("fork()" ++ nl)].
Proof.
  unfold otherProcess. intros H.
  apply bind_Exit_inv in H as [H|(head' & w0 & Hred & H)];
    [now apply no_exit_otherProcess_redirect in H|].
  pose proof (silent_trace _ w (silent_otherProcess_redirect head)) as Hw0.
  rewrite Hred in Hw0. simpl in Hw0.
  apply bind_Exit_inv in H as [H|(newID & w1 & Hfork & H)].
  { exfalso. revert H. unfold fork.
    destruct (forks w0) as [|[[pid p]|] rest]; discriminate. }
  pose proof (fork_pid _ _ _ Hfork) as Hpid.
  apply fork_Ret in Hfork.
  destruct (Z.eqb_spec newID (-1)) as [->|Hne].
  { rewrite bind_emit in H. injection H as <- <-. split; [reflexivity|].
    simpl. rewrite Hfork, Hw0, <- app_assoc. reflexivity. }
  destruct (Z.eqb_spec newID 0) as [->|Hne0]; [lia|].
  exfalso. destruct head' as [[|d l]|]; try discriminate.
  destruct (background d); cbn [negb] in H.
  - unfold printf in H. rewrite bind_emit in H. discriminate.
  - apply bind_Exit_inv in H as [H|([r st] & w2 & _ & H)];
      [now apply no_exit_waitpid in H|].
    destruct (WIFEXITED st); [discriminate|].
    destruct (WTERMSIG st =? 2);
      [unfold printf in H; rewrite bind_emit in H|]; discriminate.
Qed.

(** X18.  A turn of the loop of main ends the shell in two ways only: with
    status 0, by the built-in command exit, or with status 1, when fork has
    failed.  In the second case the shell has written the message of perror
    and has sent no signal: its background children are left running. *)
Theorem shell_ends_by_exit_or_failed_fork (processID : Z) (u : indeterminate)
    (sh : shell) (w : World) (code : Z) (w' : World) :
  main_body processID u sh w = Exit code w' ->
  code = EXIT_SUCCESS \/
  (code = 1 /\
   exists l, trace w' = trace w ++ l ++ [EFork (-1); EPerror ("fork()" ++ nl)] /\
             Forall not_kill l).
Proof.
  intros H. unfold main_body in H.
  destruct (reap_returns (children sh) (children sh) false
              (childStatus_of_checkTerminatedChildren u) w)
    as (children1 & w1 & l1 & Hreap & Htr1 & HP1 & _).
  unfold checkTerminatedChildren in H. rewrite (bind_Ret _ _ _ _ _ Hreap) in H.
  apply bind_Exit_inv in H as [H|(head & w2 & Hin & H)];
    [now apply no_exit_getInput in H|].
  pose proof (getInput_trace processID (input_of_getInput u) w1) as Htr2.
  rewrite Hin in Htr2. simpl in Htr2.
  destruct head as [|a args]; [discriminate|].
  apply bind_Exit_inv in H as [H|(handled & w3 & Hbuilt & H)];
    [left; exact (builtIn_Exit _ _ _ _ _ _ H)|].
  destruct handled; [discriminate|].
  apply builtIn_not_handled in Hbuilt. subst w3.
  apply bind_Exit_inv in H as [H|([children2 es2] & w4 & _ & H)];
    [|discriminate].
  apply otherProcess_Exit in H as [-> Htr]. right. split; [reflexivity|].
  exists (l1 ++ [EPrint ": "]). split.
  - rewrite Htr, Htr2, Htr1, <- !app_assoc. reflexivity.
  - apply Forall_app. split; [|repeat constructor].
    eapply List.Forall_impl; [|exact HP1]. intros [] He; simpl in *; auto.
Qed.

Lemma shell_ends_by_exit_or_failed_fork_witness :
  1 = EXIT_SUCCESS \/
  (1 = 1 /\
   exists l,
     trace (mkWorld {[5 := sleeper]} [] "" false
              [EWaitpid 5 WNOHANG 0; EPrint ": "; EFork (-1);
               EPerror ("fork()" ++ nl)])
     = trace (mkWorld {[5 := sleeper]} [None] ("ls" ++ nl) false [])
       ++ l ++ [EFork (-1); EPerror ("fork()" ++ nl)] /\
     Forall not_kill l).
Proof.
  apply (shell_ends_by_exit_or_failed_fork 4821
           (mkIndeterminate zeros 0 0) (mkShell [5] (mkEndStatus true 0))
           (mkWorld {[5 := sleeper]} [None] ("ls" ++ nl) false [])).
  vm_compute. reflexivity.
Defined.

(** ** The child: redirection and execvp *)

Lemma cbind_CRet {A B} (m : C A) (f : A -> C B) c a c1 :
  m c = CRet a c1 -> (m ≫= f) c = f a c1.
Proof. intros H. unfold mbind, C_bind, cbind. now rewrite H. Qed.

Lemma cbind_CExit {A B} (m : C A) (f : A -> C B) c code c1 :
  m c = CExit code c1 -> (m ≫= f) c = CExit code c1.
Proof. intros H. unfold mbind, C_bind, cbind. now rewrite H. Qed.

Lemma cbind_CFault {A B} (m : C A) (f : A -> C B) c e c1 :
  m c = CFault e c1 -> (m ≫= f) c = CFault e c1.
Proof. intros H. unfold mbind, C_bind, cbind. now rewrite H. Qed.

Lemma createProcessArguments_loop_fits cur : forall pre n c,
  (length cur <= n)%nat ->
  createProcessArguments_loop (pre ++ replicate n None) (length pre) cur c
  = CRet (pre ++ map (fun a => Some (text a)) cur
              ++ replicate (n - length cur) None) c.
Proof.
  induction cur as [|a next IH]; intros pre n c Hn; simpl.
  - rewrite Nat.sub_0_r. reflexivity.
  - destruct n as [|n]; [simpl in Hn; lia|]. simpl in Hn.
    assert (Hi : (length pre <? length (pre ++ replicate (S n) None))%nat = true).
    { apply Nat.ltb_lt. rewrite List.length_app, length_replicate. lia. }
    rewrite Hi, insert_app_r_alt by lia. rewrite Nat.sub_diag.
    change (<[0%nat:=Some (text a)]> (replicate (S n) None))
      with (Some (text a) :: replicate n (@None string)).
    change (pre ++ Some (text a) :: replicate n None)
      with (pre ++ [Some (text a)] ++ replicate n None).
    rewrite app_assoc.
    replace (S (length pre)) with (length (pre ++ [Some (text a)]))
      by (rewrite List.length_app; simpl; lia).
    rewrite IH by lia. rewrite <- app_assoc. reflexivity.
Qed.

Lemma createProcessArguments_loop_overflow cur : forall pre n c,
  (n < length cur)%nat ->
  createProcessArguments_loop (pre ++ replicate n None) (length pre) cur c
  = CFault BufferOverflow c.
Proof.
  induction cur as [|a next IH]; intros pre n c Hn; simpl in *; [lia|].
  destruct n as [|n].
  - rewrite app_nil_r, Nat.ltb_irrefl. reflexivity.
  - assert (Hi : (length pre <? length (pre ++ replicate (S n) None))%nat = true).
    { apply Nat.ltb_lt. rewrite List.length_app, length_replicate. lia. }
    rewrite Hi, insert_app_r_alt by lia. rewrite Nat.sub_diag.
    change (<[0%nat:=Some (text a)]> (replicate (S n) None))
      with (Some (text a) :: replicate n (@None string)).
    change (pre ++ Some (text a) :: replicate n None)
      with (pre ++ [Some (text a)] ++ replicate n None).
    rewrite app_assoc.
    replace (S (length pre)) with (length (pre ++ [Some (text a)]))
      by (rewrite List.length_app; simpl; lia).
    apply IH. lia.
Qed.

Lemma argv_of_words ws rest : argv_of (map Some ws ++ None :: rest) = Some ws.
Proof. induction ws as [|x ws IH]; simpl; [reflexivity | now rewrite IH]. Qed.

Lemma argv_of_full ws : argv_of (map Some ws) = None.
Proof. induction ws as [|x ws IH]; simpl; [reflexivity | now rewrite IH]. Qed.

Lemma createProcessArguments_whole head n c :
  (length head <= n)%nat ->
  createProcessArguments (replicate n None) head c
  = CRet (map (fun a => Some (text a)) head
            ++ replicate (n - length head) None) c.
Proof. exact (createProcessArguments_loop_fits head [] n c). Qed.

Lemma createProcessArguments_overflow head n c :
  (n < length head)%nat ->
  createProcessArguments (replicate n None) head c = CFault BufferOverflow c.
Proof. exact (createProcessArguments_loop_overflow head [] n c). Qed.

Lemma createProcessArguments_fits head c :
  (length head < MAX_ARGUMENTS)%nat ->
  createProcessArguments (replicate MAX_ARGUMENTS None) head c
  = CRet (map Some (words head)
            ++ None :: replicate (MAX_ARGUMENTS - length head - 1) None) c.
Proof.
  intros Hlen.
  rewrite (createProcessArguments_whole head MAX_ARGUMENTS c) by lia.
  unfold words. rewrite map_map.
  destruct (MAX_ARGUMENTS - length head)%nat as [|k] eqn:E; [lia|].
  replace (S k - 1)%nat with k by lia. reflexivity.
Qed.

(** X19.  For a command of fewer than MAX_ARGUMENTS words, execvp is called
    with the first word as the file and with the words of the command, in
    order, as the argument vector. *)
Theorem argv_is_the_words (h : argument) (t : list argument) (c : Child) :
  (length (h :: t) < MAX_ARGUMENTS)%nat ->
  (arguments ← createProcessArguments (replicate MAX_ARGUMENTS None) (h :: t);
   execvp arguments) c
  = if exec_fails c (text h)
    then CRet (-1) (clog (CExecvp (text h) (words (h :: t))) c)
    else CExec (clog (CExecvp (text h) (words (h :: t))) c).
Proof.
  intros Hlen.
  rewrite (cbind_CRet _ _ _ _ _ (createProcessArguments_fits (h :: t) c Hlen)).
  unfold execvp. rewrite argv_of_words. reflexivity.
Qed.

Lemma argv_is_the_words_witness :
  (arguments ← createProcessArguments (replicate MAX_ARGUMENTS None)
                 (numbered 0 ["ls"; "-l"; "src"]);
   execvp arguments) child0
  = CExec (clog (CExecvp "ls" ["ls"; "-l"; "src"]) child0).
Proof.
  apply (argv_is_the_words (set_position 0 (makeArgument "ls"))
           (numbered 1 ["-l"; "src"]) child0).
  apply Nat.ltb_lt. vm_compute. reflexivity.
Defined.

(** X20.  The number of words is not checked against the size of the
    argument array.  With MAX_ARGUMENTS words the array is full and holds no
    terminating NULL for execvp; with more, createProcessArguments writes
    past its end. *)
Theorem too_many_words_overflow (head : list argument) (c : Child) :
  (MAX_ARGUMENTS <= length head)%nat ->
  (arguments ← createProcessArguments (replicate MAX_ARGUMENTS None) head;
   execvp arguments) c
  = CFault BufferOverflow c.
Proof.
  intros Hlen.
  destruct (Nat.eq_dec (length head) MAX_ARGUMENTS) as [Heq|Hne].
  - rewrite (cbind_CRet _ _ _ _ _
               (createProcessArguments_whole head MAX_ARGUMENTS c ltac:(lia))).
    rewrite Heq, Nat.sub_diag. simpl replicate. rewrite app_nil_r.
    rewrite <- (map_map text Some). fold (words head).
    unfold execvp. rewrite argv_of_full.
    destruct head as [|a l]; [discriminate | reflexivity].
  - apply cbind_CFault.
    apply (createProcessArguments_overflow head MAX_ARGUMENTS c). lia.
Qed.

Lemma too_many_words_overflow_witness :
  (arguments ← createProcessArguments (replicate MAX_ARGUMENTS None)
                 (numbered 0 (replicate MAX_ARGUMENTS "a"));
   execvp arguments) child0
  = CFault BufferOverflow child0.
Proof.
  apply (too_many_words_overflow (numbered 0 (replicate MAX_ARGUMENTS "a")) child0).
  rewrite length_numbered, length_replicate. lia.
Defined.

Lemma setInput_skip h t c :
  (non_null (redirInput h) || background h)%bool = false ->
  setInput (h :: t) c = CRet tt c.
Proof. intros H. unfold setInput. now rewrite H. Qed.

Lemma setOutput_skip h t c :
  (non_null (redirOutput h) || background h)%bool = false ->
  setOutput (h :: t) c = CRet tt c.
Proof. intros H. unfold setOutput. now rewrite H. Qed.

Lemma setInput_cases h t c :
  (non_null (redirInput h) || background h)%bool = true ->
  let file := default "/dev/null" (redirInput h) in
  let fd := open_result c file O_RDONLY in
  let c1 := clog (COpen file O_RDONLY None fd) c in
  let r := dup2_result c fd 0 in
  let c2 := clog (CDup2 fd 0 r) c1 in
  setInput (h :: t) c
  = if fd =? -1 then CExit 1 (clog (CPerror "Cannot open file to read") c1)
    else if r =? -1
         then CExit 1 (clog (CPerror "Cannot redirect input to file") c2)
         else CRet tt c2.
Proof.
  intros H. unfold setInput. rewrite H.
  destruct (redirInput h) as [f|]; cbn [default];
    unfold mbind, C_bind, cbind, open, dup2, perror, cexit, mret, C_ret, cret;
    cbn [open_result dup2_result clog];
    (destruct (_ =? -1); [reflexivity|]);
    (destruct (_ =? -1); reflexivity).
Qed.

Lemma setOutput_cases h t c :
  (non_null (redirOutput h) || background h)%bool = true ->
  let file := default "/dev/null" (redirOutput h) in
  let fd := open_result c file O_WRONLY_CREAT_TRUNC in
  let c1 := clog (COpen file O_WRONLY_CREAT_TRUNC (Some 438) fd) c in
  let r := dup2_result c fd 1 in
  let c2 := clog (CDup2 fd 1 r) c1 in
  setOutput (h :: t) c
  = if fd =? -1 then CExit 1 (clog (CPerror "Cannot open file to write") c1)
    else if r =? -1
         then CExit 1 (clog (CPerror "Cannot redirect input to file") c2)
         else CRet tt c2.
Proof.
  intros H. unfold setOutput. rewrite H.
  destruct (redirOutput h) as [f|]; cbn [default];
    unfold mbind, C_bind, cbind, open, dup2, perror, cexit, mret, C_ret, cret;
    cbn [open_result dup2_result clog];
    (destruct (_ =? -1); [reflexivity|]);
    (destruct (_ =? -1); reflexivity).
Qed.

Lemma last_clog e c : last (ctrace (clog e c)) = Some e.
Proof. simpl. apply last_snoc. Qed.

Lemma setInput_ends head c : exits_after_perror (setInput head c).
Proof.
  destruct head as [|h t]; [exact I|].
  destruct (non_null (redirInput h) || background h)%bool eqn:E.
  - rewrite (setInput_cases h t c E). cbv zeta.
    destruct (_ =? -1); [split; [reflexivity | eexists; apply last_clog]|].
    destruct (_ =? -1); [split; [reflexivity | eexists; apply last_clog]|].
    exact I.
  - now rewrite (setInput_skip h t c E).
Qed.

Lemma setOutput_ends head c : exits_after_perror (setOutput head c).
Proof.
  destruct head as [|h t]; [exact I|].
  destruct (non_null (redirOutput h) || background h)%bool eqn:E.
  - rewrite (setOutput_cases h t c E). cbv zeta.
    destruct (_ =? -1); [split; [reflexivity | eexists; apply last_clog]|].
    destruct (_ =? -1); [split; [reflexivity | eexists; apply last_clog]|].
    exact I.
  - now rewrite (setOutput_skip h t c E).
Qed.

Lemma leaves_bind {A B} (m : C A) (f : A -> C B) c :
  exits_after_perror (m c) -> (forall a c1, leaves_the_shell (f a c1)) ->
  leaves_the_shell ((m ≫= f) c).
Proof.
  intros Hm Hf. unfold mbind, C_bind, cbind.
  destruct (m c) as [a c1|code c1|c1|e c1]; simpl in *; auto.
Qed.

Lemma createProcessArguments_ends arguments : forall head i c,
  exits_after_perror (createProcessArguments_loop arguments i head c).
Proof.
  intros head. revert arguments.
  induction head as [|a next IH]; intros arguments i c; simpl; [exact I|].
  destruct (i <? length arguments)%nat; [apply IH | exact I].
Qed.

(** X21.  The child never comes back into the loop of the shell.  Whatever
    open, dup2 and execvp do, the branch of the child ends in the new
    program, or in exit with status 1 right after a message of perror, or in
    undefined behaviour. *)
Theorem child_never_returns (head : arglist) (c : Child) :
  leaves_the_shell (otherProcess_child head c).
Proof.
  unfold otherProcess_child. destruct head as [[|h t]|]; try exact I.
  apply leaves_bind.
  { destruct (negb (background h)); exact I. }
  intros _ c1. apply leaves_bind; [apply setInput_ends|].
  intros _ c2. apply leaves_bind; [apply setOutput_ends|].
  intros _ c3. apply leaves_bind; [apply createProcessArguments_ends|].
  intros arguments c4. apply leaves_bind.
  { unfold execvp. destruct arguments as [|[file|] rest]; try exact I.
    destruct (argv_of _); [|exact I]. destruct (exec_fails c4 file); exact I. }
  intros _ c5. destruct arguments as [|[file|] rest]; try exact I.
  split; [reflexivity|]. exists file. apply last_clog.
Qed.

Lemma child_exec h t c :
  (length (h :: t) < MAX_ARGUMENTS)%nat ->
  (arguments ← createProcessArguments (replicate MAX_ARGUMENTS None) (h :: t);
   _ ← execvp arguments;
   _ ← match arguments with
       | Some file :: _ => perror file
       | _ => ccrash NullDeref
       end;
   cexit 1) c
  = (if exec_fails c (text h)
     then CExit 1 (clog (CPerror (text h))
                        (clog (CExecvp (text h) (words (h :: t))) c))
     else CExec (clog (CExecvp (text h) (words (h :: t))) c)
     : child_outcome unit).
Proof.
  intros Hlen.
  rewrite (cbind_CRet _ _ _ _ _ (createProcessArguments_fits (h :: t) c Hlen)).
  unfold execvp. rewrite argv_of_words. simpl map. simpl app.
  unfold mbind, C_bind, cbind. destruct (exec_fails c (text h)); reflexivity.
Qed.

(** X22.  The child of a foreground command without redirection ignores
    SIGTSTP, takes the default action for SIGINT, opens no file and calls
    execvp with the words of the command.  When execvp fails, the child
    names the command through perror and exits with status 1. *)
Theorem foreground_child_runs_words (h : argument) (t : list argument)
    (c : Child) :
  background h = false -> redirInput h = None -> redirOutput h = None ->
  (length (h :: t) < MAX_ARGUMENTS)%nat ->
  otherProcess_child (Live (h :: t)) c
  = let c' := clog (CExecvp (text h) (words (h :: t)))
                (clog (CSigaction SIGINT SIG_DFL)
                   (clog (CSigaction SIGTSTP SIG_IGN) c)) in
    if exec_fails c (text h)
    then CExit 1 (clog (CPerror (text h)) c')
    else CExec c'.
Proof.
  intros Hb Hin Hout Hlen. unfold otherProcess_child. rewrite Hb. cbn [negb].
  erewrite (cbind_CRet _ _ c) by reflexivity.
  erewrite cbind_CRet by (apply setInput_skip; now rewrite Hin, Hb).
  erewrite cbind_CRet by (apply setOutput_skip; now rewrite Hout, Hb).
  rewrite (child_exec h t _ Hlen). reflexivity.
Qed.

Lemma foreground_child_runs_words_witness :
  otherProcess_child (Live (numbered 0 ["ls"; "-l"])) child0
  = CExec (mkChild (open_result child0) (dup2_result child0) (exec_fails child0)
             [CSigaction SIGTSTP SIG_IGN; CSigaction SIGINT SIG_DFL;
              CExecvp "ls" ["ls"; "-l"]]).
Proof.
  apply (foreground_child_runs_words (set_position 0 (makeArgument "ls"))
           (numbered 1 ["-l"]) child0).
  - reflexivity.
  - reflexivity.
  - reflexivity.
  - apply Nat.ltb_lt. vm_compute. reflexivity.
Defined.

(** X23.  The child of a background command keeps the signal dispositions
    of the shell and redirects both standard input and standard output
    before execvp: to the file named on the line where there is one, and to
    /dev/null otherwise. *)
Theorem background_child_dev_null (h : argument) (t : list argument)
    (c : Child) :
  background h = true ->
  (length (h :: t) < MAX_ARGUMENTS)%nat ->
  open_result c (default "/dev/null" (redirInput h)) O_RDONLY <> -1 ->
  dup2_result c (open_result c (default "/dev/null" (redirInput h)) O_RDONLY) 0
    <> -1 ->
  open_result c (default "/dev/null" (redirOutput h)) O_WRONLY_CREAT_TRUNC <> -1 ->
  dup2_result c
    (open_result c (default "/dev/null" (redirOutput h)) O_WRONLY_CREAT_TRUNC) 1
    <> -1 ->
  exec_fails c (text h) = false ->
  exists c',
    otherProcess_child (Live (h :: t)) c = CExec c' /\
    ctrace c'
    = ctrace c ++
      [COpen (default "/dev/null" (redirInput h)) O_RDONLY None
         (open_result c (default "/dev/null" (redirInput h)) O_RDONLY);
       CDup2 (open_result c (default "/dev/null" (redirInput h)) O_RDONLY) 0
         (dup2_result c
            (open_result c (default "/dev/null" (redirInput h)) O_RDONLY) 0);
       COpen (default "/dev/null" (redirOutput h)) O_WRONLY_CREAT_TRUNC (Some 438)
         (open_result c (default "/dev/null" (redirOutput h)) O_WRONLY_CREAT_TRUNC);
       CDup2
         (open_result c (default "/dev/null" (redirOutput h)) O_WRONLY_CREAT_TRUNC)
         1
         (dup2_result c
            (open_result c (default "/dev/null" (redirOutput h))
               O_WRONLY_CREAT_TRUNC) 1);
       CExecvp (text h) (words (h :: t))].
Proof.
  intros Hb Hlen Hoin Hdin Hoout Hdout Hexec.
  apply Z.eqb_neq in Hoin, Hdin, Hoout, Hdout.
  unfold otherProcess_child. rewrite Hb. cbn [negb].
  erewrite (cbind_CRet _ _ c) by reflexivity.
  erewrite cbind_CRet;
    [|rewrite setInput_cases by (rewrite Hb; apply orb_true_r);
      cbv zeta; rewrite Hoin, Hdin; reflexivity].
  erewrite cbind_CRet;
    [|rewrite setOutput_cases by (rewrite Hb; apply orb_true_r);
      cbv zeta; cbn [open_result dup2_result clog];
      rewrite Hoout, Hdout; reflexivity].
  rewrite (child_exec h t _ Hlen). cbn [exec_fails clog]. rewrite Hexec.
  eexists. split; [reflexivity|].
  cbn [ctrace clog]. rewrite <- !app_assoc. reflexivity.
Qed.

Lemma background_child_dev_null_witness :
  exists c',
    otherProcess_child (Live (on_head (set_background true)
                                (numbered 0 ["sleep"; "100"]))) child0
    = CExec c' /\
    ctrace c'
    = ctrace child0 ++
      [COpen "/dev/null" O_RDONLY None 3; CDup2 3 0 0;
       COpen "/dev/null" O_WRONLY_CREAT_TRUNC (Some 438) 4; CDup2 4 1 1;
       CExecvp "sleep" ["sleep"; "100"]].
Proof.
  apply (background_child_dev_null
           (set_background true (set_position 0 (makeArgument "sleep")))
           (numbered 1 ["100"]) child0).
  - reflexivity.
  - apply Nat.ltb_lt. vm_compute. reflexivity.
  - discriminate.
  - discriminate.
  - discriminate.
  - discriminate.
  - reflexivity.
Defined.

(** X24.  When the file for standard input cannot be opened, the child
    reports it and exits with status 1 before anything is done for standard
    output: the output file is neither created nor truncated, and no
    program is run. *)
Theorem input_failure_leaves_output_alone (h : argument) (t : list argument)
    (c : Child) :
  (non_null (redirInput h) || background h)%bool = true ->
  open_result c (default "/dev/null" (redirInput h)) O_RDONLY = -1 ->
  exists c',
    otherProcess_child (Live (h :: t)) c = CExit 1 c' /\
    ctrace c'
    = ctrace c ++
      (if background h then []
       else [CSigaction SIGTSTP SIG_IGN; CSigaction SIGINT SIG_DFL]) ++
      [COpen (default "/dev/null" (redirInput h)) O_RDONLY None (-1);
       CPerror "Cannot open file to read"].
Proof.
  intros Hcond Hopen. unfold otherProcess_child.
  destruct (background h) eqn:Hb; cbn [negb].
  - erewrite (cbind_CRet _ _ c) by reflexivity.
    erewrite cbind_CExit;
      [|rewrite setInput_cases by (now rewrite Hb);
        cbv zeta; rewrite Hopen; reflexivity].
    eexists. split; [reflexivity|].
    cbn [ctrace clog]. rewrite <- !app_assoc. reflexivity.
  - erewrite (cbind_CRet _ _ c) by reflexivity.
    erewrite cbind_CExit;
      [|rewrite setInput_cases by (now rewrite Hb);
        cbv zeta; cbn [open_result dup2_result clog];
        rewrite Hopen; reflexivity].
    eexists. split; [reflexivity|].
    cbn [ctrace clog]. rewrite <- !app_assoc. reflexivity.
Qed.

Lemma input_failure_leaves_output_alone_witness :
  exists c',
    otherProcess_child
      (Live [set_redirOutput "out.txt"
               (set_redirInput "missing.txt" (set_position 0 (makeArgument "sort")))])
      (mkChild (fun path _ => if (path =? "missing.txt")%string then -1 else 4)
               (fun _ newfd => newfd) (fun _ => false) [])
    = CExit 1 c' /\
    ctrace c'
    = [] ++ [CSigaction SIGTSTP SIG_IGN; CSigaction SIGINT SIG_DFL] ++
      [COpen "missing.txt" O_RDONLY None (-1); CPerror "Cannot open file to read"].
Proof.
  apply (input_failure_leaves_output_alone
           (set_redirOutput "out.txt"
              (set_redirInput "missing.txt" (set_position 0 (makeArgument "sort"))))
           []
           (mkChild (fun path _ => if (path =? "missing.txt")%string then -1 else 4)
                    (fun _ newfd => newfd) (fun _ => false) [])).
  - reflexivity.
  - reflexivity.
Defined.

(** ** From the line to the child *)

(** X25.  From the line to execvp.  For a command with arguments followed
    by [< fin > fout], the shell's parse leaves the command and its
    arguments, and the child opens [fin] for reading on descriptor 0,
    creates or truncates [fout] on descriptor 1, and then runs the command
    with exactly the command and its arguments as argument vector: the
    redirection words are not passed on. *)
Theorem redirected_line_reaches_execvp (cmd : string) (args : list string)
    (fin fout : string) (w : World) (c : Child) :
  forallb is_word (cmd :: args) = true ->
  is_word fin = true -> is_word fout = true -> fout <> "&" ->
  (length (cmd :: args) < MAX_ARGUMENTS)%nat ->
  open_result c fin O_RDONLY <> -1 ->
  dup2_result c (open_result c fin O_RDONLY) 0 <> -1 ->
  open_result c fout O_WRONLY_CREAT_TRUNC <> -1 ->
  dup2_result c (open_result c fout O_WRONLY_CREAT_TRUNC) 1 <> -1 ->
  exec_fails c cmd = false ->
  exists head al c',
    separateInput (join (cmd :: args ++ ["<"; fin; ">"; fout])) w = Ret head w /\
    otherProcess_redirect head w = Ret al w /\
    otherProcess_child al c = CExec c' /\
    ctrace c'
    = ctrace c ++
      [CSigaction SIGTSTP SIG_IGN; CSigaction SIGINT SIG_DFL;
       COpen fin O_RDONLY None (open_result c fin O_RDONLY);
       CDup2 (open_result c fin O_RDONLY) 0
         (dup2_result c (open_result c fin O_RDONLY) 0);
       COpen fout O_WRONLY_CREAT_TRUNC (Some 438)
         (open_result c fout O_WRONLY_CREAT_TRUNC);
       CDup2 (open_result c fout O_WRONLY_CREAT_TRUNC) 1
         (dup2_result c (open_result c fout O_WRONLY_CREAT_TRUNC) 1);
       CExecvp cmd (cmd :: args)].
Proof.
  intros Hws Hfin Hfout Hamp Hlen Hoin Hdin Hoout Hdout Hexec.
  apply Z.eqb_neq in Hoin, Hdin, Hoout, Hdout.
  set (h := set_position 0 (makeArgument cmd)).
  set (t := numbered (0 + 1) args).
  set (k := 0 + 1 + Z.of_nat (length args)).
  set (lt := set_position k (makeArgument "<")).
  set (xfin := set_position (k + 1) (makeArgument fin)).
  set (gt := set_position (k + 1 + 1) (makeArgument ">")).
  set (xfout := set_position (k + 1 + 1 + 1) (makeArgument fout)).
  assert (Hnum : numbered 0 (cmd :: args ++ ["<"; fin; ">"; fout])
                 = h :: (t ++ [lt; xfin]) ++ [gt; xfout]).
  { simpl numbered. rewrite numbered_app. rewrite <- app_assoc. reflexivity. }
  exists (h :: (t ++ [lt; xfin]) ++ [gt; xfout]),
         (Live (set_redirInput fin (set_redirOutput fout h) :: t)).
  assert (Hsep : separateInput (join (cmd :: args ++ ["<"; fin; ">"; fout])) w
                 = Ret (h :: (t ++ [lt; xfin]) ++ [gt; xfout]) w).
  { rewrite <- Hnum. apply separateInput_of_words.
    - discriminate.
    - change (cmd :: args ++ ["<"; fin; ">"; fout])
        with ((cmd :: args) ++ ["<"; fin; ">"; fout]).
      rewrite forallb_app, Hws. simpl. now rewrite Hfin, Hfout.
    - change (cmd :: args ++ ["<"; fin; ">"; fout])
        with ((cmd :: args) ++ ["<"; fin; ">"] ++ [fout]).
      rewrite app_assoc, last_snoc. congruence. }
  assert (Hred : otherProcess_redirect (h :: (t ++ [lt; xfin]) ++ [gt; xfout]) w
                 = Ret (Live (set_redirInput fin (set_redirOutput fout h) :: t)) w).
  { unfold otherProcess_redirect.
    rewrite (bind_Ret _ _ _ _ _
               (redirectIO_output h (t ++ [lt; xfin]) gt xfout w eq_refl)).
    cbn beta iota.
    rewrite (bind_Ret _ _ _ _ _
               (redirectIO_input (set_redirOutput (text xfout) h) t lt xfin w
                  eq_refl)).
    reflexivity. }
  assert (Hwords : words (set_redirInput fin (set_redirOutput fout h) :: t)
                   = cmd :: args).
  { unfold words. simpl map. f_equal. apply words_numbered. }
  assert (Hl : (length (set_redirInput fin (set_redirOutput fout h) :: t)
                < MAX_ARGUMENTS)%nat).
  { simpl length in *. unfold t. now rewrite length_numbered. }
  unfold otherProcess_child.
  change (background (set_redirInput fin (set_redirOutput fout h))) with false.
  cbn [negb].
  erewrite (cbind_CRet _ _ c) by reflexivity.
  erewrite cbind_CRet;
    [|rewrite setInput_cases by reflexivity; cbv zeta;
      change (redirInput (set_redirInput fin (set_redirOutput fout h)))
        with (Some fin);
      change (default "/dev/null" (Some fin)) with fin;
      cbn [open_result dup2_result clog];
      rewrite Hoin, Hdin; reflexivity].
  erewrite cbind_CRet;
    [|rewrite setOutput_cases by reflexivity; cbv zeta;
      change (redirOutput (set_redirInput fin (set_redirOutput fout h)))
        with (Some fout);
      change (default "/dev/null" (Some fout)) with fout;
      cbn [open_result dup2_result clog];
      rewrite Hoout, Hdout; reflexivity].
  pose proof (child_exec _ _
                (clog (CDup2 (open_result c fout O_WRONLY_CREAT_TRUNC) 1
                         (dup2_result c (open_result c fout O_WRONLY_CREAT_TRUNC) 1))
                   (clog (COpen fout O_WRONLY_CREAT_TRUNC (Some 438)
                            (open_result c fout O_WRONLY_CREAT_TRUNC))
                      (clog (CDup2 (open_result c fin O_RDONLY) 0
                               (dup2_result c (open_result c fin O_RDONLY) 0))
                         (clog (COpen fin O_RDONLY None (open_result c fin O_RDONLY))
                            (clog (CSigaction SIGINT SIG_DFL)
                               (clog (CSigaction SIGTSTP SIG_IGN) c))))))
                Hl) as Hrun.
  rewrite Hwords in Hrun.
  change (text (set_redirInput fin (set_redirOutput fout h))) with cmd in Hrun.
  cbn [exec_fails clog] in Hrun.
  rewrite Hexec in Hrun.
  eexists. split; [exact Hsep|]. split; [exact Hred|].
  split; [exact Hrun|].
  cbn [ctrace clog]. rewrite <- !app_assoc. reflexivity.
Qed.

Lemma redirected_line_reaches_execvp_witness :
  exists head al c',
    separateInput (join ("wc" :: ["-l"] ++ ["<"; "in.txt"; ">"; "out.txt"])) world0
    = Ret head world0 /\
    otherProcess_redirect head world0 = Ret al world0 /\
    otherProcess_child al child0 = CExec c' /\
    ctrace c'
    = ctrace child0 ++
      [CSigaction SIGTSTP SIG_IGN; CSigaction SIGINT SIG_DFL;
       COpen "in.txt" O_RDONLY None 3; CDup2 3 0 0;
       COpen "out.txt" O_WRONLY_CREAT_TRUNC (Some 438) 4; CDup2 4 1 1;
       CExecvp "wc" ["wc"; "-l"]].
Proof.
  apply (redirected_line_reaches_execvp "wc" ["-l"] "in.txt" "out.txt"
           world0 child0).
  - reflexivity.
  - reflexivity.
  - reflexivity.
  - discriminate.
  - apply Nat.ltb_lt. vm_compute. reflexivity.
  - discriminate.
  - discriminate.
  - discriminate.
  - discriminate.
  - reflexivity.
Defined.

(** ** Built-in commands come before redirection *)

(** X26.  The built-in commands are recognised before the line is looked at
    for redirection: the directory [cd] changes to is the second word of
    the line, whatever it is, [<] and [>] included, and the words after it
    are not looked at. *)
Theorem cd_takes_second_word (d : string) (rest : list string)
    (children : list Z) (es : endStatus) (w : World) :
  forallb is_word (d :: rest) = true -> last (d :: rest) <> Some "&" ->
  (head ← separateInput (join ("cd" :: d :: rest)); builtIn head children es) w
  = Ret true (log (EChdir (Some d)) w).
Proof.
  intros Hws Hlast.
  rewrite (bind_Ret _ _ _ _ _
             (separateInput_of_words ("cd" :: d :: rest) w ltac:(discriminate)
                ltac:(exact Hws) ltac:(exact Hlast))).
  reflexivity.
Qed.

Lemma cd_takes_second_word_witness :
  (head ← separateInput (join ["cd"; ">"; "out.txt"]);
   builtIn head [] (mkEndStatus true 0)) world0
  = Ret true (log (EChdir (Some ">")) world0).
Proof.
  apply (cd_takes_second_word ">" ["out.txt"] [] (mkEndStatus true 0) world0).
  - reflexivity.
  - discriminate.
Defined.

(** ** Foreground-Only Mode *)

Lemma keeps_mode_ret {A} (a : A) : keeps_mode (mret a : M A).
Proof. intros w. reflexivity. Qed.

Lemma keeps_mode_crash {A} e : keeps_mode (crash e : M A).
Proof. intros w. reflexivity. Qed.

Lemma keeps_mode_exit {A} code : keeps_mode (exit_ code : M A).
Proof. intros w. reflexivity. Qed.

Lemma keeps_mode_emit e : keeps_mode (emit e).
Proof. intros w. reflexivity. Qed.

Lemma keeps_mode_bind {A B} (m : M A) (f : A -> M B) :
  keeps_mode m -> (forall a, keeps_mode (f a)) -> keeps_mode (m ≫= f).
Proof.
  intros Hm Hf w. specialize (Hm w). unfold mbind, M_bind, bind.
  destruct (m w) as [a w1|c w1|w1|e w1]; simpl in *; try exact Hm.
  now rewrite (Hf a w1).
Qed.

Lemma keeps_mode_reads_only {A} (m : M A) : reads_only m -> keeps_mode m.
Proof. intros H w. destruct (H w) as (s & ->). reflexivity. Qed.

Lemma keeps_mode_fork : keeps_mode fork.
Proof.
  intros w. unfold fork. destruct (forks w) as [|[[pid p]|] rest]; reflexivity.
Qed.

Lemma keeps_mode_waitpid pid cs options : keeps_mode (waitpid pid cs options).
Proof.
  intros w. unfold waitpid.
  destruct (procs w !! pid) as [[fate ont|t]|]; try reflexivity.
  destruct (options =? WNOHANG); [reflexivity|]. destruct fate; reflexivity.
Qed.

Lemma keeps_mode_kill pid sig : keeps_mode (kill pid sig).
Proof.
  intros w. unfold kill.
  destruct (procs w !! pid) as [[fate ont|t]|]; reflexivity.
Qed.

Lemma keeps_mode_killChildren head : forall cs, keeps_mode (killChildren head cs).
Proof.
  induction head as [|id next IH]; intros cs; simpl; [apply keeps_mode_ret|].
  apply keeps_mode_bind; [apply keeps_mode_kill|]. intros _.
  apply keeps_mode_bind; [apply keeps_mode_waitpid|]. intros [? ?]. apply IH.
Qed.

Lemma keeps_mode_reap cur : forall head sig cs,
  keeps_mode (checkTerminatedChildren_loop cur head sig cs).
Proof.
  induction cur as [|id next IH]; intros head sig cs; simpl;
    [apply keeps_mode_ret|].
  apply keeps_mode_bind; [apply keeps_mode_waitpid|]. intros [r st].
  destruct (r =? 0); [apply IH|].
  apply keeps_mode_bind; [|intros _; apply IH].
  destruct (WIFEXITED st); [apply keeps_mode_emit|].
  destruct sig; apply keeps_mode_emit.
Qed.

Lemma keeps_mode_builtIn head children es : keeps_mode (builtIn head children es).
Proof.
  unfold builtIn. destruct head as [|cmd args]; [apply keeps_mode_crash|].
  destruct (text cmd =? "exit")%string.
  { apply keeps_mode_bind; [apply keeps_mode_killChildren|].
    intros _. apply keeps_mode_exit. }
  destruct (text cmd =? "cd")%string.
  { apply keeps_mode_bind; [|intros _; apply keeps_mode_ret].
    unfold changeDir. destruct args; apply keeps_mode_emit. }
  destruct (text cmd =? "status")%string.
  { apply keeps_mode_bind; [|intros _; apply keeps_mode_ret].
    unfold printStatus. apply keeps_mode_bind; [|intros _; apply keeps_mode_emit].
    destruct (exit es); apply keeps_mode_emit. }
  apply keeps_mode_ret.
Qed.

Lemma keeps_mode_otherProcess head children es cs :
  keeps_mode (otherProcess head children es cs).
Proof.
  unfold otherProcess.
  apply keeps_mode_bind;
    [apply keeps_mode_reads_only, reads_only_otherProcess_redirect|].
  intros head'. apply keeps_mode_bind; [apply keeps_mode_fork|]. intros newID.
  destruct (newID =? -1).
  { apply keeps_mode_bind; [apply keeps_mode_emit|]. intros _.
    apply keeps_mode_exit. }
  destruct (newID =? 0); [apply keeps_mode_exit|].
  destruct head' as [[|d l]|]; try apply keeps_mode_crash.
  destruct (negb (background d)).
  - apply keeps_mode_bind; [apply keeps_mode_waitpid|]. intros [r st].
    destruct (WIFEXITED st); [apply keeps_mode_ret|].
    apply keeps_mode_bind; [|intros _; apply keeps_mode_ret].
    destruct (WTERMSIG st =? 2); [apply keeps_mode_emit | apply keeps_mode_ret].
  - apply keeps_mode_bind; [apply keeps_mode_emit|]. intros _.
    apply keeps_mode_ret.
Qed.

Lemma keeps_mode_getInput processID input : keeps_mode (getInput processID input).
Proof.
  intros w. destruct (getInput_world processID input w) as (s & ->). reflexivity.
Qed.

(** X27.  No turn of the loop of main changes Foreground-Only Mode, however
    the turn ends: the mode is written by the handler of SIGTSTP alone. *)
Theorem main_loop_keeps_mode (processID : Z) (u : indeterminate) (sh : shell) :
  keeps_mode (main_body processID u sh).
Proof.
  unfold main_body.
  apply keeps_mode_bind; [apply keeps_mode_reap|]. intros children1.
  apply keeps_mode_bind; [apply keeps_mode_getInput|]. intros head.
  destruct head as [|a args]; [apply keeps_mode_ret|].
  apply keeps_mode_bind; [apply keeps_mode_builtIn|]. intros handled.
  destruct handled; [apply keeps_mode_ret|].
  apply keeps_mode_bind; [apply keeps_mode_otherProcess|]. intros [? ?].
  apply keeps_mode_ret.
Qed.

Lemma handle_SIGTSTP_frame w :
  procs (handle_SIGTSTP w) = procs w /\
  forks (handle_SIGTSTP w) = forks w /\
  stdin (handle_SIGTSTP w) = stdin w.
Proof. unfold handle_SIGTSTP. destruct (backgroundOnly w); repeat split. Qed.

Lemma length_mode_messages n : forall mode, length (mode_messages n mode) = n.
Proof. induction n as [|n IH]; intros mode; simpl; [reflexivity | now rewrite IH]. Qed.

(** X28.  The handler of SIGTSTP changes nothing but the mode and the
    output.  After [n] deliveries of the signal the mode is the one before
    when [n] is even and the other one when [n] is odd; what has been added
    to the trace is exactly [n] written messages and nothing else, the
    message for leaving the mode before first and then the two messages in
    turn; children, pending forks and unread input are as before. *)
Theorem SIGTSTP_parity (n : nat) (w : World) :
  backgroundOnly (Nat.iter n handle_SIGTSTP w)
  = (if Nat.even n then backgroundOnly w else negb (backgroundOnly w)) /\
  procs (Nat.iter n handle_SIGTSTP w) = procs w /\
  forks (Nat.iter n handle_SIGTSTP w) = forks w /\
  stdin (Nat.iter n handle_SIGTSTP w) = stdin w /\
  trace (Nat.iter n handle_SIGTSTP w)
  = trace w ++ map EPrint (mode_messages n (backgroundOnly w)) /\
  output (trace (Nat.iter n handle_SIGTSTP w))
  = (output (trace w)
     ++ String.concat "" (mode_messages n (backgroundOnly w)))%string /\
  length (mode_messages n (backgroundOnly w)) = n.
Proof.
  assert (Htrace : forall k v,
            trace (Nat.iter k handle_SIGTSTP v)
            = trace v ++ map EPrint (mode_messages k (backgroundOnly v))).
  { induction k as [|k IH]; intros v; [simpl; now rewrite app_nil_r|].
    rewrite Nat.iter_succ_r, IH.
    destruct (handle_SIGTSTP_toggles v) as [Hm Htr]. rewrite Hm, Htr.
    rewrite <- app_assoc. reflexivity. }
  assert (Hout : forall l, output (map EPrint l) = String.concat "" l).
  { induction l as [|x l IH]; [reflexivity|].
    simpl map. simpl output. rewrite IH.
    destruct l as [|y l]; [now rewrite string_app_empty_r | reflexivity]. }
  split; [|split; [|split; [|split; [|split; [|split]]]]].
  - induction n as [|n IH]; [reflexivity|].
    rewrite Nat.iter_succ.
    destruct (handle_SIGTSTP_toggles (Nat.iter n handle_SIGTSTP w)) as [Hm _].
    rewrite Hm, IH, Nat.even_succ, <- Nat.negb_even.
    destruct (Nat.even n); [reflexivity | apply negb_involutive].
  - induction n as [|n IH]; [reflexivity|]. rewrite Nat.iter_succ.
    destruct (handle_SIGTSTP_frame (Nat.iter n handle_SIGTSTP w)) as (-> & _).
    exact IH.
  - induction n as [|n IH]; [reflexivity|]. rewrite Nat.iter_succ.
    destruct (handle_SIGTSTP_frame (Nat.iter n handle_SIGTSTP w)) as (_ & -> & _).
    exact IH.
  - induction n as [|n IH]; [reflexivity|]. rewrite Nat.iter_succ.
    destruct (handle_SIGTSTP_frame (Nat.iter n handle_SIGTSTP w)) as (_ & _ & ->).
    exact IH.
  - apply Htrace.
  - rewrite Htrace, output_app, Hout. reflexivity.
  - apply length_mode_messages.
Qed.

(** X29.  checkForegroundOnly returns the current mode, whatever it is
    given, and announces the mode when it differs from the one it is given:
    called again with its own result, it prints nothing more and returns
    the same. *)
Theorem checkForegroundOnly_reports_mode (lastTime : bool) (w : World) :
  checkForegroundOnly lastTime w
  = Ret (backgroundOnly w)
        (if Bool.eqb lastTime (backgroundOnly w) then w
         else log (EPrint ((if backgroundOnly w
                            then "Entering foreground-only mode (& is now ignored)"
                            else "Exiting foreground-only mode") ++ nl)) w) /\
  (mode ← checkForegroundOnly lastTime; checkForegroundOnly mode) w
  = checkForegroundOnly lastTime w.
Proof.
  unfold mbind, M_bind, bind, checkForegroundOnly.
  destruct lastTime, (backgroundOnly w) eqn:E; simpl; rewrite ?E; simpl;
    split; reflexivity.
Qed.

(** ** A turn without a command *)

(** X30.  An empty line and a line that starts with [#] run nothing: the
    turn is the reap pass and the prompt, the line is taken from standard
    input, and the Last Status Record stays as it was. *)
Theorem comment_turn_only_reaps (processID : Z) (u : indeterminate)
    (sh : shell) (s rest : string) (w : World) :
  plain s = true -> (String.length s < LINE_LENGTH)%nat ->
  nothing_to_run s = true ->
  stdin w = (s ++ nl ++ rest)%string ->
  exists children' w1,
    checkTerminatedChildren (children sh) false
      (childStatus_of_checkTerminatedChildren u) w = Ret children' w1 /\
    main_body processID u sh w
    = Ret (mkShell children' (exitStatus sh))
          (log (EPrint ": ") (set_stdin rest w1)).
Proof.
  intros Hplain Hlen Hnothing Hin.
  destruct (reap_returns (children sh) (children sh) false
              (childStatus_of_checkTerminatedChildren u) w)
    as (children1 & w1 & l1 & Hreap & _ & _ & Hs & _).
  exists children1, w1. split; [exact Hreap|].
  unfold main_body, checkTerminatedChildren.
  rewrite (bind_Ret _ _ _ _ _ Hreap).
  assert (Hw1 : w1 = set_stdin (s ++ nl ++ rest) w1).
  { rewrite <- Hin, <- Hs. now destruct w1. }
  pose proof (getInput_plain processID (input_of_getInput u) s rest w1
                Hplain Hlen) as Hget.
  rewrite Hnothing, <- Hw1 in Hget.
  now rewrite (bind_Ret _ _ _ _ _ Hget).
Qed.

Lemma comment_turn_only_reaps_witness :
  exists children' w1,
    checkTerminatedChildren [5; 7] false 0
      (set_stdin ("# nothing" ++ nl ++ "status" ++ nl) two_children)
    = Ret children' w1 /\
    main_body 4821 (mkIndeterminate xs 0 0) (mkShell [5; 7] (mkEndStatus false 2))
      (set_stdin ("# nothing" ++ nl ++ "status" ++ nl) two_children)
    = Ret (mkShell children' (mkEndStatus false 2))
          (log (EPrint ": ") (set_stdin ("status" ++ nl) w1)).
Proof.
  apply (comment_turn_only_reaps 4821 (mkIndeterminate xs 0 0)
           (mkShell [5; 7] (mkEndStatus false 2)) "# nothing" ("status" ++ nl)
           (set_stdin ("# nothing" ++ nl ++ "status" ++ nl) two_children)).
  - reflexivity.
  - apply Nat.ltb_lt. vm_compute. reflexivity.
  - reflexivity.
  - reflexivity.
Defined.
